(** * Genie: thread lifecycle and fallback retry of the IAM assistant service

    A shallow embedding of [IAMAssistant.chat_on_thread] (IAMAssistant.py)
    and of the registry getters and thread endpoints of agent_service.py,
    with the properties of the specification stated over it; then of the
    whole handler of /ad/chat, of the constructor of the assistant, of the
    token verification and the dashboard cache of agent_service.py, and of
    the pages of app.py that talk to the agents without server-side
    history, with properties read off the code. *)

From Stdlib Require Import String Ascii List Lia.
From Stdlib.Strings Require Import Byte.
From stdpp Require Import base option gmap strings list.

Local Open Scope string_scope.
Local Open Scope list_scope.

(** ** Python strings

    A Python [str] is modelled by the bytes of its UTF-8 encoding.  UTF-8 is
    self-synchronising, so [needle in hay] on code points and on the encoded
    bytes agree. *)

(** The line feed of the f-string ["[Recovered Answer]\n..."]. *)
Definition LF : string := String "010" "".

(** [needle in hay]. *)
Fixpoint contains (needle hay : string) : bool :=
  String.prefix needle hay ||
  match hay with
  | EmptyString => false
  | String _ hay' => contains needle hay'
  end.

(** ** Exceptions

    [chat_on_thread] tells [azure.core.exceptions.ServiceResponseError] from
    every other [Exception]; [str e] is the text the handlers format. *)
Inductive exn : Type :=
| ServiceResponseError (msg : string)
| OtherException (msg : string).

Definition str (e : exn) : string :=
  match e with
  | ServiceResponseError msg => msg
  | OtherException msg => msg
  end.

(** ** The agent service behind [project_client.agents] *)

(** [role="user"] and [role="assistant"]. *)
Inductive Role : Type := User | Assistant.

Global Instance Role_eq_dec : EqDecision Role.
Proof. solve_decision. Defined.

Record message : Type := Message { role : Role; content : string }.

Global Instance message_eq_dec : EqDecision message.
Proof. solve_decision. Defined.

(** The requests the controller sends, in the order it sends them. *)
Inductive call : Type :=
| CreateThread
| CreateMessage (thread_id : string) (r : Role) (text : string)
| CreateAndProcessRun (thread_id : string) (assistant_id : string)
| ListMessages (thread_id : string).

Global Instance call_eq_dec : EqDecision call.
Proof. solve_decision. Defined.

(** The service: the threads it holds, what the agent will answer run after
    run ([None]: the run ends without an assistant message), which of the
    coming requests fail ([Some e]: the request raises [e] and has no effect)
    and the requests received so far. *)
Record world : Type := World {
  threads : gmap string (list message);
  replies : list (option string);
  faults : list (option exn);
  calls : list call
}.

(** Computations over a state [S] that may raise: the state is threaded
    through, and kept when an exception leaves. *)
Definition ret {S A : Type} (a : A) : S -> (exn + A) * S := fun w => (inr a, w).
Definition raise {S A : Type} (e : exn) : S -> (exn + A) * S := fun w => (inl e, w).
Definition bind {S A B : Type} (m : S -> (exn + A) * S) (k : A -> S -> (exn + B) * S)
    : S -> (exn + B) * S :=
  fun w =>
    match m w with
    | (inr a, w') => k a w'
    | (inl e, w') => (inl e, w')
    end.

(** Computations over the agent service. *)
Definition M (A : Type) : Type := world -> (exn + A) * world.

Notation "'let*' x ':=' m 'in' k" := (bind m (fun x => k))
  (at level 10, x name, m at level 100, k at level 200).
Notation "m ';;;' k" := (bind m (fun _ => k))
  (at level 100, k at level 200, right associativity).

(** The service once it has received request [c]. *)
Definition received (c : call) (w : world) : world :=
  World (threads w) (replies w) (tl (faults w)) (calls w ++ [c]).

Definition with_threads (t : gmap string (list message)) (w : world) : world :=
  World t (replies w) (faults w) (calls w).

(** A request reaches the service: it is recorded and the next fault, if any,
    is raised. *)
Definition request (c : call) : M unit :=
  fun w =>
    match faults w with
    | Some e :: _ => (inl e, received c w)
    | _ => (inr tt, received c w)
    end.

(** The service answers a request on an unknown thread with an HTTP error. *)
Definition no_such_thread (thread_id : string) : exn :=
  OtherException ("(None) No thread found with id '" +:+ thread_id +:+ "'.").

Definition get_thread (thread_id : string) : M (list message) :=
  fun w =>
    match threads w !! thread_id with
    | Some h => (inr h, w)
    | None => (inl (no_such_thread thread_id), w)
    end.

Definition set_thread (thread_id : string) (h : list message) : M unit :=
  fun w => (inr tt, with_threads (<[thread_id := h]> (threads w)) w).

(** The next answer of the agent. *)
Definition next_reply : M (option string) :=
  fun w =>
    match replies w with
    | r :: rest => (inr r, World (threads w) rest (faults w) (calls w))
    | [] => (inr None, w)
    end.

(** [agents.create_thread()]: a thread with an identifier no thread has yet,
    and no messages. *)
Definition create_thread : M string :=
  request CreateThread ;;;
  fun w =>
    let id := fresh (dom (threads w)) in
    (inr id, with_threads (<[id := []]> (threads w)) w).

(** [agents.create_message(thread_id, role, content)]. *)
Definition create_message (thread_id : string) (r : Role) (text : string) : M unit :=
  request (CreateMessage thread_id r text) ;;;
  let* h := get_thread thread_id in
  set_thread thread_id (h ++ [Message r text]).

(** [agents.create_and_process_run(thread_id, assistant_id)]: the agent reads
    the thread and, unless the run fails, appends its answer. *)
Definition create_and_process_run (thread_id assistant_id : string) : M unit :=
  request (CreateAndProcessRun thread_id assistant_id) ;;;
  let* h := get_thread thread_id in
  let* r := next_reply in
  match r with
  | Some text => set_thread thread_id (h ++ [Message Assistant text])
  | None => ret tt
  end.

(** [agents.list_messages(thread_id)]: the messages, newest first. *)
Definition list_messages (thread_id : string) : M (list message) :=
  request (ListMessages thread_id) ;;;
  let* h := get_thread thread_id in
  ret (rev h).

(** [messages.get_last_text_message_by_role(role)] on a newest-first list:
    the text of the most recent message of that role. *)
Fixpoint get_last_text_message_by_role (r : Role) (messages : list message) : option string :=
  match messages with
  | [] => None
  | m :: older =>
      if decide (role m = r) then Some (content m)
      else get_last_text_message_by_role r older
  end.

(** ** IAMAssistant *)

(** [self.iam_agent.id], fixed when the assistant is constructed. *)
Record IAMAssistant : Type := { iam_agent_id : string }.

(** The double quote. *)
Definition DQ : string := String "034" "".

(** The [instructions] the agent is created with in [__init__]. *)
Definition instructions : string :=
  "You are an expert assistant focused exclusively on assisting users with tasks related to Identity and Access Management in Entra ID. " +:+ LF +:+
  "You should ONLY use the provided IAM documentation for answering user queries from " +:+ DQ +:+ "tool_resources" +:+ DQ +:+ " (end-user-rag). When asked a query:" +:+ LF +:+
  "1. **Search the documentation**: Use the " +:+ DQ +:+ "Azure AI search tool" +:+ DQ +:+ " to retrieve relevant content from the IAM documentation for the user query." +:+ LF +:+
  "2. **No external sources**: Do not use the web or any external sources to generate answers." +:+ LF +:+
  "3. **Refuse unsupported queries**: If you cannot find relevant information in the documentation, say: " +:+ DQ +:+ "I don't know the answer to that. My responses are based solely on the IAM documentation." +:+ DQ +:+ LF +:+
  "4. **Provide clear and concise responses**: If the documentation contains information, respond with the most relevant content. If not, say: " +:+ DQ +:+ "The information is not available in the documentation." +:+ DQ +:+ LF +:+
  "5. **Do not guess or make inferences**: Only answer based on what’s available in the documentation. Give the result as it is in the documents DO NOT summarize, DO NOT exclude essential information." +:+ LF +:+
  "6. **Give presentable answers**: Format your answers in a user-friendly manner, using bullet points or numbered lists where appropriate." +:+ LF +:+
  "Always ensure the responses are professional and accurate.".

Definition no_response : string := "🤖 No response received.".
Definition no_fallback_response : string := "🤖 No fallback response received.".
Definition recovered_marker : string := "[Recovered Answer]".
Definition connection_lost : string :=
  "❌ Connection to Azure AI service lost. Please try again.".

(** The condition of step 4. *)
Definition is_refusal (response_text : string) : bool :=
  contains "I don't know the answer" response_text
  || contains "The document does not" response_text.

(** The [try] block of [chat_on_thread]. *)
Definition chat_on_thread_try (self : IAMAssistant) (thread_id user_query : string) : M string :=
  create_message thread_id User user_query ;;;
  create_and_process_run thread_id (iam_agent_id self) ;;;
  let* messages := list_messages thread_id in
  let last_message := get_last_text_message_by_role Assistant messages in
  let response_text := default no_response last_message in
  if is_refusal response_text then
    let* temp_thread := create_thread in
    create_message temp_thread User user_query ;;;
    create_and_process_run temp_thread (iam_agent_id self) ;;;
    let* temp_messages := list_messages temp_thread in
    let fallback_message := get_last_text_message_by_role Assistant temp_messages in
    let fallback_response := default no_fallback_response fallback_message in
    create_message thread_id Assistant (recovered_marker +:+ LF +:+ fallback_response) ;;;
    ret fallback_response
  else
    ret response_text.

(** [chat_on_thread] with its two [except] clauses: it always returns a
    string. *)
Definition chat_on_thread (self : IAMAssistant) (thread_id user_query : string)
    (w : world) : string * world :=
  match chat_on_thread_try self thread_id user_query w with
  | (inr reply, w') => (reply, w')
  | (inl (ServiceResponseError msg), w') =>
      if contains "Remote end closed connection without response" msg
      then (connection_lost, w')
      else ("❌ Service error: " +:+ msg, w')
  | (inl (OtherException msg), w') =>
      ("❌ Unexpected error occurred: " +:+ msg, w')
  end.

(** Steps 1 to 3: the primary response. *)
Definition primary_turn (self : IAMAssistant) (thread_id user_query : string) : M string :=
  create_message thread_id User user_query ;;;
  create_and_process_run thread_id (iam_agent_id self) ;;;
  let* messages := list_messages thread_id in
  ret (default no_response (get_last_text_message_by_role Assistant messages)).

(** The body of the [if] of step 4: the retry in a clean thread. *)
Definition retry_turn (self : IAMAssistant) (thread_id user_query : string) : M string :=
  let* temp_thread := create_thread in
  create_message temp_thread User user_query ;;;
  create_and_process_run temp_thread (iam_agent_id self) ;;;
  let* temp_messages := list_messages temp_thread in
  let fallback_response :=
    default no_fallback_response (get_last_text_message_by_role Assistant temp_messages) in
  create_message thread_id Assistant (recovered_marker +:+ LF +:+ fallback_response) ;;;
  ret fallback_response.

(** ** The vocabulary of the statements *)

(** What the next run appends to the thread it runs on. *)
Definition answered (w : world) : list message :=
  match head (replies w) with
  | Some (Some text) => [Message Assistant text]
  | _ => []
  end.

(** The requests of the primary turn and of the retry. *)
Definition primary_calls (self : IAMAssistant) (thread_id user_query : string) : list call :=
  [ CreateMessage thread_id User user_query;
    CreateAndProcessRun thread_id (iam_agent_id self);
    ListMessages thread_id ].

Definition retry_calls (self : IAMAssistant) (thread_id user_query : string)
    (temp_thread fallback_response : string) : list call :=
  [ CreateThread;
    CreateMessage temp_thread User user_query;
    CreateAndProcessRun temp_thread (iam_agent_id self);
    ListMessages temp_thread;
    CreateMessage thread_id Assistant (recovered_marker +:+ LF +:+ fallback_response) ].

(** The messages of a thread, none for an unknown thread. *)
Definition history (thread_id : string) (w : world) : list message :=
  default [] (threads w !! thread_id).

(** Between [w] and [w'] the service appended [added] to thread [t] and
    touched nothing else. *)
Definition appended (t : string) (w w' : world) (added : list message) : Prop :=
  (added = [] /\ threads w' = threads w) \/
  (exists h : list message, threads w !! t = Some h /\ threads w' = <[t := h ++ added]> (threads w)).

(** The sentence rule 4 of the instructions tells the agent to say when the
    documentation lacks the information. *)
Definition not_available : string :=
  "The information is not available in the documentation.".

(** The message that stores a recovered answer on the original thread. *)
Definition recovered (fallback_response : string) : message :=
  Message Assistant (recovered_marker +:+ LF +:+ fallback_response).

(** How a call went: [Plain] when its three primary requests succeeded, the
    run produced an answer and the answer has no refusal marker; [Fallback]
    when the primary response has a refusal marker; [Other] when a primary
    request raised or the run ended without an answer. *)
Inductive call_kind : Type := Plain | Fallback | Other.

Definition classify (self : IAMAssistant) (thread_id user_query : string) (w : world) : call_kind :=
  match primary_turn self thread_id user_query w with
  | (inr response_text, _) =>
      if is_refusal response_text then Fallback
      else match answered w with
           | [] => Other
           | _ :: _ => Plain
           end
  | (inl _, _) => Other
  end.

(** Calls made one after the other on one thread. *)
Fixpoint chat_session (self : IAMAssistant) (thread_id : string) (queries : list string)
    (w : world) : list string * world :=
  match queries with
  | [] => ([], w)
  | user_query :: rest =>
      let (reply, w1) := chat_on_thread self thread_id user_query w in
      let (replies, w2) := chat_session self thread_id rest w1 in
      (reply :: replies, w2)
  end.

Fixpoint session_kinds (self : IAMAssistant) (thread_id : string) (queries : list string)
    (w : world) : list call_kind :=
  match queries with
  | [] => []
  | user_query :: rest =>
      classify self thread_id user_query w ::
      session_kinds self thread_id rest (chat_on_thread self thread_id user_query w).2
  end.

(** The exception that request number [k + 1] from now raises, if any. *)
Definition fault (k : nat) (w : world) : option exn := default None (faults w !! k).

(** A computation that started in [w] and ended in [out] has sent [n]
    requests: none but the last raised, and what the computation raised, if
    anything, is what its last request raised or the error of a thread the
    service does not hold. *)
Definition sent {A : Type} (n : nat) (w : world) (out : (exn + A) * world) : Prop :=
  length (calls out.2) = length (calls w) + n /\
  faults out.2 = drop n (faults w) /\
  (forall k, S k < n -> fault k w = None) /\
  match out.1 with
  | inr _ => forall k, k < n -> fault k w = None
  | inl e =>
      (0 < n /\ fault (n - 1) w = Some e) \/
      ((forall k, k < n -> fault k w = None) /\
       exists t, e = no_such_thread t /\ threads out.2 !! t = None)
  end.

(** [m] sends at least [lo] requests, in the sense of [sent]. *)
Definition traced {A : Type} (lo : nat) (m : M A) : Prop :=
  forall w, exists n, lo <= n /\ sent n w (m w).

(** ** The on-premises directory endpoint

    [ad_provisioning_chat] keeps the history of a thread in the agent.  The
    class of the agent is not part of the sources: its
    [_process_user_request] is a parameter, which is handed the history
    object and returns it as it left it, with the response or the exception
    it raised; [get_thread_history] hands out the stored history and, as the
    comment at its call says, creates it when missing.  This is one turn on
    the history, once [get_ad_agent] and [get_thread_history] have returned;
    the handler from its first line, with their exceptions and the status
    of the error, is [ADEndpoint.ad_provisioning_chat] below. *)
Section ADChat.
Variable _process_user_request :
  string -> list message -> (exn + string) * list message.

Record ADProvisioningResponse : Type :=
  { action : string; result : string; agent : string }.

(** [chat_history.add_user_message] and [add_assistant_message]; the
    [except] branch of either appends the same entry by hand. *)
Definition add_message (r : Role) (text : string) (chat_history : list message) : list message :=
  chat_history ++ [Message r text].

Definition ad_provisioning_chat (thread_id req_message : string)
    (histories : gmap string (list message))
    : (exn + ADProvisioningResponse) * gmap string (list message) :=
  let chat_history := default [] (histories !! thread_id) in
  let chat_history := add_message User req_message chat_history in
  match _process_user_request req_message chat_history with
  | (inr response, chat_history) =>
      let chat_history := add_message Assistant response chat_history in
      (inr {| action := "ad_provision"; result := response; agent := "AD_MCP_Agent" |},
       <[thread_id := chat_history]> histories)
  | (inl e, chat_history) =>
      (inl (OtherException ("AD provisioning chat failed: " +:+ str e)),
       <[thread_id := chat_history]> histories)
  end.

End ADChat.

(** ** Example inputs *)

(** The worlds of the examples: one thread, an agent that first refuses and
    then answers, and no fault. *)
Definition demo_assistant : IAMAssistant := {| iam_agent_id := "asst_iam" |}.
Definition demo_refusal : string :=
  "I don't know the answer to that. My responses are based solely on the IAM documentation.".
Definition demo_world : world :=
  World {[ "thread_1" := [] ]} [Some demo_refusal; Some "User A, User B"] [] [].
Definition demo_plain_world : world :=
  World {[ "thread_1" := [] ]} [Some "User A, User B"] [] [].

Definition not_available_world : world :=
  World {[ "thread_1" := [] ]} [Some not_available; Some "User A, User B"] [] [].

(** A primary turn whose run is cut off or times out. *)
Definition reset_world : world :=
  World {[ "thread_1" := [] ]} [Some "User A, User B"]
    [None; Some (ServiceResponseError "Remote end closed connection without response")] [].
Definition timeout_world : world :=
  World {[ "thread_1" := [] ]} [Some "User A, User B"]
    [None; Some (ServiceResponseError "Read timed out.")] [].
(** The agent refuses, and on the retry answers with the very text of the
    connection-lost message. *)
Definition echo_world : world :=
  World {[ "thread_1" := [] ]} [Some demo_refusal; Some connection_lost] [] [].

(** An agent of the on-premises endpoint that answers and leaves the history
    alone. *)
Definition demo_process (m : string) (h : list message) : (exn + string) * list message :=
  (inr ("done: " +:+ m), h).

(** ** The replies of the [except] clauses, and more inputs *)

(** The reply of the [except] clauses for exception [e]. *)
Definition error_reply (e : exn) : string :=
  match e with
  | ServiceResponseError msg =>
      if contains "Remote end closed connection without response" msg
      then connection_lost
      else "❌ Service error: " +:+ msg
  | OtherException msg => "❌ Unexpected error occurred: " +:+ msg
  end.

(** A thread that already holds an answer, and a run that adds none. *)
Definition silent_world : world :=
  World {[ "thread_1" := [Message User "list users"; Message Assistant "User A, User B"] ]}
    [None] [] [].

(** The retry answers, and the request that stores its answer fails. *)
Definition lost_answer_world : world :=
  World {[ "thread_1" := [] ]} [Some demo_refusal; Some "User A, User B"]
    (replicate 7 None ++ [Some (ServiceResponseError "Read timed out.")]) [].

(** The primary turn ends in a refusal and the service is cut off when the
    retry asks for its thread. *)
Definition cut_off_retry_world : world :=
  World {[ "thread_1" := [] ]} [Some demo_refusal; Some "User A, User B"]
    [None; None; None;
     Some (ServiceResponseError "Remote end closed connection without response")] [].

(** An agent of the on-premises endpoint that fails on every request and
    leaves the history alone. *)
Definition failing_process (m : string) (h : list message) : (exn + string) * list message :=
  (inl (OtherException "MCP server unreachable"), h).

(** * The registry of agent_service.py *)

Module Registry.

(** An agent object, as far as the getters look at it: which construction
    made it, the tools it has discovered ([available_tools], empty also when
    the attribute is unset or [None]), the connections its MCP client has
    made and the services registered on its kernel. *)
Record agent : Type := Agent {
  agent_no : nat;
  available_tools : list string;
  connects : nat;
  services : list string
}.

(** What a getter asks of the classes it imports.  Their modules are not
    part of the sources; what each of these does is an input of the model. *)
Inductive effect : Type :=
| Construct (class : string)
| Connect (global : string)
| AddService (global service_id : string)
| Initialize (global : string).

(** The module state: the singleton globals ([None] is an absent key), the
    number of agents constructed so far, for each coming effect whether it
    raises, for each coming discovery the tools it finds, and the effects so
    far. *)
Record registry : Type := Reg {
  globals : gmap string agent;
  constructed : nat;
  outcomes : list (option exn);
  discoveries : list (list string);
  effects : list effect
}.

Definition G (A : Type) : Type := registry -> (exn + A) * registry.

Definition with_globals (g : gmap string agent) (r : registry) : registry :=
  Reg g (constructed r) (outcomes r) (discoveries r) (effects r).

(** An effect is recorded and raises if its outcome says so. *)
Definition attempt (eff : effect) : G unit :=
  fun r =>
    let r' := Reg (globals r) (constructed r) (tl (outcomes r)) (discoveries r)
                (effects r ++ [eff]) in
    match outcomes r with
    | Some e :: _ => (inl e, r')
    | _ => (inr tt, r')
    end.

(** Reading and assigning a global. *)
Definition read (global : string) : G (option agent) :=
  fun r => (inr (globals r !! global), r).

Definition assign (global : string) (a : agent) : G unit :=
  fun r => (inr tt, with_globals (<[global := a]> (globals r)) r).

(** Calling the constructor of an agent class. *)
Definition construct (class : string) : G agent :=
  attempt (Construct class) ;;;
  fun r =>
    (inr (Agent (constructed r) [] 0 []),
     Reg (globals r) (S (constructed r)) (outcomes r) (discoveries r) (effects r)).

(** A method called on the object a global refers to. *)
Definition method (global : string) (eff : effect) (f : registry -> agent -> agent * registry)
    : G unit :=
  let* target := read global in
  match target with
  | None => raise (OtherException "'NoneType' object has no attribute")
  | Some a =>
      attempt eff ;;;
      fun r => let (a', r') := f r a in
               (inr tt, with_globals (<[global := a']> (globals r')) r')
  end.

(** Modelled from the spec: [initialize] is the discovery step, in which the
    agent enumerates the tools it may invoke and keeps them in
    [available_tools]. *)
Definition initialize (global : string) : G unit :=
  method global (Initialize global)
    (fun r a =>
       (Agent (agent_no a) (default [] (head (discoveries r))) (connects a) (services a),
        Reg (globals r) (constructed r) (outcomes r) (tl (discoveries r)) (effects r))).

(** [mcp_client.connect()]. *)
Definition connect (global : string) : G unit :=
  method global (Connect global)
    (fun r a => (Agent (agent_no a) (available_tools a) (S (connects a)) (services a), r)).

(** [kernel.add_service(AzureChatCompletion(service_id=...))]. *)
Definition add_service (global service_id : string) : G unit :=
  method global (AddService global service_id)
    (fun r a =>
       (Agent (agent_no a) (available_tools a) (connects a) (services a ++ [service_id]), r)).

(** [getattr(agent, "available_tools", None)]. *)
Definition getattr_available_tools (target : option agent) : list string :=
  match target with
  | Some a => available_tools a
  | None => []
  end.

(** Python truth of a list. *)
Definition truthy {A} (l : list A) : bool :=
  match l with
  | [] => false
  | _ :: _ => true
  end.

(** The getters.  A [with lock:] block releases its lock on either exit, so
    that a caller that runs alone always finds it free; the lock is left out
    here and is part of the model of racing callers below. *)

Definition get_assistant : G (option agent) :=
  let* _assistant := read "_assistant" in
  (if _assistant is None then
     let* _assistant := read "_assistant" in
     if _assistant is None then
       let* a := construct "IAMAssistant" in
       assign "_assistant" a
     else ret tt
   else ret tt) ;;;
  read "_assistant".

Definition get_orchestrator_agent : G (option agent) :=
  let* _orchestrator_agent := read "_orchestrator_agent" in
  (if _orchestrator_agent is None then
     let* _orchestrator_agent := read "_orchestrator_agent" in
     if _orchestrator_agent is None then
       let* a := construct "OrchestratorAgentWrapper" in
       assign "_orchestrator_agent" a
     else ret tt
   else ret tt) ;;;
  read "_orchestrator_agent".

Definition get_provisioning_agent : G (option agent) :=
  let* _provisioning_agent := read "_provisioning_agent" in
  (if _provisioning_agent is None then
     let* _provisioning_agent := read "_provisioning_agent" in
     if _provisioning_agent is None then
       let* a := construct "ProvisioningAgent" in
       assign "_provisioning_agent" a
     else ret tt
   else ret tt) ;;;
  read "_provisioning_agent".

Definition get_ad_agent : G (option agent) :=
  let* _ad_agent := read "_ad_agent" in
  (if _ad_agent is None then
     let* _ad_agent := read "_ad_agent" in
     if _ad_agent is None then
       let* a := construct "ADAgentMCP" in
       assign "_ad_agent" a ;;;
       initialize "_ad_agent"
     else ret tt
   else ret tt) ;;;
  read "_ad_agent".

Definition get_entra_agent : G (option agent) :=
  let* _entra_agent := read "_entra_agent" in
  (if _entra_agent is None then
     let* _entra_agent := read "_entra_agent" in
     if _entra_agent is None then
       attempt (Construct "MCPClient") ;;;
       attempt (Construct "Kernel") ;;;
       let* a := construct "EntraIDMCPAgent" in
       assign "_entra_agent" a
     else ret tt
   else ret tt) ;;;
  let* _entra_agent := read "_entra_agent" in
  (if negb (truthy (getattr_available_tools _entra_agent)) then
     connect "_entra_agent" ;;;
     attempt (Construct "AzureChatCompletion") ;;;
     add_service "_entra_agent" "entra_provisioning" ;;;
     initialize "_entra_agent"
   else ret tt) ;;;
  read "_entra_agent".

Definition get_okta_agent : G (option agent) :=
  let* _okta_agent := read "_okta_agent" in
  (if _okta_agent is None then
     let* _okta_agent := read "_okta_agent" in
     if _okta_agent is None then
       let* a := construct "OktaAgentMCP" in
       assign "_okta_agent" a
     else ret tt
   else ret tt) ;;;
  let* _okta_agent := read "_okta_agent" in
  (if negb (truthy (getattr_available_tools _okta_agent)) then
     initialize "_okta_agent"
   else ret tt) ;;;
  read "_okta_agent".

Definition get_saviynt_agent : G (option agent) :=
  let* _saviynt_agent := read "_saviynt_agent" in
  (if _saviynt_agent is None then
     let* _saviynt_agent := read "_saviynt_agent" in
     if _saviynt_agent is None then
       let* a := construct "SaviyntAgentMCP" in
       assign "_saviynt_agent" a
     else ret tt
   else ret tt) ;;;
  let* _saviynt_agent := read "_saviynt_agent" in
  (if negb (truthy (getattr_available_tools _saviynt_agent)) then
     initialize "_saviynt_agent"
   else ret tt) ;;;
  read "_saviynt_agent".

Definition empty_registry (outcomes : list (option exn)) (discoveries : list (list string))
    : registry :=
  Reg ∅ 0 outcomes discoveries [].

(** An agent that has discovered its tools, and a first access on which
    [initialize] fails. *)
Definition discovered_agent : agent := Agent 0 ["create_user"; "list_users"] 1 ["entra_provisioning"].
Definition discovered_registry : registry :=
  Reg {[ "_entra_agent" := discovered_agent ]} 1 [Some (OtherException "unreachable")] [["x"]]
    [Construct "MCPClient"].
Definition unreachable : exn := OtherException "MCP server unreachable".

End Registry.

(** * Thread identifiers made by the service itself *)

Module ThreadIds.

(** The bytes the operating system will hand out, in order. *)
Definition entropy : Type := nat -> byte.

(** [os.urandom(n)]. *)
Definition os_urandom (n : nat) (e : entropy) : list byte * entropy :=
  (map e (seq 0 n), fun i => e (n + i)).

Definition hex_digits : list ascii := list_ascii_of_string "0123456789abcdef".

Definition hex_digit (n : nat) : ascii := nth n hex_digits "0"%char.

(** [bytes.hex()]: two lower-case digits a byte. *)
Definition hex_byte (b : byte) : string :=
  String (hex_digit (Byte.to_nat b / 16)) (String (hex_digit (Byte.to_nat b mod 16)) "").

Fixpoint hex (bs : list byte) : string :=
  match bs with
  | [] => ""
  | b :: rest => hex_byte b +:+ hex rest
  end.

(** [f"{prefix}{os.urandom(4).hex()}"]. *)
Definition client_side_id (prefix : string) (e : entropy) : string * entropy :=
  let (random, e') := os_urandom 4 e in
  (prefix +:+ hex random, e').

(** The thread endpoints that make their identifier themselves.  (The
    on-premises endpoint also hands its identifier to the agent.) *)
Definition create_orchestrator_thread : entropy -> string * entropy := client_side_id "orch-".
Definition create_entra_agent_thread : entropy -> string * entropy := client_side_id "entra-agent-".
Definition create_ad_thread : entropy -> string * entropy := client_side_id "ad-".
Definition create_okta_agent_thread : entropy -> string * entropy := client_side_id "okta-agent-".
Definition create_saviynt_agent_thread : entropy -> string * entropy :=
  client_side_id "saviynt-agent-".

(** The identifiers of [n] creations in a row. *)
Fixpoint create_threads (create : entropy -> string * entropy) (n : nat) (e : entropy)
    : list string :=
  match n with
  | 0 => []
  | S n' => let (id, e') := create e in id :: create_threads create n' e'
  end.

(** The four bytes drawn by creation number [i]. *)
Definition drawn (e : entropy) (i : nat) : list byte := map e (seq (4 * i) 4).

Definition stuck_entropy : entropy := fun _ => x00.

(** Bytes that count up: every creation draws other bytes. *)
Definition counting_entropy : entropy := fun i => default x00 (Byte.of_nat i).

(** The prefixes of the five endpoints that make their identifier
    themselves. *)
Definition prefixes : list string :=
  ["orch-"; "entra-agent-"; "ad-"; "okta-agent-"; "saviynt-agent-"].

End ThreadIds.

(** * Callers racing for the first access *)

Module Race.

(** The getters come in three shapes: the constructor alone under the lock
    ([get_assistant], [get_orchestrator_agent], [get_provisioning_agent],
    [get_dashboard_plugin]); the constructor and [initialize] under the lock
    ([get_ad_agent]); the constructor under the lock and, past the lock and
    while [available_tools] is empty, a number of calls that end with
    [initialize] (one call in [get_okta_agent] and [get_saviynt_agent];
    [connect], [add_service] and [initialize] in [get_entra_agent]). *)
Inductive getter : Type :=
| ConstructorOnly
| InitializeUnderLock
| DiscoverAfterwards (calls : nat).

(** Where a caller of the getter stands. *)
Inductive pc : Type :=
| Check                         (* if _agent is None: *)
| Acquire                       (* with _agent_lock: *)
| Recheck                       (* if _agent is None: *)
| Construct                     (* the constructor runs *)
| Store (instance : nat)        (* _agent = ... *)
| InitializeLocked              (* await _agent.initialize(), lock held *)
| Release                       (* the with block ends *)
| Unwind (e : exn)              (* an exception leaves the with block *)
| CheckTools                    (* if not getattr(_agent, "available_tools", None): *)
| Discover (calls : nat)        (* the calls of the discovery still to make *)
| Return                        (* return _agent *)
| Returned (value : option nat)
| Raised (e : exn).

(** The global, the caller that holds the lock, the number of constructor
    calls that returned (an instance is named by the number of instances
    made before it), the tools of the stored agent, for each coming call of
    a constructor or of a method of the agent whether it raises, for each
    coming discovery the tools it finds, and the callers. *)
Record config : Type := Config {
  slot : option nat;
  lock : option nat;
  instances : nat;
  tools : list string;
  outcomes : list (option exn);
  discoveries : list (list string);
  callers : list pc
}.

(** Where a caller goes when it is past the first [if]. *)
Definition past_lock (g : getter) : pc :=
  match g with
  | DiscoverAfterwards _ => CheckTools
  | _ => Return
  end.

Definition goto (t : nat) (p : pc) (c : config) : config :=
  Config (slot c) (lock c) (instances c) (tools c) (outcomes c) (discoveries c)
    (<[t := p]> (callers c)).

(** A call of a constructor or of a method: its outcome is consumed. *)
Definition called (c : config) : config :=
  Config (slot c) (lock c) (instances c) (tools c) (tl (outcomes c)) (discoveries c)
    (callers c).

(** [initialize] has found its tools. *)
Definition discovered (c : config) : config :=
  Config (slot c) (lock c) (instances c) (default [] (head (discoveries c))) (outcomes c)
    (tl (discoveries c)) (callers c).

(** Caller [t] takes its next step; [None] when it waits for the lock or has
    left the getter. *)
Definition step (g : getter) (t : nat) (c : config) : option config :=
  match callers c !! t with
  | Some Check =>
      Some (goto t (if slot c is None then Acquire else past_lock g) c)
  | Some Acquire =>
      match lock c with
      | None =>
          Some (Config (slot c) (Some t) (instances c) (tools c) (outcomes c) (discoveries c)
                  (<[t := Recheck]> (callers c)))
      | Some _ => None
      end
  | Some Recheck =>
      Some (goto t (if slot c is None then Construct else Release) c)
  | Some Construct =>
      match outcomes c with
      | Some e :: _ => Some (goto t (Unwind e) (called c))
      | _ =>
          Some (Config (slot c) (lock c) (S (instances c)) (tools c) (tl (outcomes c))
                  (discoveries c) (<[t := Store (instances c)]> (callers c)))
      end
  | Some (Store instance) =>
      Some (Config (Some instance) (lock c) (instances c) (tools c) (outcomes c)
              (discoveries c)
              (<[t := if g is InitializeUnderLock then InitializeLocked else Release]>
                 (callers c)))
  | Some InitializeLocked =>
      match outcomes c with
      | Some e :: _ => Some (goto t (Unwind e) (called c))
      | _ => Some (goto t Release (discovered (called c)))
      end
  | Some Release =>
      Some (Config (slot c) None (instances c) (tools c) (outcomes c) (discoveries c)
              (<[t := past_lock g]> (callers c)))
  | Some (Unwind e) =>
      Some (Config (slot c) None (instances c) (tools c) (outcomes c) (discoveries c)
              (<[t := Raised e]> (callers c)))
  | Some CheckTools =>
      match tools c, g with
      | [], DiscoverAfterwards calls => Some (goto t (Discover calls) c)
      | _, _ => Some (goto t Return c)
      end
  | Some (Discover calls) =>
      match outcomes c with
      | Some e :: _ => Some (goto t (Raised e) (called c))
      | _ =>
          match calls with
          | S (S calls') => Some (goto t (Discover (S calls')) (called c))
          | _ => Some (goto t Return (discovered (called c)))
          end
      end
  | Some Return =>
      Some (goto t (Returned (slot c)) c)
  | Some (Returned _) | Some (Raised _) | None => None
  end.

(** The callers run as the schedule says, one step at a time; a caller that
    cannot step when its turn comes lets the turn pass. *)
Definition run (g : getter) (schedule : list nat) (c : config) : config :=
  foldl (fun c t => default c (step g t c)) c schedule.

(** [n] callers arrive while the global is still [None]. *)
Definition start (n : nat) (outcomes : list (option exn)) (discoveries : list (list string))
    : config :=
  Config None None 0 [] outcomes discoveries (replicate n Check).

Definition finished (p : pc) : bool :=
  match p with
  | Returned _ | Raised _ => true
  | _ => false
  end.

(** The statements of a caller inside the [with] block. *)
Definition in_with (p : pc) : bool :=
  match p with
  | Recheck | Construct | Store _ | InitializeLocked | Release | Unwind _ => true
  | _ => false
  end.

(** The steps a caller still has to take, at most. *)
Definition weight (g : getter) (p : pc) : nat :=
  let calls := if g is DiscoverAfterwards calls then calls else 0 in
  match p with
  | Check => calls + 10
  | Acquire => calls + 9
  | Recheck => calls + 8
  | Construct => calls + 7
  | Store _ => calls + 6
  | InitializeLocked => calls + 5
  | Release => calls + 4
  | CheckTools => calls + 3
  | Discover remaining => remaining + 2
  | Unwind _ => 1
  | Return => 1
  | Returned _ | Raised _ => 0
  end.

Definition remaining (g : getter) (c : config) : nat := sum_list (weight g <$> callers c).

(** The global and the count of instances agree. *)
Definition agree (c : config) : Prop :=
  (slot c = None /\ instances c = 0) \/ (slot c = Some 0 /\ instances c = 1).

(** The invariant of the race: only the holder of the lock is inside the
    [with] block; the global and the count agree, up to what the holder has
    done so far; a caller past the block has seen the first instance. *)
Definition inv (c : config) : Prop :=
  (forall t p, callers c !! t = Some p -> in_with p = true -> lock c = Some t) /\
  match lock c with
  | None => agree c
  | Some t =>
      exists p, callers c !! t = Some p /\
        match p with
        | Recheck | Unwind _ => agree c
        | Construct => slot c = None /\ instances c = 0
        | Store instance => instance = 0 /\ slot c = None /\ instances c = 1
        | InitializeLocked | Release => slot c = Some 0 /\ instances c = 1
        | _ => False
        end
  end /\
  (forall t p, callers c !! t = Some p ->
     match p with
     | CheckTools | Discover _ | Return => slot c = Some 0
     | Returned value => value = Some 0 /\ slot c = Some 0
     | _ => True
     end).

(** No call raises, and none has. *)
Definition quiet (c : config) : Prop :=
  Forall (eq None) (outcomes c) /\
  (forall t p, callers c !! t = Some p ->
     match p with
     | Unwind _ | Raised _ => False
     | _ => True
     end).

(** Three callers taking turns. *)
Definition round_robin (rounds : nat) : list nat := mjoin (replicate rounds [0; 1; 2]).

(** Two callers: the first runs to its end, then the second. *)
Definition first_then_second : list nat := [0; 0; 0; 0; 0; 1; 1; 1; 1; 1; 1; 1].

(** The [RuntimeError] of the constructor of the assistant. *)
Definition missing_connection : exn :=
  OtherException "No Cognitive Search connection found for IAM documents.".

End Race.

(** * The blocks the getters are made of *)

Module Getters.
Import Registry.

(** The double-checked construction: [build] runs when the global is [None]
    at both tests. *)
Definition under_lock (name : string) (build : G unit) : G unit :=
  let* found := read name in
  if found is None then
    let* found := read name in
    if found is None then build else ret tt
  else ret tt.

(** The end of a getter that discovers past the lock: [work] runs while
    [available_tools] is empty. *)
Definition unless_discovered (name : string) (work : G unit) : G (option agent) :=
  let* found := read name in
  (if negb (truthy (getattr_available_tools found)) then work else ret tt) ;;;
  read name.

(** [_agent = Class()]. *)
Definition build (name class : string) : G unit :=
  let* a := construct class in
  assign name a.

(** The getters by the global they guard. *)
Definition getters : list (string * G (option agent)) :=
  [("_assistant", get_assistant);
   ("_orchestrator_agent", get_orchestrator_agent);
   ("_provisioning_agent", get_provisioning_agent);
   ("_ad_agent", get_ad_agent);
   ("_entra_agent", get_entra_agent);
   ("_okta_agent", get_okta_agent);
   ("_saviynt_agent", get_saviynt_agent)].

(** Those that do all their work under the lock, those that construct and
    do nothing else, and those that discover past the lock with
    [initialize] alone. *)
Definition locked_getters : list (string * G (option agent)) := take 4 getters.
Definition plain_getters : list (string * G (option agent)) := take 3 getters.
Definition discovering_getters : list (string * G (option agent)) := drop 5 getters.

(** What [get_entra_agent] does past the lock. *)
Definition entra_discovery : list effect :=
  [Connect "_entra_agent"; Construct "AzureChatCompletion";
   AddService "_entra_agent" "entra_provisioning"; Initialize "_entra_agent"].

(** [r'] differs from [r] in the global [name] at most. *)
Definition frame (name : string) (r r' : registry) : Prop :=
  forall other, other <> name -> globals r' !! other = globals r !! other.

(** The agent that [name] holds in [r], if any, is the object [name] holds
    in [r'], and no agent was constructed in between. *)
Definition keeps (name : string) (r r' : registry) : Prop :=
  forall a, globals r !! name = Some a ->
    constructed r' = constructed r /\
    exists a', globals r' !! name = Some a' /\ agent_no a' = agent_no a.

Definition framed {A} (name : string) (m : G A) : Prop := forall r, frame name r (m r).2.
Definition keeping {A} (name : string) (m : G A) : Prop := forall r, keeps name r (m r).2.

(** When [m] returns, the global [name] holds an agent. *)
Definition storing {A} (name : string) (m : G A) : Prop :=
  forall r x r', m r = (inr x, r') -> is_Some (globals r' !! name).

(** What a method does to the object: it stays the same object, and the
    globals and the count of constructions stay as they are. *)
Definition gentle (f : registry -> agent -> agent * registry) : Prop :=
  forall r a, globals (f r a).2 = globals r /\ constructed (f r a).2 = constructed r /\
              agent_no (f r a).1 = agent_no a.

(** Agents that are stored and have found no tools. *)
Definition undiscovered_registry : registry :=
  Reg {[ "_okta_agent" := Agent 0 [] 0 []; "_entra_agent" := Agent 1 [] 0 [] ]} 2 [] [] [].

(** The module state after [n] calls of a getter in a row. *)
Fixpoint again {A} (n : nat) (get : G A) (r : registry) : registry :=
  match n with
  | 0 => r
  | S n' => again n' get (get r).2
  end.

(** The constructors each getter calls under its lock, in the order in
    which it calls them. *)
Definition constructors : list (string * G (option agent) * list string) :=
  [("_assistant", get_assistant, ["IAMAssistant"]);
   ("_orchestrator_agent", get_orchestrator_agent, ["OrchestratorAgentWrapper"]);
   ("_provisioning_agent", get_provisioning_agent, ["ProvisioningAgent"]);
   ("_ad_agent", get_ad_agent, ["ADAgentMCP"]);
   ("_entra_agent", get_entra_agent, ["MCPClient"; "Kernel"; "EntraIDMCPAgent"]);
   ("_okta_agent", get_okta_agent, ["OktaAgentMCP"]);
   ("_saviynt_agent", get_saviynt_agent, ["SaviyntAgentMCP"])].

(** The effects recorded in [r] are the first of those recorded in [r']. *)
Definition grows (r r' : registry) : Prop := exists more, effects r' = effects r ++ more.
Definition growing {A} (m : G A) : Prop := forall r, grows r (m r).2.

(** The first thing [m] does is [eff]. *)
Definition starts {A} (eff : effect) (m : G A) : Prop :=
  forall r, exists more, effects (m r).2 = effects r ++ eff :: more.

End Getters.

(** * The whole handler of /ad/chat

    [ad_provisioning_chat] from its first line: the agent comes from
    [get_ad_agent], the history from its [get_thread_history], and every
    exception of the body, theirs included, leaves as the same 500 error.
    The class of the agent is not part of the sources: whether
    [get_thread_history] raises is a parameter, and when it returns it hands
    out the history the agent keeps for the thread, which it creates when
    missing, as the comment at the call says.  The two lines before the
    getter read the name of the user from the token for the log. *)
Module ADEndpoint.

(** [HTTPException(status_code=..., detail=...)]. *)
Record HTTPException : Type := { status_code : nat; detail : string }.

(** The module globals and the histories the on-premises agent keeps. *)
Record server : Type := Server {
  registry_of : Registry.registry;
  histories_of : gmap string (list message)
}.

(** The [except] clause. *)
Definition chat_failed (e : exn) : HTTPException :=
  {| status_code := 500; detail := "AD provisioning chat failed: " +:+ str e |}.

Section Handler.
Variable get_thread_history_raises : string -> gmap string (list message) -> option exn.
Variable _process_user_request :
  string -> list message -> (exn + string) * list message.

(** [ad_agent.get_thread_history(thread_id)]. *)
Definition get_thread_history (thread_id : string) (histories : gmap string (list message))
    : (exn + list message) * gmap string (list message) :=
  match get_thread_history_raises thread_id histories with
  | Some e => (inl e, histories)
  | None =>
      let chat_history := default [] (histories !! thread_id) in
      (inr chat_history, <[thread_id := chat_history]> histories)
  end.

(** The handler.  An exception of [get_ad_agent] or of
    [get_thread_history] reaches the [except] clause before anything is
    appended; what is appended to the history object stays in it when
    [_process_user_request] raises. *)
Definition ad_provisioning_chat (thread_id req_message : string) (s : server)
    : (HTTPException + ADProvisioningResponse) * server :=
  match Registry.get_ad_agent (registry_of s) with
  | (inl e, r) => (inl (chat_failed e), Server r (histories_of s))
  | (inr None, r) =>
      (inl (chat_failed
              (OtherException "'NoneType' object has no attribute 'get_thread_history'")),
       Server r (histories_of s))
  | (inr (Some ad_agent), r) =>
      match get_thread_history thread_id (histories_of s) with
      | (inl e, histories) => (inl (chat_failed e), Server r histories)
      | (inr chat_history, histories) =>
          let chat_history := add_message User req_message chat_history in
          match _process_user_request req_message chat_history with
          | (inr response, chat_history) =>
              let chat_history := add_message Assistant response chat_history in
              (inr {| action := "ad_provision"; result := response; agent := "AD_MCP_Agent" |},
               Server r (<[thread_id := chat_history]> histories))
          | (inl e, chat_history) =>
              (inl (chat_failed e), Server r (<[thread_id := chat_history]> histories))
          end
      end
  end.

End Handler.

(** A server whose agent is yet to be constructed and cannot be. *)
Definition demo_histories : gmap string (list message) :=
  {[ "ad-00000000" := [Message User "hello"; Message Assistant "hi"] ]}.
Definition cold_server : server :=
  Server (Registry.empty_registry [Some Registry.unreachable] []) demo_histories.

End ADEndpoint.

(** * Token verification *)

Module Auth.

(** The exceptions [get_jwk] and [verify_token] raise or catch, by the class
    their handlers test. *)
Inductive error : Type :=
| HTTPException (status_code : nat) (detail : string)
| RequestException (msg : string)
| ExpiredSignatureError (msg : string)
| InvalidTokenError (msg : string)
| KeyError (key : string)
| OtherError (msg : string).

(** [d[k]] on a dictionary. *)
Definition getitem {V} (d : gmap string V) (k : string) : error + V :=
  match d !! k with
  | Some v => inr v
  | None => inl (KeyError k)
  end.

(** A response of [requests.get]: whether [raise_for_status] raises, and
    what [json()] gives. *)
Record response (J : Type) : Type := Response {
  raise_for_status : option error;
  json : error + J
}.
Arguments Response {J}.
Arguments raise_for_status {J}.
Arguments json {J}.

Section Verification.
(** What the token carries, as [jwt.decode] returns it. *)
Variable Payload : Type.
(** [str(e)] and [f"{e}"], as the exception classes print themselves. *)
Variable str : error -> string.
(** [requests.get(OPENID_CONFIG_URL)] and [requests.get(jwks_uri)]: the
    documents are JSON objects, the first with text values, the second with
    lists of keys. *)
Variable get_openid_config : error + response (gmap string string).
Variable get_jwks : string -> error + response (gmap string (list (gmap string string))).
(** [jwt.get_unverified_header] and [jwt.decode]. *)
Variable get_unverified_header : string -> error + option (gmap string string).
Variable decode : string -> gmap string string -> error + Payload.

Definition get_jwk : error + list (gmap string string) :=
  let attempt :=
    match get_openid_config with
    | inl e => inl e
    | inr response =>
        match raise_for_status response with
        | Some e => inl e
        | None =>
            match json response with
            | inl e => inl e
            | inr openid_config =>
                match getitem openid_config "jwks_uri" with
                | inl e => inl e
                | inr jwks_uri =>
                    match get_jwks jwks_uri with
                    | inl e => inl e
                    | inr response2 =>
                        match json response2 with
                        | inl e => inl e
                        | inr jwks => getitem jwks "keys"
                        end
                    end
                end
            end
        end
    end in
  match attempt with
  | inl (RequestException msg) =>
      inl (HTTPException 500 ("Error fetching public keys: " +:+ str (RequestException msg)))
  | other => other
  end.

(** The dictionary literal built from the key that matches. *)
Definition rsa_key_of (key : gmap string string) : error + gmap string string :=
  match getitem key "kty" with
  | inl e => inl e
  | inr kty =>
  match getitem key "kid" with
  | inl e => inl e
  | inr kid =>
  match getitem key "use" with
  | inl e => inl e
  | inr use =>
  match getitem key "n" with
  | inl e => inl e
  | inr n =>
  match getitem key "e" with
  | inl e => inl e
  | inr e =>
      inr (<["kty" := kty]> (<["kid" := kid]> (<["use" := use]> (<["n" := n]>
             (<["e" := e]> ∅)))))
  end end end end end.

(** The loop over the keys, with its [break]. *)
Fixpoint find_rsa_key (kid : string) (keys : list (gmap string string))
    : error + gmap string string :=
  match keys with
  | [] => inr ∅
  | key :: rest =>
      match getitem key "kid" with
      | inl e => inl e
      | inr k => if decide (k = kid) then rsa_key_of key else find_rsa_key kid rest
      end
  end.

(** The [try] block of [verify_token]. *)
Definition verify_token_try (token : string) : error + Payload :=
  if decide (token = "") then inl (HTTPException 401 "Token is missing") else
  match get_unverified_header token with
  | inl e => inl e
  | inr None => inl (HTTPException 401 "Invalid token header")
  | inr (Some unverified_header) =>
      match getitem unverified_header "kid" with
      | inl e => inl e
      | inr kid =>
          match get_jwk with
          | inl e => inl e
          | inr keys =>
              match find_rsa_key kid keys with
              | inl e => inl e
              | inr rsa_key =>
                  if decide (rsa_key = ∅)
                  then inl (HTTPException 401 "Unable to find appropriate key")
                  else decode token rsa_key
              end
          end
      end
  end.

Definition verify_token (token : string) : error + Payload :=
  match verify_token_try token with
  | inr payload => inr payload
  | inl (ExpiredSignatureError _) => inl (HTTPException 401 "Token has expired")
  | inl (InvalidTokenError msg) =>
      inl (HTTPException 401 ("Invalid token: " +:+ str (InvalidTokenError msg)))
  | inl e => inl (HTTPException 401 ("Token verification failed: " +:+ str e))
  end.

End Verification.

(** A key set with two keys, a header naming the second, and collaborators
    that serve them. *)
Definition demo_str (e : error) : string :=
  match e with
  | HTTPException _ detail => detail
  | KeyError key => key
  | RequestException msg | ExpiredSignatureError msg | InvalidTokenError msg
  | OtherError msg => msg
  end.
Definition demo_key (kid n : string) : gmap string string :=
  <["kty" := "RSA"]> (<["kid" := kid]> (<["use" := "sig"]> (<["n" := n]>
    (<["e" := "AQAB"]> (<["x5t" := kid]> ∅))))).
Definition demo_keys : list (gmap string string) :=
  [demo_key "k1" "n1"; demo_key "k2" "n2"].
Definition demo_openid_config : error + response (gmap string string) :=
  inr (Response None (inr (<["jwks_uri" := "https://keys"]> ∅))).
Definition demo_jwks (uri : string)
    : error + response (gmap string (list (gmap string string))) :=
  if decide (uri = "https://keys")
  then inr (Response None (inr (<["keys" := demo_keys]> ∅)))
  else inl (RequestException "no route").
Definition demo_header (token : string) : error + option (gmap string string) :=
  if decide (token = "good") then inr (Some (<["kid" := "k2"]> ∅))
  else if decide (token = "stale") then inr (Some (<["kid" := "k9"]> ∅))
  else inl (InvalidTokenError "Not enough segments").
Definition demo_decode (token : string) (rsa_key : gmap string string)
    : error + string :=
  match rsa_key !! "n" with
  | Some n => inr (token +:+ "/" +:+ n)
  | None => inl (InvalidTokenError "no modulus")
  end.

End Auth.

(** * The constructor of IAMAssistant *)

Module Construction.

(** A connection of the project, as far as [__init__] reads it. *)
Record connection : Type := Connection { id : string; connection_type : string }.

(** [next((conn.id for conn in conn_list
           if conn.connection_type == "CognitiveSearch"), None)]. *)
Fixpoint next_conn_id (conn_list : list connection) : option string :=
  match conn_list with
  | [] => None
  | conn :: rest =>
      if decide (connection_type conn = "CognitiveSearch") then Some (id conn)
      else next_conn_id rest
  end.

(** [AzureAISearchTool(index_connection_id=..., index_name=...)] and the
    arguments of [create_agent]. *)
Record AzureAISearchTool : Type := { index_connection_id : string; index_name : string }.

Record agent_definition : Type := {
  model : string;
  name : string;
  agent_instructions : string;
  tools : AzureAISearchTool
}.

Definition no_connection : exn :=
  OtherException "No Cognitive Search connection found for IAM documents.".

(** [IAMAssistant.__init__]: [conn_list] is what [connections.list()]
    returns or raises, [create_agent] the service's answer with the
    identifier of the new agent. *)
Definition __init__ (conn_list : exn + list connection)
    (create_agent : agent_definition -> exn + string) : exn + IAMAssistant :=
  match conn_list with
  | inl e => inl e
  | inr conn_list =>
      match next_conn_id conn_list with
      | None => inl no_connection
      | Some conn_id =>
          if decide (conn_id = "") then inl no_connection
          else
            let ai_search :=
              {| index_connection_id := conn_id; index_name := "end-user-rag" |} in
            match create_agent {| model := "gpt-4.1-nano"; name := "IAM Assistant";
                                  agent_instructions := instructions;
                                  tools := ai_search |} with
            | inl e => inl e
            | inr agent_id => inr {| iam_agent_id := agent_id |}
            end
      end
  end.

(** No connection before this one is a search connection. *)
Definition first_search_connection (conn_list : list connection) (conn : connection) : Prop :=
  exists pre post,
    conn_list = pre ++ conn :: post /\
    Forall (fun other => connection_type other <> "CognitiveSearch") pre /\
    connection_type conn = "CognitiveSearch".

(** Example inputs: a project whose first search connection has no
    identifier, and a service that creates any agent. *)
Definition demo_connections : list connection :=
  [Connection "conn-openai" "AzureOpenAI"; Connection "" "CognitiveSearch";
   Connection "conn-search" "CognitiveSearch"].
Definition demo_create_agent (definition : agent_definition) : exn + string :=
  inr ("asst_" +:+ index_connection_id (tools definition)).

End Construction.

(** * The cache of the dashboard endpoint *)

Module Dashboard.
Section Cache.
(** The encoded dashboard, and the readings of [time.time()] with the test
    [(now - _dashboard_cache_ts) < _DASHBOARD_TTL_SECONDS]. *)
Variable Data : Type.
Variable Time : Type.
Variable within_ttl : Time -> Time -> bool.

(** The two globals of the cache, and the number of times the dashboard has
    been built. *)
Record cache : Type := Cache {
  _dashboard_cache : option Data;
  _dashboard_cache_ts : Time;
  builds : nat
}.

(** A request: its [refresh] parameter, the clock when the cache is tested
    and when it is written, and what building the dashboard gives now
    ([get_dashboard_plugin], [build_iam_dashboard], [jsonable_encoder]). *)
Record request : Type := Request {
  refresh : option Z;
  now_tested : Time;
  now_written : Time;
  built : exn + Data
}.

(** [bool(refresh)]. *)
Definition truth (refresh : option Z) : bool :=
  match refresh with
  | Some n => negb (n =? 0)%Z
  | None => false
  end.

Definition get_iam_dashboard_summary (req : request) (c : cache) : (exn + Data) * cache :=
  let use_cache := negb (truth (refresh req)) in
  let served :=
    if use_cache then
      match _dashboard_cache c with
      | Some data =>
          if within_ttl (now_tested req) (_dashboard_cache_ts c) then Some data else None
      | None => None
      end
    else None in
  match served with
  | Some data => (inr data, c)
  | None =>
      match built req with
      | inr data => (inr data, Cache (Some data) (now_written req) (S (builds c)))
      | inl e =>
          (inl (OtherException ("Failed to build IAM dashboard: " +:+ str e)),
           Cache (_dashboard_cache c) (_dashboard_cache_ts c) (S (builds c)))
      end
  end.

(** The answers to requests in a row. *)
Fixpoint serve (reqs : list request) (c : cache) : list (exn + Data) * cache :=
  match reqs with
  | [] => ([], c)
  | req :: rest =>
      let (answer, c') := get_iam_dashboard_summary req c in
      let (answers, c'') := serve rest c' in
      (answer :: answers, c'')
  end.

End Cache.

Arguments Cache {Data Time}.
Arguments _dashboard_cache {Data Time}.
Arguments _dashboard_cache_ts {Data Time}.
Arguments builds {Data Time}.
Arguments Request {Data Time}.
Arguments refresh {Data Time}.
Arguments now_tested {Data Time}.
Arguments now_written {Data Time}.
Arguments built {Data Time}.
Arguments get_iam_dashboard_summary {Data Time}.
Arguments serve {Data Time}.

(** Example inputs: seconds as numbers, fifteen minutes to live. *)
Definition demo_within_ttl (now ts : nat) : bool := bool_decide (now - ts < 900)%nat.

End Dashboard.

(** * The agents that keep no history: client and endpoint *)

Module Stateless.

(** What [st.session_state], a dictionary, holds under a key, and what a
    request carries: a text, a truth value, a dictionary of texts, a tuple
    of texts or a list. *)
#[warnings="-register-all"]
Inductive value : Type :=
| Text (s : string)
| Flag (b : bool)
| Dict (d : gmap string string)
| Tuple (items : list string)
| List (items : list value).

(** ** The endpoint (agent_service.py) *)

(** The request model declares [chat_history: List[Dict[str, str]]]: a
    request whose history is anything else is turned down before the
    endpoint runs. *)
Definition as_dict (v : value) : option (gmap string string) :=
  match v with
  | Dict d => Some d
  | _ => None
  end.

Definition as_chat_history (v : value) : option (list (gmap string string)) :=
  match v with
  | List items => mapM as_dict items
  | _ => None
  end.

(** The loop that fills [sk_history] in [entra_agent_chat],
    [okta_agent_chat] and [saviynt_agent_chat]. *)
Definition to_sk_history (chat_history : list (gmap string string)) : list message :=
  map (fun msg =>
         Message (if decide (msg !! "role" = Some "user") then User else Assistant)
                 (default "" (msg !! "content")))
      chat_history.

(** ** The client (app.py) *)

(** The body of a chat request. *)
Record payload : Type := Payload {
  req_thread_id : option value;
  req_message : string;
  req_chat_history : value
}.

(** How [requests.post], [raise_for_status] and [json] end: with the
    object of the response, with a [RequestException], or with another
    exception; the texts are [str(e)]. *)
Inductive reply : Type :=
| Replied (response_data : gmap string string)
| RequestFailed (text : string)
| Failed (text : string).

(** The session and the requests sent so far, with their paths. *)
Record browser : Type := Browser {
  session : gmap string value;
  posted : list (string * payload)
}.

(** The client functions read and write the session and may raise. *)
Definition B (A : Type) : Type := browser -> (exn + A) * browser.

Definition with_session (s : gmap string value) (b : browser) : browser :=
  Browser s (posted b).

(** [st.session_state.get(key)] and [st.session_state[key]], which raises
    a [KeyError] that prints the key between quotes. *)
Definition get (key : string) : B (option value) :=
  fun b => (inr (session b !! key), b).

Definition getitem (key : string) : B value :=
  fun b =>
    match session b !! key with
    | Some v => (inr v, b)
    | None => (inl (OtherException ("'" +:+ key +:+ "'")), b)
    end.

(** [type(v).__name__]. *)
Definition type_name (v : value) : string :=
  match v with
  | Text _ => "str"
  | Flag _ => "bool"
  | Dict _ => "dict"
  | Tuple _ => "tuple"
  | List _ => "list"
  end.

(** [st.session_state.setdefault(key, [])] and [.append(item)] on what the
    key holds then: only a list can be appended to. *)
Definition append_to (key : string) (item : value) : B unit :=
  fun b =>
    match session b !! key with
    | None => (inr tt, with_session (<[key := List [item]]> (session b)) b)
    | Some (List items) =>
        (inr tt, with_session (<[key := List (items ++ [item])]> (session b)) b)
    | Some v =>
        (inl (OtherException ("'" +:+ type_name v +:+ "' object has no attribute 'append'")),
         b)
    end.

(** [{"role": role, "content": content}]. *)
Definition entry (role content : string) : value :=
  Dict (<["role" := role]> (<["content" := content]> ∅)).

(** The texts in which the three query functions differ, with the name of
    the page in the navigation. *)
Record agent_page : Type := AgentPage {
  name : string;
  path : string;
  thread_key : string;
  transcript_key : string;
  history_key : string;
  default_action : string;
  failed_text : string
}.

Definition entra_page : agent_page :=
  AgentPage "entra_id_assistant" "/entra/agent/chat" "entra_agent_thread_id" "entra_chat_history"
    "entra_agent_history" "none" "Failed to execute command: ".
Definition okta_page : agent_page :=
  AgentPage "okta_agent_assistant" "/okta/agent/chat" "okta_agent_thread_id" "okta_chat_history"
    "okta_agent_history" "okta_provision" "Failed to execute Okta command: ".
Definition saviynt_page : agent_page :=
  AgentPage "saviynt_agent_assistant" "/saviynt/agent/chat" "saviynt_agent_thread_id"
    "saviynt_chat_history"
    "saviynt_agent_history" "saviynt_provision" "Failed to execute Saviynt command: ".

(** [action] and [result] after the [try] statement. *)
Definition outcome (page : agent_page) (r : reply) : string * string :=
  match r with
  | Replied response_data =>
      (default (default_action page) (response_data !! "action"),
       default "No response received" (response_data !! "result"))
  | RequestFailed text => ("error", failed_text page +:+ text)
  | Failed text => ("error", "Unexpected error: " +:+ text)
  end.

Section Query.
(** The service as the client meets it. *)
Variable post : string -> payload -> reply.

(** [requests.post(url, json=payload, ...)] with what follows it in the
    [try] statement. *)
Definition requests_post (url : string) (request : payload) : B reply :=
  fun b => (inr (post url request), Browser (session b) (posted b ++ [(url, request)])).

(** [execute_entra_query], [execute_okta_query] and
    [execute_saviynt_query]. *)
Definition execute_query (page : agent_page) (user_input : string) : B unit :=
  let* prior := get (history_key page) in
  let prior := default (List []) prior in
  getitem "access_token" ;;;
  let* thread_id := get (thread_key page) in
  let request := Payload thread_id user_input prior in
  let* r := requests_post (path page) request in
  let (action, result) := outcome page r in
  append_to (transcript_key page) (Tuple [user_input; result; action]) ;;;
  append_to (history_key page) (entry "user" user_input) ;;;
  append_to (history_key page) (entry "assistant" result).

Definition execute_entra_query : string -> B unit := execute_query entra_page.
Definition execute_okta_query : string -> B unit := execute_query okta_page.
Definition execute_saviynt_query : string -> B unit := execute_query saviynt_page.

End Query.

(** What the endpoint makes of the history the session holds for a page. *)
Definition recorded (page : agent_page) (s : gmap string value) : option (list message) :=
  to_sk_history <$> as_chat_history (default (List []) (s !! history_key page)).

(** ** Leaving and entering pages (app.py) *)

(** [del st.session_state[k]] for the keys that are there. *)
Definition clear (keys : list string) (s : gmap string value) : gmap string value :=
  foldl (fun s k => delete k s) s keys.

Definition _clear_main_chat_state : gmap string value -> gmap string value :=
  clear ["chat_history"; "chat_input_value"; "last_user_input"; "original_prompt_value";
         "chat_text_input"].

Definition _clear_orchestrator_chat_state : gmap string value -> gmap string value :=
  clear ["orchestrator_chat_history"; "orch_chat_input_value"; "orch_original_prompt_value";
         "orch_chat_text_input"; "orch_prefill_submit"].

Definition _clear_entra_chat_state : gmap string value -> gmap string value :=
  clear ["entra_chat_history"; "entra_chat_input_value"; "entra_last_user_input";
         "entra_original_prompt_value"; "entra_chat_text_input"; "entra_agent_history"].

Definition _clear_ad_chat_state : gmap string value -> gmap string value :=
  clear ["ad_chat_history"; "ad_chat_input_value"; "ad_last_user_input";
         "ad_original_prompt_value"; "ad_chat_text_input"].

Definition _clear_okta_chat_state : gmap string value -> gmap string value :=
  clear ["okta_chat_history"; "okta_chat_input_value"; "okta_last_user_input";
         "okta_original_prompt_value"; "okta_chat_text_input"; "okta_agent_history"].

Definition _clear_saviynt_chat_state : gmap string value -> gmap string value :=
  clear ["saviynt_chat_history"; "saviynt_chat_input_value"; "saviynt_last_user_input";
         "saviynt_original_prompt_value"; "saviynt_chat_text_input";
         "saviynt_agent_history"; "saviynt_prefill_submit"].

(** [last == active_page], for a string [active_page]. *)
Definition is_text (v : option value) (s : string) : bool :=
  match v with
  | Some (Text t) => bool_decide (t = s)
  | _ => false
  end.

Definition handle_page_entry (active_page : string) (s : gmap string value) : gmap string value :=
  let last := s !! "last_active_page" in
  if is_text last active_page then s
  else if decide (active_page = "main_chat") then _clear_main_chat_state s
  else if decide (active_page = "orchestrator_chat") then _clear_orchestrator_chat_state s
  else if decide (active_page = "entra_id_assistant") then _clear_entra_chat_state s
  else if decide (active_page = "active_directory_assistant") then _clear_ad_chat_state s
  else if decide (active_page = "okta_agent_assistant") then _clear_okta_chat_state s
  else if decide (active_page = "saviynt_agent_assistant") then _clear_saviynt_chat_state s
  else s.

(** The routing at the end of the script, for a signed-in user on page
    [active_page]: the page is entered and remembered. *)
Definition enter_page (active_page : string) (s : gmap string value) : gmap string value :=
  <["last_active_page" := Text active_page]> (handle_page_entry active_page s).

(** The page functions [entra_service_page], [okta_service_page] and
    [saviynt_service_page], for a session that has its token and its thread:
    a transcript and a history that are missing are created empty. *)
Definition setdefault_list (key : string) (s : gmap string value) : gmap string value :=
  match s !! key with
  | None => <[key := List []]> s
  | Some _ => s
  end.

Definition prepare_page (page : agent_page) (s : gmap string value) : gmap string value :=
  setdefault_list (history_key page) (setdefault_list (transcript_key page) s).

(** The keys the sign-out removes, with [st.session_state.pop(k, None)]. *)
Definition logout_keys : list string :=
  ["authenticated"; "access_token"; "thread_id"; "chat_history"; "user_info";
   "orch_thread_id"; "orchestrator_chat_history"; "active_page"; "selected_prompt";
   "chat_input_value"; "last_input"; "original_prompt_value"; "entra_thread_id";
   "entra_chat_history"; "entra_agent_thread_id"; "entra_agent_history";
   "show_user_input"; "show_group_input"; "show_create_user_form";
   "entra_chat_input_value"; "entra_original_prompt_value"; "ad_thread_id";
   "ad_chat_history"; "ad_chat_input_value"; "ad_original_prompt_value"].

Definition logout : gmap string value -> gmap string value := clear logout_keys.

(** What identifies the user and the threads. *)
Definition identity_keys : list string :=
  ["authenticated"; "access_token"; "user_info"; "active_page"; "last_active_page";
   "thread_id"; "orch_thread_id"; "entra_agent_thread_id"; "ad_thread_id";
   "okta_agent_thread_id"; "saviynt_agent_thread_id"].

(** What the Okta and Saviynt pages keep in the session. *)
Definition okta_saviynt_keys : list string :=
  ["okta_agent_thread_id"; "okta_chat_history"; "okta_agent_history";
   "saviynt_agent_thread_id"; "saviynt_chat_history"; "saviynt_agent_history"].

Definition agent_pages : list agent_page := [entra_page; okta_page; saviynt_page].

(** A key that is absent or holds a list. *)
Definition listable (key : string) (s : gmap string value) : Prop :=
  s !! key = None \/ exists items, s !! key = Some (List items).

(** Example inputs: a user who has asked the Entra agent one question. *)
Definition demo_post (url : string) (p : payload) : reply :=
  if decide (req_message p = "list users")
  then Replied (<["action" := "entra_provision"]> (<["result" := "User A, User B"]> ∅))
  else RequestFailed "500 Server Error".

Definition demo_session : gmap string value :=
  <["access_token" := Text "token"]>
    (<["entra_agent_thread_id" := Text "entra-agent-00000000"]>
       (<["last_active_page" := Text "entra_id_assistant"]> ∅)).

(** The same user after one question, on the way back from another page. *)
Definition returning_session : gmap string value :=
  <["last_active_page" := Text "main_chat"]>
    (<["entra_agent_history" := List [entry "user" "list users";
                                      entry "assistant" "User A, User B"]]>
       (<["okta_agent_history" := List [entry "user" "list apps"]]> demo_session)).

End Stateless.

(** * Properties *)

(** The [try] block is the primary turn and, on a refusal, the retry. *)
Lemma chat_on_thread_try_split self thread_id user_query w :
  chat_on_thread_try self thread_id user_query w =
  (let* response_text := primary_turn self thread_id user_query in
   if is_refusal response_text then retry_turn self thread_id user_query
   else ret response_text) w.
Proof.
  unfold chat_on_thread_try, primary_turn, retry_turn, bind.
  destruct (create_message _ _ _ w) as [[e|[]] w1]; [done|].
  destruct (create_and_process_run _ _ w1) as [[e|[]] w2]; [done|].
  destruct (list_messages _ w2) as [[e|ms] w3]; [done|].
  reflexivity.
Qed.

(** ** Substrings *)

Lemma append_nil_l (s : string) : "" +:+ s = s.
Proof. reflexivity. Qed.

Lemma append_cons (a : ascii) (s t : string) : String a s +:+ t = String a (s +:+ t).
Proof. reflexivity. Qed.

Lemma append_nil_r (s : string) : s +:+ "" = s.
Proof. induction s as [|a s IH]; [done|]. by rewrite append_cons, IH. Qed.

Lemma append_length (s t : string) :
  String.length (s +:+ t) = String.length s + String.length t.
Proof. induction s as [|a s IH]; [done|]. rewrite append_cons. simpl. by rewrite IH. Qed.

Lemma prefix_nil (hay : string) : String.prefix "" hay = true.
Proof. by destruct hay. Qed.

Lemma prefix_cons (a b : ascii) (needle hay : string) :
  String.prefix (String a needle) (String b hay) =
  if ascii_dec a b then String.prefix needle hay else false.
Proof. reflexivity. Qed.

Lemma contains_cons (needle : string) (a : ascii) (hay : string) :
  contains needle (String a hay) =
  String.prefix needle (String a hay) || contains needle hay.
Proof. reflexivity. Qed.

Lemma prefix_spec (needle hay : string) :
  String.prefix needle hay = true <-> exists post, hay = needle +:+ post.
Proof.
  revert hay. induction needle as [|a needle IH]; intros hay.
  - rewrite prefix_nil. split; [intros _; by exists hay | done].
  - destruct hay as [|b hay].
    + split; [done | intros [post Hpost]; discriminate].
    + rewrite prefix_cons. destruct (ascii_dec a b) as [->|Hab].
      * rewrite IH. split; intros [post Hpost]; exists post;
          rewrite ?append_cons in *; congruence.
      * split; [done | intros [post Hpost]; rewrite append_cons in Hpost; congruence].
Qed.

Lemma contains_spec (needle hay : string) :
  contains needle hay = true <-> exists pre post, hay = pre +:+ needle +:+ post.
Proof.
  induction hay as [|a hay IH].
  - change (contains needle "") with (String.prefix needle "" || false).
    rewrite orb_false_r, prefix_spec. split.
    + intros [post Hpost]. by exists "", post.
    + intros ([|b pre] & post & Hpost); [by exists post | discriminate].
  - rewrite contains_cons, orb_true_iff, prefix_spec, IH. split.
    + intros [[post Hpost]|(pre & post & Hpost)].
      * by exists "", post.
      * exists (String a pre), post. rewrite append_cons. by rewrite Hpost.
    + intros ([|b pre] & post & Hpost).
      * left. by exists post.
      * right. exists pre, post. rewrite append_cons in Hpost. congruence.
Qed.

Lemma is_refusal_spec (response_text : string) :
  is_refusal response_text = true <->
  (exists pre post, response_text = pre +:+ "I don't know the answer" +:+ post) \/
  (exists pre post, response_text = pre +:+ "The document does not" +:+ post).
Proof. unfold is_refusal. by rewrite orb_true_iff, !contains_spec. Qed.

(** ** What each request of the service does *)

Lemma bind_inr {S A B} (m : S -> (exn + A) * S) (k : A -> S -> (exn + B) * S) w b w' :
  bind m k w = (inr b, w') <-> exists a w1, m w = (inr a, w1) /\ k a w1 = (inr b, w').
Proof.
  unfold bind. destruct (m w) as [[e|a] w1]; split.
  - done.
  - by intros (? & ? & ? & ?).
  - intros H. by exists a, w1.
  - intros (a' & w1' & Ha & Hk). by simplify_eq.
Qed.

Lemma request_inr c w u w' :
  request c w = (inr u, w') -> w' = received c w.
Proof. unfold request. intros H. destruct (faults w) as [|[e|] fs]; by simplify_eq. Qed.

Lemma create_message_inr thread_id r text w u w' :
  create_message thread_id r text w = (inr u, w') ->
  exists h : list message,
    threads w !! thread_id = Some h /\
    threads w' = <[thread_id := h ++ [Message r text]]> (threads w) /\
    replies w' = replies w /\
    faults w' = tl (faults w) /\
    calls w' = calls w ++ [CreateMessage thread_id r text].
Proof.
  unfold create_message. intros H.
  apply bind_inr in H as ([] & w1 & ->%request_inr & H).
  apply bind_inr in H as (h & w2 & Hget & H).
  unfold get_thread in Hget. simpl in Hget.
  destruct (threads w !! thread_id) as [h'|] eqn:Hh; [|done].
  simplify_eq. exists h. split; [done|]. unfold set_thread in H. by simplify_eq.
Qed.

Lemma create_and_process_run_inr thread_id assistant_id w u w' :
  create_and_process_run thread_id assistant_id w = (inr u, w') ->
  exists h : list message,
    threads w !! thread_id = Some h /\
    threads w' = <[thread_id := h ++ answered w]> (threads w) /\
    replies w' = tl (replies w) /\
    faults w' = tl (faults w) /\
    calls w' = calls w ++ [CreateAndProcessRun thread_id assistant_id].
Proof.
  unfold create_and_process_run. intros H.
  apply bind_inr in H as ([] & w1 & ->%request_inr & H).
  apply bind_inr in H as (h & w2 & Hget & H).
  unfold get_thread in Hget. simpl in Hget.
  destruct (threads w !! thread_id) as [h'|] eqn:Hh; [|done].
  simplify_eq. exists h. split; [done|].
  apply bind_inr in H as (r & w3 & Hr & H).
  unfold next_reply in Hr. simpl in Hr. unfold answered.
  destruct (replies w) as [|r' rs] eqn:Hrs; simplify_eq; simpl.
  - unfold ret in H. simplify_eq. simpl. rewrite Hrs, app_nil_r.
    by rewrite insert_id.
  - destruct r as [text|]; unfold ret, set_thread in H; simplify_eq; simpl; [done|].
    rewrite app_nil_r. by rewrite insert_id.
Qed.

Lemma list_messages_inr thread_id w ms w' :
  list_messages thread_id w = (inr ms, w') ->
  exists h : list message,
    threads w !! thread_id = Some h /\ ms = rev h /\
    threads w' = threads w /\
    replies w' = replies w /\
    faults w' = tl (faults w) /\
    calls w' = calls w ++ [ListMessages thread_id].
Proof.
  unfold list_messages. intros H.
  apply bind_inr in H as ([] & w1 & ->%request_inr & H).
  apply bind_inr in H as (h & w2 & Hget & H).
  unfold get_thread in Hget. simpl in Hget.
  destruct (threads w !! thread_id) as [h'|] eqn:Hh; [|done].
  unfold ret in H. simplify_eq. by exists h.
Qed.

Lemma create_thread_inr w id w' :
  create_thread w = (inr id, w') ->
  id = fresh (dom (threads w)) /\ threads w !! id = None /\
  threads w' = <[id := []]> (threads w) /\
  replies w' = replies w /\
  faults w' = tl (faults w) /\
  calls w' = calls w ++ [CreateThread].
Proof.
  unfold create_thread. intros H.
  apply bind_inr in H as ([] & w1 & ->%request_inr & H).
  simpl in H. simplify_eq. split; [done|]. split; [|done].
  apply not_elem_of_dom, is_fresh.
Qed.

Lemma last_text_snoc (r : Role) (h : list message) (m : message) :
  get_last_text_message_by_role r (rev (h ++ [m])) =
  if decide (role m = r) then Some (content m)
  else get_last_text_message_by_role r (rev h).
Proof. by rewrite rev_app_distr. Qed.

(** ** The two turns of [chat_on_thread] *)

Lemma primary_turn_inr self thread_id user_query w response_text w1 :
  primary_turn self thread_id user_query w = (inr response_text, w1) ->
  exists h : list message,
    threads w !! thread_id = Some h /\
    threads w1 = <[thread_id := h ++ Message User user_query :: answered w]> (threads w) /\
    response_text =
      default no_response
        (get_last_text_message_by_role Assistant
           (rev (h ++ Message User user_query :: answered w))) /\
    replies w1 = tl (replies w) /\
    faults w1 = tl (tl (tl (faults w))) /\
    calls w1 = calls w ++ primary_calls self thread_id user_query.
Proof.
  unfold primary_turn. intros H.
  apply bind_inr in H as ([] & wa & (h & Hh & Ta & Ra & Fa & Ca)%create_message_inr & H).
  apply bind_inr in H as ([] & wb & (hb & Hhb & Tb & Rb & Fb & Cb)%create_and_process_run_inr & H).
  apply bind_inr in H as (ms & wc & (hc & Hhc & -> & Tc & Rc & Fc & Cc)%list_messages_inr & H).
  unfold ret in H. simplify_eq.
  rewrite Ta, lookup_insert_eq in Hhb. simplify_eq.
  assert (answered wa = answered w) as Hans by (unfold answered; by rewrite Ra).
  rewrite Ta, insert_insert_eq, Hans, <-app_assoc in Tb. simpl in Tb.
  rewrite Tb, lookup_insert_eq in Hhc. simplify_eq.
  exists h. rewrite Tc, Rc, Fc, Cc, Rb, Fb, Cb, Ra, Fa, Ca.
  repeat split; try done.
  unfold primary_calls. by rewrite <-!app_assoc.
Qed.

Lemma retry_turn_inr self thread_id user_query w1 fallback_response w' (h1 : list message) :
  threads w1 !! thread_id = Some h1 ->
  retry_turn self thread_id user_query w1 = (inr fallback_response, w') ->
  let temp_thread := fresh (dom (threads w1)) in
  threads w1 !! temp_thread = None /\
  temp_thread <> thread_id /\
  fallback_response =
    default no_fallback_response
      (get_last_text_message_by_role Assistant (rev (Message User user_query :: answered w1))) /\
  threads w' =
    <[thread_id := h1 ++ [Message Assistant (recovered_marker +:+ LF +:+ fallback_response)]]>
      (<[temp_thread := Message User user_query :: answered w1]> (threads w1)) /\
  replies w' = tl (replies w1) /\
  faults w' = tl (tl (tl (tl (tl (faults w1))))) /\
  calls w' = calls w1 ++ retry_calls self thread_id user_query temp_thread fallback_response.
Proof.
  unfold retry_turn. intros Hh1 H.
  apply bind_inr in H as (eph & wa & (-> & Hfresh & Ta & Ra & Fa & Ca)%create_thread_inr & H).
  set (eph := fresh (dom (threads w1))) in *.
  assert (eph <> thread_id) as Hne by (intros Heq; congruence).
  apply bind_inr in H as ([] & wb & (hb & Hhb & Tb & Rb & Fb & Cb)%create_message_inr & H).
  rewrite Ta, lookup_insert_eq in Hhb. simplify_eq.
  rewrite Ta, insert_insert_eq in Tb. simpl in Tb.
  apply bind_inr in H as ([] & wc & (hc & Hhc & Tc & Rc & Fc & Cc)%create_and_process_run_inr & H).
  rewrite Tb, lookup_insert_eq in Hhc. simplify_eq.
  assert (answered wb = answered w1) as Hans by (unfold answered; by rewrite Rb, Ra).
  rewrite Tb, insert_insert_eq, Hans in Tc. simpl in Tc.
  apply bind_inr in H as (ms & wd & (hd & Hhd & -> & Td & Rd & Fd & Cd)%list_messages_inr & H).
  rewrite Tc, lookup_insert_eq in Hhd. simplify_eq.
  apply bind_inr in H as ([] & we & (he & Hhe & Te & Re & Fe & Ce)%create_message_inr & H).
  rewrite Td, Tc, lookup_insert_ne in Hhe by done. simplify_eq.
  unfold ret in H. simplify_eq.
  rewrite Te, Re, Fe, Ce, Td, Rd, Fd, Cd, Tc, Rc, Fc, Cc, Rb, Fb, Cb, Ra, Fa, Ca.
  repeat split; try done.
  unfold retry_calls. by rewrite <-!app_assoc.
Qed.

Lemma retry_answer (user_query : string) (w : world) :
  default no_fallback_response
    (get_last_text_message_by_role Assistant (rev (Message User user_query :: answered w))) =
  match head (replies w) with
  | Some (Some text) => text
  | _ => no_fallback_response
  end.
Proof. unfold answered. by destruct (head (replies w)) as [[text|]|]. Qed.

(** A response without refusal marker ends the call after the primary turn. *)
Lemma plain_response self thread_id user_query w response_text w1 :
  primary_turn self thread_id user_query w = (inr response_text, w1) ->
  is_refusal response_text = false ->
  chat_on_thread_try self thread_id user_query w = (inr response_text, w1) /\
  chat_on_thread self thread_id user_query w = (response_text, w1).
Proof.
  intros Hp Hr.
  assert (chat_on_thread_try self thread_id user_query w = (inr response_text, w1)) as Htry.
  { rewrite chat_on_thread_try_split. unfold bind. by rewrite Hp, Hr. }
  split; [done|]. unfold chat_on_thread. by rewrite Htry.
Qed.

(** The primary turn creates no thread. *)
Lemma primary_turn_inr_dom self thread_id user_query w response_text w1 :
  primary_turn self thread_id user_query w = (inr response_text, w1) ->
  dom (threads w1) = dom (threads w) /\
  calls w1 = calls w ++ primary_calls self thread_id user_query.
Proof.
  intros (h & Hh & Ht & _ & _ & _ & Hc)%primary_turn_inr. split; [|done].
  rewrite Ht. by apply dom_insert_lookup_L.
Qed.

(** ** The fallback retry *)

(** ** Requests that do not fail *)

Lemma Forall_take_tl {A} (P : A -> Prop) (n : nat) (l : list A) :
  Forall P (take (S n) l) -> Forall P (take n (tl l)).
Proof. destruct l as [|a l]; simpl; [by rewrite take_nil | by intros [_ ?]%Forall_cons]. Qed.

Lemma Forall_take_1 {A} (P : A -> Prop) (n : nat) (l : list A) :
  Forall P (take (S n) l) -> Forall P (take 1 l).
Proof.
  destruct l as [|a l]; simpl; [done|]. intros [? _]%Forall_cons.
  rewrite take_0. by constructor.
Qed.

Lemma request_returns c w :
  Forall (eq None) (take 1 (faults w)) -> request c w = (inr tt, received c w).
Proof.
  unfold request. destruct (faults w) as [|[e|] fs]; simpl; [done| |done].
  by intros [? _]%Forall_cons.
Qed.

Lemma create_thread_returns w :
  Forall (eq None) (take 1 (faults w)) ->
  exists w', create_thread w = (inr (fresh (dom (threads w))), w').
Proof.
  intros H. unfold create_thread, bind. rewrite (request_returns _ _ H). by eexists.
Qed.

Lemma create_message_returns t r text w (h : list message) :
  Forall (eq None) (take 1 (faults w)) -> threads w !! t = Some h ->
  exists w', create_message t r text w = (inr tt, w').
Proof.
  intros H Hh. unfold create_message, bind, get_thread, set_thread.
  rewrite (request_returns _ _ H). simpl. rewrite Hh. simpl. by eexists.
Qed.

Lemma create_and_process_run_returns t assistant_id w (h : list message) :
  Forall (eq None) (take 1 (faults w)) -> threads w !! t = Some h ->
  exists w', create_and_process_run t assistant_id w = (inr tt, w').
Proof.
  intros H Hh. unfold create_and_process_run, bind, get_thread, set_thread, next_reply, ret.
  rewrite (request_returns _ _ H). simpl. rewrite Hh. simpl.
  destruct (replies w) as [|[text|] rs]; simpl; by eexists.
Qed.

Lemma list_messages_returns t w (h : list message) :
  Forall (eq None) (take 1 (faults w)) -> threads w !! t = Some h ->
  exists w', list_messages t w = (inr (rev h), w').
Proof.
  intros H Hh. unfold list_messages, bind, get_thread, ret.
  rewrite (request_returns _ _ H). simpl. rewrite Hh. simpl. by eexists.
Qed.

(** When none of its five requests raises, the retry returns. *)
Lemma retry_turn_returns self thread_id user_query w1 (h1 : list message) :
  threads w1 !! thread_id = Some h1 ->
  Forall (eq None) (take 5 (faults w1)) ->
  exists fallback_response w',
    retry_turn self thread_id user_query w1 = (inr fallback_response, w').
Proof.
  intros Hh1 H5.
  destruct (create_thread_returns w1 (Forall_take_1 _ _ _ H5)) as [wa Ha].
  pose proof (create_thread_inr _ _ _ Ha) as (_ & Hfresh & Ta & _ & Fa & _).
  set (eph := fresh (dom (threads w1))) in *.
  assert (eph <> thread_id) as Hne by (intros Heq; congruence).
  assert (Forall (eq None) (take 4 (faults wa))) as H4 by (rewrite Fa; by apply Forall_take_tl).
  destruct (create_message_returns eph User user_query wa [] (Forall_take_1 _ _ _ H4))
    as [wb Hb]; [rewrite Ta; apply lookup_insert_eq|].
  pose proof (create_message_inr _ _ _ _ _ _ Hb) as (hb & Hhb & Tb & _ & Fb & _).
  assert (Forall (eq None) (take 3 (faults wb))) as H3 by (rewrite Fb; by apply Forall_take_tl).
  destruct (create_and_process_run_returns eph (iam_agent_id self) wb (hb ++ [Message User user_query])
              (Forall_take_1 _ _ _ H3)) as [wc Hc]; [rewrite Tb; apply lookup_insert_eq|].
  pose proof (create_and_process_run_inr _ _ _ _ _ Hc) as (hc & Hhc & Tc & _ & Fc & _).
  assert (Forall (eq None) (take 2 (faults wc))) as H2 by (rewrite Fc; by apply Forall_take_tl).
  destruct (list_messages_returns eph wc (hc ++ answered wb) (Forall_take_1 _ _ _ H2))
    as [wd Hd]; [rewrite Tc; apply lookup_insert_eq|].
  pose proof (list_messages_inr _ _ _ _ Hd) as (hd & Hhd & _ & Td & _ & Fd & _).
  assert (Forall (eq None) (take 1 (faults wd))) as H1 by (rewrite Fd; by apply Forall_take_tl).
  assert (threads wd !! thread_id = Some h1) as Hh1d.
  { rewrite Td, Tc, Tb, Ta, !lookup_insert_ne by done. done. }
  set (fallback_response :=
         default no_fallback_response
           (get_last_text_message_by_role Assistant (rev (hc ++ answered wb)))).
  destruct (create_message_returns thread_id Assistant
              (recovered_marker +:+ LF +:+ fallback_response) wd h1 H1 Hh1d) as [we He].
  exists fallback_response, we.
  unfold retry_turn, bind. rewrite Ha. fold eph. rewrite Hb, Hc, Hd. fold fallback_response.
  by rewrite He.
Qed.

(** C1, amended.  When the primary response of
    [chat_on_thread thread_id user_query] contains a refusal marker and none
    of the next five requests raises, the call returns, and it has created
    exactly one thread, new and empty, sent it the same query on the same
    agent, stored the answer of that thread on the original thread as an
    assistant message behind "[Recovered Answer]" and a line feed, and
    returned that answer; it does so whatever the answer is, so a second
    refusal is returned as it is, with no further thread. *)
Theorem refusal_retried_once_in_clean_thread
    self thread_id user_query w response_text w1 :
  primary_turn self thread_id user_query w = (inr response_text, w1) ->
  is_refusal response_text = true ->
  Forall (eq None) (take 5 (faults w1)) ->
  exists (fallback_response : string) (w' : world) (temp_thread : string)
         (h1 : list message),
    chat_on_thread self thread_id user_query w = (fallback_response, w') /\
    threads w1 !! temp_thread = None /\
    threads w1 !! thread_id = Some h1 /\
    dom (threads w') = {[temp_thread]} ∪ dom (threads w1) /\
    calls w' = calls w1 ++
      [ CreateThread;
        CreateMessage temp_thread User user_query;
        CreateAndProcessRun temp_thread (iam_agent_id self);
        ListMessages temp_thread;
        CreateMessage thread_id Assistant (recovered_marker +:+ LF +:+ fallback_response) ] /\
    threads w' !! temp_thread = Some (Message User user_query :: answered w1) /\
    threads w' !! thread_id =
      Some (h1 ++ [Message Assistant (recovered_marker +:+ LF +:+ fallback_response)]) /\
    fallback_response =
      match head (replies w1) with
      | Some (Some text) => text
      | _ => no_fallback_response
      end.
Proof.
  intros Hp Hr Hquiet.
  pose proof Hp as (h & Hh & Ht & _)%primary_turn_inr.
  assert (threads w1 !! thread_id = Some (h ++ Message User user_query :: answered w)) as Hh1
    by (rewrite Ht; apply lookup_insert_eq).
  destruct (retry_turn_returns self thread_id user_query w1 _ Hh1 Hquiet)
    as (fallback_response & w' & Hretry).
  assert (chat_on_thread_try self thread_id user_query w = (inr fallback_response, w')) as Htry.
  { rewrite chat_on_thread_try_split. unfold bind. by rewrite Hp, Hr. }
  pose proof (retry_turn_inr _ _ _ _ _ _ _ Hh1 Hretry) as (Hnew & Hne & Hf & Ht' & _ & _ & Hc').
  exists fallback_response, w', (fresh (dom (threads w1))),
    (h ++ Message User user_query :: answered w).
  split; [unfold chat_on_thread; by rewrite Htry|].
  split; [done|]. split; [done|].
  split.
  { rewrite Ht'. rewrite dom_insert_lookup_L; [apply dom_insert_L|].
    rewrite lookup_insert_ne by done. by eexists. }
  split; [done|].
  split; [rewrite Ht', lookup_insert_ne by done; apply lookup_insert_eq|].
  split; [rewrite Ht'; apply lookup_insert_eq|].
  by rewrite Hf, retry_answer.
Qed.

Lemma refusal_retried_once_in_clean_thread_witness :
  is_refusal demo_refusal = true /\
  (chat_on_thread demo_assistant "thread_1" "list users" demo_world).1 = "User A, User B" /\
  exists temp_thread,
    calls (chat_on_thread demo_assistant "thread_1" "list users" demo_world).2 =
      [ CreateMessage "thread_1" User "list users";
        CreateAndProcessRun "thread_1" "asst_iam";
        ListMessages "thread_1";
        CreateThread;
        CreateMessage temp_thread User "list users";
        CreateAndProcessRun temp_thread "asst_iam";
        ListMessages temp_thread;
        CreateMessage "thread_1" Assistant ("[Recovered Answer]" +:+ LF +:+ "User A, User B") ].
Proof.
  assert (primary_turn demo_assistant "thread_1" "list users" demo_world =
            (inr demo_refusal, (primary_turn demo_assistant "thread_1" "list users" demo_world).2))
    as Hp by (vm_compute; reflexivity).
  assert (is_refusal demo_refusal = true) as Hr by (vm_compute; reflexivity).
  assert (Forall (eq None)
            (take 5 (faults (primary_turn demo_assistant "thread_1" "list users" demo_world).2)))
    as Hquiet by (vm_compute; constructor).
  destruct (refusal_retried_once_in_clean_thread _ _ _ _ _ _ Hp Hr Hquiet)
    as (fallback_response & w' & temp_thread & h1 & Hchat & _ & _ & _ & Hcalls & _ & _ & Hanswer).
  assert (fallback_response = "User A, User B") as ->
    by (rewrite Hanswer; vm_compute; reflexivity).
  split; [exact Hr|]. rewrite Hchat. simpl. split; [reflexivity|].
  exists temp_thread. rewrite Hcalls. vm_compute. reflexivity.
Defined.

(** C1, as stated, fails: the primary response is a refusal, the request
    that creates the thread of the retry raises, and the call returns the
    connection-lost message; no thread is created, and the original thread
    ends with the refusal and holds no recovered answer. *)
Lemma refused_retry_can_fail :
  exists response_text w1,
    primary_turn demo_assistant "thread_1" "list users" cut_off_retry_world
      = (inr response_text, w1) /\
    is_refusal response_text = true /\
    (chat_on_thread demo_assistant "thread_1" "list users" cut_off_retry_world).1
      = connection_lost /\
    dom (threads (chat_on_thread demo_assistant "thread_1" "list users" cut_off_retry_world).2)
      = dom (threads cut_off_retry_world) /\
    threads (chat_on_thread demo_assistant "thread_1" "list users" cut_off_retry_world).2
      !! "thread_1" = Some [Message User "list users"; Message Assistant demo_refusal].
Proof.
  eexists _, _. split; [vm_compute; reflexivity|].
  repeat split; vm_compute; reflexivity.
Qed.


(** C2. When the primary response contains no refusal marker,
    [chat_on_thread] returns it unchanged and creates no thread: the call
    ends after the three requests of the primary turn, none of which creates
    a thread, and the service holds the same threads as before. *)
Theorem plain_response_returned_unchanged self thread_id user_query w response_text w1 :
  primary_turn self thread_id user_query w = (inr response_text, w1) ->
  is_refusal response_text = false ->
  chat_on_thread self thread_id user_query w = (response_text, w1) /\
  calls w1 = calls w ++
    [ CreateMessage thread_id User user_query;
      CreateAndProcessRun thread_id (iam_agent_id self);
      ListMessages thread_id ] /\
  dom (threads w1) = dom (threads w).
Proof.
  intros Hp Hr.
  destruct (plain_response _ _ _ _ _ _ Hp Hr) as [_ Hchat].
  destruct (primary_turn_inr_dom _ _ _ _ _ _ Hp) as [Hdom Hcalls].
  done.
Qed.

Lemma plain_response_returned_unchanged_witness :
  is_refusal "User A, User B" = false /\
  (chat_on_thread demo_assistant "thread_1" "list users" demo_plain_world).1 = "User A, User B" /\
  dom (threads (chat_on_thread demo_assistant "thread_1" "list users" demo_plain_world).2) =
    {[ "thread_1" ]}.
Proof.
  assert (primary_turn demo_assistant "thread_1" "list users" demo_plain_world =
            (inr "User A, User B",
             (primary_turn demo_assistant "thread_1" "list users" demo_plain_world).2))
    as Hp by (vm_compute; reflexivity).
  assert (is_refusal "User A, User B" = false) as Hr by (vm_compute; reflexivity).
  destruct (plain_response_returned_unchanged _ _ _ _ _ _ Hp Hr) as (Hchat & _ & Hdom).
  split; [exact Hr|]. rewrite Hchat. split; [reflexivity|].
  simpl. rewrite Hdom. simpl. apply dom_singleton_L.
Defined.

(** ** Requests that may fail: what they leave behind *)

Lemma appended_nil t w w' : threads w' = threads w -> appended t w w' [].
Proof. intros H. by left. Qed.

Lemma appended_trans t w w1 w2 (a1 a2 : list message) :
  appended t w w1 a1 -> appended t w1 w2 a2 -> appended t w w2 (a1 ++ a2).
Proof.
  intros [[-> H1]|(h & Hh & H1)] [[-> H2]|(h' & Hh' & H2)].
  - left. split; [done | congruence].
  - right. exists h'. rewrite H1 in Hh', H2. done.
  - right. exists h. rewrite app_nil_r. split; [done | congruence].
  - right. exists h. split; [done|].
    rewrite H1, lookup_insert_eq in Hh'. simplify_eq.
    by rewrite H2, H1, insert_insert_eq, app_assoc.
Qed.

Lemma appended_dom t w w' added :
  appended t w w' added -> dom (threads w') = dom (threads w).
Proof.
  intros [[_ ->]|(h & Hh & ->)]; [done|]. by apply dom_insert_lookup_L.
Qed.

Lemma appended_history t w w' added :
  appended t w w' added -> history t w' = history t w ++ added.
Proof.
  unfold history. intros [[-> ->]|(h & Hh & ->)].
  - by rewrite app_nil_r.
  - by rewrite lookup_insert_eq, Hh.
Qed.

Lemma appended_other t w w' added k :
  appended t w w' added -> k <> t -> threads w' !! k = threads w !! k.
Proof.
  intros [[_ ->]|(h & Hh & ->)] Hk; [done|]. by rewrite lookup_insert_ne.
Qed.

Lemma appended_lookup t w w' added (h : list message) :
  appended t w w' added -> threads w !! t = Some h -> threads w' !! t = Some (h ++ added).
Proof.
  intros [[-> ->]|(h' & Hh & ->)] Ht.
  - by rewrite app_nil_r.
  - rewrite lookup_insert_eq. congruence.
Qed.

Lemma request_any c w res w' :
  request c w = (res, w') -> w' = received c w.
Proof. unfold request. intros H. destruct (faults w) as [|[e|] fs]; by simplify_eq. Qed.

Lemma create_message_any t r text w res w' :
  create_message t r text w = (res, w') ->
  calls w' = calls w ++ [CreateMessage t r text] /\
  appended t w w' (match res with inr _ => [Message r text] | inl _ => [] end).
Proof.
  unfold create_message, bind. intros H.
  destruct (request _ w) as [[e|[]] wa] eqn:Hreq; apply request_any in Hreq as ->.
  { simplify_eq. split; [done|]. by left. }
  unfold get_thread in H. simpl in H.
  destruct (threads w !! t) as [h|] eqn:Hh; unfold set_thread in H; simplify_eq; simpl.
  - split; [done|]. right. by exists h.
  - split; [done|]. by left.
Qed.

Lemma create_and_process_run_any t assistant_id w res w' :
  create_and_process_run t assistant_id w = (res, w') ->
  calls w' = calls w ++ [CreateAndProcessRun t assistant_id] /\
  appended t w w' (match res with inr _ => answered w | inl _ => [] end).
Proof.
  intros H. destruct res as [e|[]].
  - unfold create_and_process_run, bind in H.
    destruct (request _ w) as [[e'|[]] wa] eqn:Hreq; apply request_any in Hreq as ->.
    { simplify_eq. split; [done|]. by left. }
    unfold get_thread in H. simpl in H.
    destruct (threads w !! t) as [h|] eqn:Hh.
    + unfold next_reply in H. simpl in H.
      destruct (replies w) as [|[text|] rs]; unfold ret, set_thread in H; simplify_eq.
    + simplify_eq. split; [done|]. by left.
  - apply create_and_process_run_inr in H as (h & Hh & Ht & _ & _ & Hc).
    split; [done|]. right. by exists h.
Qed.

Lemma list_messages_any t w res w' :
  list_messages t w = (res, w') ->
  calls w' = calls w ++ [ListMessages t] /\ threads w' = threads w.
Proof.
  unfold list_messages, bind. intros H.
  destruct (request _ w) as [[e|[]] wa] eqn:Hreq; apply request_any in Hreq as ->.
  { by simplify_eq. }
  unfold get_thread in H. simpl in H.
  destruct (threads w !! t) as [h|] eqn:Hh; unfold ret in H; by simplify_eq.
Qed.

Lemma create_thread_any w res w' :
  create_thread w = (res, w') ->
  calls w' = calls w ++ [CreateThread] /\
  match res with
  | inr id => id = fresh (dom (threads w)) /\ threads w' = <[id := []]> (threads w)
  | inl _ => threads w' = threads w
  end.
Proof.
  unfold create_thread, bind. intros H.
  destruct (request _ w) as [[e|[]] wa] eqn:Hreq; apply request_any in Hreq as ->;
    by simplify_eq.
Qed.

Lemma answered_length (w : world) : length (answered w) <= 1.
Proof. unfold answered. destruct (head (replies w)) as [[text|]|]; simpl; lia. Qed.

(** The handlers of [chat_on_thread] leave the service as the [try] block
    left it. *)
Lemma chat_on_thread_world self thread_id user_query w :
  (chat_on_thread self thread_id user_query w).2 =
  (chat_on_thread_try self thread_id user_query w).2.
Proof.
  unfold chat_on_thread.
  destruct (chat_on_thread_try self thread_id user_query w) as [[[msg|msg]|reply] w']; simpl;
    [by destruct (contains _ msg) | done | done].
Qed.

(** Whatever the outcome of the primary turn, it sends a prefix of its three
    requests and appends at most the query and one answer to the thread. *)
Lemma primary_turn_any self thread_id user_query w res w1 :
  primary_turn self thread_id user_query w = (res, w1) ->
  exists (n : nat) (added : list message),
    calls w1 = calls w ++ take n (primary_calls self thread_id user_query) /\
    appended thread_id w w1 added /\
    length added <= 2.
Proof.
  unfold primary_turn, bind. intros H.
  destruct (create_message _ _ _ w) as [ra wa] eqn:Ha.
  apply create_message_any in Ha as [Ca Aa].
  destruct ra as [e|[]].
  { simplify_eq. exists 1, []. simpl. split; [done|]. split; [done | lia]. }
  destruct (create_and_process_run _ _ wa) as [rb wb] eqn:Hb.
  apply create_and_process_run_any in Hb as [Cb Ab].
  pose proof (answered_length wa) as Hlen.
  destruct rb as [e|[]].
  { simplify_eq. exists 2, ([Message User user_query] ++ []).
    split; [by rewrite Cb, Ca, <-app_assoc|].
    split; [by eapply appended_trans | simpl; lia]. }
  destruct (list_messages _ wb) as [rc wc] eqn:Hc.
  apply list_messages_any in Hc as [Cc Tc].
  assert (w1 = wc) as -> by (destruct rc; unfold ret in H; by simplify_eq).
  exists 3, (([Message User user_query] ++ answered wa) ++ []).
  split; [by rewrite Cc, Cb, Ca, <-!app_assoc|].
  split.
  - eapply appended_trans; [by eapply appended_trans|]. by apply appended_nil.
  - rewrite app_nil_r. simpl. lia.
Qed.

(** Whatever the outcome of the retry, the original thread receives the
    recovered answer when the retry returns, and nothing otherwise. *)
Lemma retry_turn_any self thread_id user_query w1 res w' (h1 : list message) :
  threads w1 !! thread_id = Some h1 ->
  retry_turn self thread_id user_query w1 = (res, w') ->
  threads w' !! thread_id =
    Some (h1 ++ match res with
                | inr fallback_response =>
                    [Message Assistant (recovered_marker +:+ LF +:+ fallback_response)]
                | inl _ => []
                end).
Proof.
  intros Hh1 H. destruct res as [e|fallback_response].
  2:{ pose proof (retry_turn_inr _ _ _ _ _ _ _ Hh1 H) as (_ & _ & _ & -> & _).
      apply lookup_insert_eq. }
  rewrite app_nil_r. unfold retry_turn, bind in H.
  destruct (create_thread w1) as [ra wa] eqn:Ha.
  apply create_thread_any in Ha as [_ Ta].
  destruct ra as [e'|temp_thread]; [simplify_eq; by rewrite Ta|].
  destruct Ta as [-> Ta].
  set (temp_thread := fresh (dom (threads w1))) in *.
  assert (temp_thread <> thread_id) as Hne.
  { intros Heq. pose proof (is_fresh (dom (threads w1))) as Hfresh.
    apply Hfresh. fold temp_thread. rewrite Heq. by eapply elem_of_dom_2. }
  assert (threads wa !! thread_id = Some h1) as Hwa
    by (by rewrite Ta, lookup_insert_ne).
  destruct (create_message _ _ _ wa) as [rb wb] eqn:Hb.
  apply create_message_any in Hb as [_ Ab].
  assert (threads wb !! thread_id = Some h1) as Hwb
    by (by rewrite (appended_other _ _ _ _ _ Ab)).
  destruct rb as [e'|[]]; [by simplify_eq|].
  destruct (create_and_process_run _ _ wb) as [rc wc] eqn:Hc.
  apply create_and_process_run_any in Hc as [_ Ac].
  assert (threads wc !! thread_id = Some h1) as Hwc
    by (by rewrite (appended_other _ _ _ _ _ Ac)).
  destruct rc as [e'|[]]; [by simplify_eq|].
  destruct (list_messages _ wc) as [rd wd] eqn:Hd.
  apply list_messages_any in Hd as [_ Td].
  destruct rd as [e'|ms]; [simplify_eq; by rewrite Td|].
  destruct (create_message _ _ _ wd) as [re we] eqn:He.
  apply create_message_any in He as [_ Ae].
  destruct re as [e'|[]]; [|unfold ret in H; by simplify_eq].
  simplify_eq. rewrite <-Td in Hwc.
  rewrite (appended_lookup _ _ _ _ _ Ae Hwc). by rewrite app_nil_r.
Qed.

(** One call appends to the thread and never more than three messages. *)
Lemma chat_on_thread_appends self thread_id user_query w :
  exists added : list message,
    history thread_id (chat_on_thread self thread_id user_query w).2 =
      history thread_id w ++ added /\
    length added <= 3.
Proof.
  rewrite chat_on_thread_world, chat_on_thread_try_split. unfold bind.
  destruct (primary_turn self thread_id user_query w) as [res w1] eqn:Hp.
  pose proof Hp as (n & added & _ & Ha & Hlen)%primary_turn_any.
  destruct res as [e|response_text].
  { exists added. split; [by apply appended_history | lia]. }
  destruct (is_refusal response_text).
  2:{ exists added. split; [by apply appended_history | lia]. }
  apply primary_turn_inr in Hp as (h & Hh & _).
  pose proof (appended_lookup _ _ _ _ _ Ha Hh) as Hh1.
  destruct (retry_turn self thread_id user_query w1) as [res' w'] eqn:Hr.
  pose proof (retry_turn_any _ _ _ _ _ _ _ Hh1 Hr) as Hw'.
  exists (added ++ match res' with
                   | inr fallback_response =>
                       [Message Assistant (recovered_marker +:+ LF +:+ fallback_response)]
                   | inl _ => []
                   end).
  split.
  - unfold history. simpl. rewrite Hw', Hh. simpl. by rewrite app_assoc.
  - rewrite length_app. destruct res'; simpl; lia.
Qed.

(** ** The refusal test *)

(** C9. The refusal test of [chat_on_thread] holds exactly when the primary
    response has "I don't know the answer" or "The document does not" as a
    substring.  "The information is not available in the documentation.",
    which the instructions of the agent tell it to say, has neither: a call
    whose primary response is that sentence returns it and makes no
    retry. *)
Theorem refusal_test_is_two_substrings :
  (forall response_text : string,
     is_refusal response_text = true <->
     (exists pre post, response_text = pre +:+ "I don't know the answer" +:+ post) \/
     (exists pre post, response_text = pre +:+ "The document does not" +:+ post)) /\
  contains not_available instructions = true /\
  is_refusal not_available = false /\
  (forall self thread_id user_query w w1,
     primary_turn self thread_id user_query w = (inr not_available, w1) ->
     chat_on_thread self thread_id user_query w = (not_available, w1) /\
     calls w1 = calls w ++
       [ CreateMessage thread_id User user_query;
         CreateAndProcessRun thread_id (iam_agent_id self);
         ListMessages thread_id ] /\
     dom (threads w1) = dom (threads w)).
Proof.
  split; [exact is_refusal_spec|].
  split; [by vm_compute|].
  assert (is_refusal not_available = false) as Hr by (by vm_compute).
  split; [done|].
  intros self thread_id user_query w w1 Hp.
  destruct (plain_response _ _ _ _ _ _ Hp Hr) as [_ Hchat].
  destruct (primary_turn_inr_dom _ _ _ _ _ _ Hp) as [Hdom Hcalls].
  done.
Qed.

Lemma refusal_test_is_two_substrings_witness :
  (chat_on_thread demo_assistant "thread_1" "reset my password" not_available_world).1 =
    not_available /\
  calls (chat_on_thread demo_assistant "thread_1" "reset my password" not_available_world).2 =
    [ CreateMessage "thread_1" User "reset my password";
      CreateAndProcessRun "thread_1" "asst_iam";
      ListMessages "thread_1" ].
Proof.
  assert (primary_turn demo_assistant "thread_1" "reset my password" not_available_world =
            (inr not_available,
             (primary_turn demo_assistant "thread_1" "reset my password"
                not_available_world).2))
    as Hp by (vm_compute; reflexivity).
  destruct refusal_test_is_two_substrings as (_ & _ & _ & H).
  destruct (H _ _ _ _ _ Hp) as (Hchat & Hcalls & _).
  rewrite Hchat. split; [reflexivity|]. exact Hcalls.
Defined.

(** ** Transport errors *)

(** C4, as stated, fails: the string returned for a [ServiceResponseError]
    of the primary invocation is not fixed, it depends on the text of the
    error; and the retry path returns whatever the agent answers, which can
    be the very text of the connection-lost message. *)
Lemma transport_error_reply_not_fixed :
  ~ (exists fixed : string,
       forall self thread_id user_query w msg w1,
         primary_turn self thread_id user_query w = (inl (ServiceResponseError msg), w1) ->
         (chat_on_thread self thread_id user_query w).1 = fixed) /\
  (primary_turn demo_assistant "thread_1" "list users" echo_world).1 = inr demo_refusal /\
  is_refusal demo_refusal = true /\
  (chat_on_thread demo_assistant "thread_1" "list users" echo_world).1 =
  (chat_on_thread demo_assistant "thread_1" "list users" reset_world).1.
Proof.
  split; [|by vm_compute].
  intros [fixed H].
  assert (primary_turn demo_assistant "thread_1" "list users" reset_world =
            (inl (ServiceResponseError "Remote end closed connection without response"),
             (primary_turn demo_assistant "thread_1" "list users" reset_world).2))
    as H1 by (vm_compute; reflexivity).
  assert (primary_turn demo_assistant "thread_1" "list users" timeout_world =
            (inl (ServiceResponseError "Read timed out."),
             (primary_turn demo_assistant "thread_1" "list users" timeout_world).2))
    as H2 by (vm_compute; reflexivity).
  apply H in H1. apply H in H2. rewrite <-H2 in H1. vm_compute in H1. discriminate.
Qed.

(** C4, amended.  When the primary turn raises a [ServiceResponseError],
    [chat_on_thread] creates no thread (it sends no request after the failed
    one, and the service holds the same threads) and returns "❌ Connection
    to Azure AI service lost. Please try again." when the text of the error
    contains "Remote end closed connection without response", and
    "❌ Service error: " followed by the text of the error otherwise.  Either
    string begins with "❌" and so differs from the placeholders of the
    primary and of the retry path. *)
Theorem transport_error_short_circuits self thread_id user_query w msg w1 :
  primary_turn self thread_id user_query w = (inl (ServiceResponseError msg), w1) ->
  exists (n : nat) (result : string),
    chat_on_thread self thread_id user_query w = (result, w1) /\
    result =
      (if contains "Remote end closed connection without response" msg
       then "❌ Connection to Azure AI service lost. Please try again."
       else "❌ Service error: " +:+ msg) /\
    calls w1 = calls w ++
      take n [ CreateMessage thread_id User user_query;
               CreateAndProcessRun thread_id (iam_agent_id self);
               ListMessages thread_id ] /\
    dom (threads w1) = dom (threads w) /\
    String.prefix "❌" result = true /\
    result <> no_fallback_response /\
    result <> no_response.
Proof.
  intros Hp.
  pose proof Hp as (n & added & Hcalls & Ha & _)%primary_turn_any.
  assert (chat_on_thread_try self thread_id user_query w =
            (inl (ServiceResponseError msg), w1)) as Htry.
  { rewrite chat_on_thread_try_split. unfold bind. by rewrite Hp. }
  exists n. eexists. split.
  { unfold chat_on_thread. rewrite Htry.
    instantiate (1 := if contains "Remote end closed connection without response" msg
                      then connection_lost else "❌ Service error: " +:+ msg).
    by destruct (contains _ msg). }
  split; [done|]. split; [done|].
  split; [by eapply appended_dom|].
  destruct (contains _ msg); by vm_compute.
Qed.

Lemma transport_error_short_circuits_witness :
  (chat_on_thread demo_assistant "thread_1" "list users" timeout_world).1 =
    "❌ Service error: Read timed out." /\
  dom (threads (chat_on_thread demo_assistant "thread_1" "list users" timeout_world).2) =
    {[ "thread_1" ]}.
Proof.
  assert (primary_turn demo_assistant "thread_1" "list users" timeout_world =
            (inl (ServiceResponseError "Read timed out."),
             (primary_turn demo_assistant "thread_1" "list users" timeout_world).2))
    as Hp by (vm_compute; reflexivity).
  destruct (transport_error_short_circuits _ _ _ _ _ _ Hp)
    as (n & result & Hchat & -> & _ & Hdom & _).
  rewrite Hchat. split; [by vm_compute|].
  simpl. rewrite Hdom. apply dom_singleton_L.
Defined.

(** ** Growth of a thread *)

Lemma recovered_not_in_temp_thread (user_query : string) (w1 : world) :
  recovered (match head (replies w1) with
             | Some (Some text) => text
             | _ => no_fallback_response
             end) ∉ Message User user_query :: answered w1.
Proof.
  unfold answered, recovered.
  destruct (head (replies w1)) as [[text|]|]; rewrite ?elem_of_cons, ?elem_of_nil;
    intros H; destruct_or?; try done.
  simplify_eq. apply (f_equal String.length) in H.
  rewrite !append_length in H. simpl in H. lia.
Qed.

Lemma plain_call_history self thread_id user_query w :
  classify self thread_id user_query w = Plain ->
  exists answer : string,
    chat_on_thread self thread_id user_query w =
      (answer, (primary_turn self thread_id user_query w).2) /\
    head (replies w) = Some (Some answer) /\
    history thread_id (chat_on_thread self thread_id user_query w).2 =
      history thread_id w ++ [Message User user_query; Message Assistant answer].
Proof.
  unfold classify.
  destruct (primary_turn self thread_id user_query w) as [[e|response_text] w1] eqn:Hp; [done|].
  destruct (is_refusal response_text) eqn:Hr; [done|].
  destruct (answered w) as [|m ms] eqn:Hans; [done|]. intros _.
  destruct (plain_response _ _ _ _ _ _ Hp Hr) as [_ Hchat].
  apply primary_turn_inr in Hp as (h & Hh & Ht & Hresp & _).
  unfold answered in Hans.
  destruct (head (replies w)) as [[text|]|] eqn:Hhead; simplify_eq.
  exists text. rewrite Hchat. simpl.
  split; [|split; [done|]].
  - f_equal. unfold answered. by rewrite Hhead, rev_app_distr.
  - unfold history. rewrite Ht, lookup_insert_eq, Hh. unfold answered. by rewrite Hhead.
Qed.

Lemma fallback_call_history self thread_id user_query w fallback_response w' :
  classify self thread_id user_query w = Fallback ->
  chat_on_thread_try self thread_id user_query w = (inr fallback_response, w') ->
  exists temp_thread : string,
    temp_thread <> thread_id /\
    threads (primary_turn self thread_id user_query w).2 !! temp_thread = None /\
    history thread_id w' =
      history thread_id w ++
        Message User user_query :: answered w ++ [recovered fallback_response] /\
    history temp_thread w' =
      Message User user_query :: answered (primary_turn self thread_id user_query w).2 /\
    recovered fallback_response ∉ history temp_thread w'.
Proof.
  unfold classify. intros Hk Htry.
  rewrite chat_on_thread_try_split in Htry. unfold bind in Htry.
  destruct (primary_turn self thread_id user_query w) as [[e|response_text] w1] eqn:Hp; [done|].
  destruct (is_refusal response_text) eqn:Hr; [|by destruct (answered w)].
  apply primary_turn_inr in Hp as (h & Hh & Ht & _).
  assert (threads w1 !! thread_id = Some (h ++ Message User user_query :: answered w)) as Hh1
    by (rewrite Ht; apply lookup_insert_eq).
  pose proof (retry_turn_inr _ _ _ _ _ _ _ Hh1 Htry) as (Hnew & Hne & Hf & Ht' & _).
  exists (fresh (dom (threads w1))). simpl.
  split; [done|]. split; [done|].
  assert (history (fresh (dom (threads w1))) w' = Message User user_query :: answered w1) as Htemp.
  { unfold history. by rewrite Ht', lookup_insert_ne, lookup_insert_eq. }
  split; [|split; [done|]].
  - unfold history. rewrite Ht', lookup_insert_eq, Hh. simpl.
    by rewrite <-app_assoc.
  - rewrite Htemp, Hf, retry_answer. apply recovered_not_in_temp_thread.
Qed.

Lemma chat_session_history self thread_id (queries : list string) w :
  exists added : list message,
    history thread_id (chat_session self thread_id queries w).2 =
      history thread_id w ++ added /\
    length added <= 3 * length queries /\
    (Forall (eq Plain) (session_kinds self thread_id queries w) ->
     map role added = mjoin (replicate (length queries) [User; Assistant])).
Proof.
  revert w. induction queries as [|user_query rest IH]; intros w.
  { exists []. simpl. rewrite app_nil_r. split; [done|]. split; [lia | done]. }
  simpl.
  destruct (chat_on_thread self thread_id user_query w) as [reply w1] eqn:Hchat.
  destruct (IH w1) as (added' & Hh' & Hlen' & Hplain').
  destruct (chat_session self thread_id rest w1) as [replies w2] eqn:Hrest.
  destruct (chat_on_thread_appends self thread_id user_query w) as (added & Hh & Hlen).
  rewrite Hchat in Hh. simpl in *.
  exists (added ++ added'). split; [by rewrite Hh', Hh, app_assoc|].
  split; [rewrite length_app; lia|].
  intros [Hk Hks]%Forall_cons. symmetry in Hk.
  apply plain_call_history in Hk as (answer & _ & _ & Hh2).
  rewrite Hchat in Hh2. simpl in Hh2. rewrite Hh in Hh2.
  apply app_inv_head in Hh2 as ->.
  rewrite map_app, Hplain' by done. done.
Qed.

Lemma ad_provisioning_chat_history _process_user_request thread_id req_message histories
    response histories' :
  (forall m h, (_process_user_request m h).2 = h) ->
  ad_provisioning_chat _process_user_request thread_id req_message histories =
    (inr response, histories') ->
  default [] (histories' !! thread_id) =
    default [] (histories !! thread_id) ++
      [Message User req_message; Message Assistant (result response)].
Proof.
  unfold ad_provisioning_chat, add_message. intros Hpure H.
  destruct (_process_user_request req_message _) as [[e|text] h'] eqn:Hproc; simplify_eq.
  rewrite lookup_insert_eq. simpl.
  pose proof (Hpure req_message (default [] (histories !! thread_id) ++ [Message User req_message])) as Hh.
  rewrite Hproc in Hh. simpl in Hh. subst h'. by rewrite <-app_assoc.
Qed.

(** C5. On one thread: a call whose primary requests succeed, whose run
    answers and whose answer has no refusal marker appends exactly the query
    as a user message and then the answer as an assistant message; a call
    whose primary response has a refusal marker appends at most three
    messages and, when the retry returns, they are the query, the answer of
    the primary run if it produced one, and the recovered answer, while the
    two messages of the retry stay on the new thread, which is another
    thread and does not hold the recovered message; over any sequence of
    calls the history only grows, by at most three messages a call, and by a
    user message and an assistant message a call when every call is of the
    first kind.  A successful call of the on-premises directory endpoint
    appends the query and the answer around what the agent itself does to
    the history. *)
Theorem thread_history_growth self thread_id :
  (forall user_query w,
     classify self thread_id user_query w = Plain ->
     exists answer : string,
       chat_on_thread self thread_id user_query w =
         (answer, (primary_turn self thread_id user_query w).2) /\
       history thread_id (chat_on_thread self thread_id user_query w).2 =
         history thread_id w ++ [Message User user_query; Message Assistant answer]) /\
  (forall user_query w,
     classify self thread_id user_query w = Fallback ->
     exists added : list message,
       history thread_id (chat_on_thread self thread_id user_query w).2 =
         history thread_id w ++ added /\
       length added <= 3 /\
       forall fallback_response w',
         chat_on_thread_try self thread_id user_query w = (inr fallback_response, w') ->
         added = Message User user_query :: answered w ++ [recovered fallback_response] /\
         exists temp_thread : string,
           temp_thread <> thread_id /\
           threads (primary_turn self thread_id user_query w).2 !! temp_thread = None /\
           history temp_thread w' =
             Message User user_query ::
               answered (primary_turn self thread_id user_query w).2 /\
           recovered fallback_response ∉ history temp_thread w') /\
  (forall (queries : list string) w,
     exists added : list message,
       history thread_id (chat_session self thread_id queries w).2 =
         history thread_id w ++ added /\
       length added <= 3 * length queries /\
       (Forall (eq Plain) (session_kinds self thread_id queries w) ->
        map role added = mjoin (replicate (length queries) [User; Assistant]))) /\
  (forall _process_user_request req_message histories response histories',
     (forall m h, (_process_user_request m h).2 = h) ->
     ad_provisioning_chat _process_user_request thread_id req_message histories =
       (inr response, histories') ->
     default [] (histories' !! thread_id) =
       default [] (histories !! thread_id) ++
         [Message User req_message; Message Assistant (result response)]).
Proof.
  split; [|split; [|split]].
  - intros user_query w Hk.
    destruct (plain_call_history _ _ _ _ Hk) as (answer & Hchat & _ & Hh).
    by exists answer.
  - intros user_query w Hk.
    destruct (chat_on_thread_appends self thread_id user_query w) as (added & Hh & Hlen).
    exists added. split; [done|]. split; [done|].
    intros fallback_response w' Htry.
    destruct (fallback_call_history _ _ _ _ _ _ Hk Htry)
      as (temp_thread & Hne & Hnew & Hh' & Htemp & Hnotin).
    rewrite chat_on_thread_world, Htry in Hh. simpl in Hh.
    rewrite Hh in Hh'. apply app_inv_head in Hh' as ->.
    split; [done|]. by exists temp_thread.
  - intros queries w. apply chat_session_history.
  - intros process req_message histories response histories'.
    apply ad_provisioning_chat_history.
Qed.

Lemma thread_history_growth_witness :
  history "thread_1" (chat_on_thread demo_assistant "thread_1" "list users" demo_plain_world).2 =
    [Message User "list users"; Message Assistant "User A, User B"] /\
  history "thread_1" (chat_on_thread demo_assistant "thread_1" "list users" demo_world).2 =
    [ Message User "list users"; Message Assistant demo_refusal;
      Message Assistant ("[Recovered Answer]" +:+ LF +:+ "User A, User B") ] /\
  default [] ((ad_provisioning_chat demo_process "ad-00c0ffee" "unlock jdoe" ∅).2
                !! "ad-00c0ffee") =
    [Message User "unlock jdoe"; Message Assistant "done: unlock jdoe"].
Proof.
  destruct (thread_history_growth demo_assistant "thread_1") as (Hplain & Hfallback & _ & _).
  destruct (thread_history_growth demo_assistant "ad-00c0ffee") as (_ & _ & _ & Had).
  assert (classify demo_assistant "thread_1" "list users" demo_plain_world = Plain) as Hk1
    by (vm_compute; reflexivity).
  assert (classify demo_assistant "thread_1" "list users" demo_world = Fallback) as Hk2
    by (vm_compute; reflexivity).
  assert (chat_on_thread_try demo_assistant "thread_1" "list users" demo_world =
            (inr "User A, User B",
             (chat_on_thread_try demo_assistant "thread_1" "list users" demo_world).2))
    as Htry by (vm_compute; reflexivity).
  assert (forall m h, (demo_process m h).2 = h) as Hpure by reflexivity.
  assert (ad_provisioning_chat demo_process "ad-00c0ffee" "unlock jdoe" ∅ =
            (inr {| action := "ad_provision"; result := "done: unlock jdoe";
                    agent := "AD_MCP_Agent" |},
             (ad_provisioning_chat demo_process "ad-00c0ffee" "unlock jdoe" ∅).2)) as Hrun
    by (vm_compute; reflexivity).
  destruct (Hplain _ _ Hk1) as (answer & Hchat & Hh1).
  destruct (Hfallback _ _ Hk2) as (added & Hh2 & _ & Hdetail).
  destruct (Hdetail _ _ Htry) as (-> & _).
  pose proof (Had _ _ _ _ _ Hpure Hrun) as Hh3.
  rewrite Hh1, Hh2, Hh3. clear Hh1 Hh2 Hh3 Hdetail.
  vm_compute in Hchat. injection Hchat as <-.
  repeat split; vm_compute; reflexivity.
Defined.

Module RegistryFacts.
Import Registry.

(** ** Discovery is not repeated *)

(** C7. When the global of an MCP agent holds an agent whose
    [available_tools] is not empty, the getter returns that agent and leaves
    the module state as it was: no effect is recorded (no connection, no
    service registration, no discovery), and the agent keeps its tools, its
    connections and its services.  [get_ad_agent], which initializes under
    its lock only, does the same. *)
Theorem discovered_agent_is_returned_untouched (r : registry) (a : agent) :
  available_tools a <> [] ->
  (globals r !! "_entra_agent" = Some a -> get_entra_agent r = (inr (Some a), r)) /\
  (globals r !! "_okta_agent" = Some a -> get_okta_agent r = (inr (Some a), r)) /\
  (globals r !! "_saviynt_agent" = Some a -> get_saviynt_agent r = (inr (Some a), r)) /\
  (globals r !! "_ad_agent" = Some a -> get_ad_agent r = (inr (Some a), r)).
Proof.
  intros Htools.
  destruct (available_tools a) as [|tool tools] eqn:Ht; [done|].
  repeat split; intros Hg.
  - unfold get_entra_agent, bind, read, ret. by repeat (rewrite ?Hg, ?Ht; simpl).
  - unfold get_okta_agent, bind, read, ret. by repeat (rewrite ?Hg, ?Ht; simpl).
  - unfold get_saviynt_agent, bind, read, ret. by repeat (rewrite ?Hg, ?Ht; simpl).
  - unfold get_ad_agent, bind, read, ret. by repeat (rewrite ?Hg, ?Ht; simpl).
Qed.


Lemma discovered_agent_is_returned_untouched_witness :
  get_entra_agent discovered_registry = (inr (Some discovered_agent), discovered_registry).
Proof.
  assert (available_tools discovered_agent <> []) as Htools by discriminate.
  destruct (discovered_agent_is_returned_untouched discovered_registry discovered_agent Htools)
    as (Hentra & _ & _ & _).
  apply Hentra. vm_compute. reflexivity.
Defined.

(** ** Failures on first access *)

Ltac run_getter Hg Ho :=
  unfold get_assistant, get_ad_agent, get_okta_agent, initialize, method, construct,
    assign, attempt, read, bind, ret, raise, with_globals;
  repeat first
    [ rewrite Hg | rewrite Ho | rewrite lookup_insert_eq | rewrite insert_insert_eq
    | progress simpl ];
  rewrite <-?app_assoc; try done.

(** When the constructor raises, nothing is stored and the next call calls
    the constructor again. *)
Lemma get_assistant_constructor_raises (r : registry) (e : exn) (rest : list (option exn)) :
  globals r !! "_assistant" = None ->
  outcomes r = Some e :: rest ->
  get_assistant r =
    (inl e, Reg (globals r) (constructed r) rest (discoveries r)
              (effects r ++ [Construct "IAMAssistant"])) /\
  get_assistant
    (Reg (globals r) (constructed r) (None :: rest) (discoveries r)
       (effects r ++ [Construct "IAMAssistant"])) =
    (inr (Some (Agent (constructed r) [] 0 [])),
     Reg (<["_assistant" := Agent (constructed r) [] 0 []]> (globals r))
       (S (constructed r)) rest (discoveries r)
       (effects r ++ [Construct "IAMAssistant"; Construct "IAMAssistant"])).
Proof.
  intros Hg Ho. split; run_getter Hg Ho.
Qed.

(** When [initialize] raises in [get_ad_agent], the agent is already
    stored: the call raises, the global keeps the agent without tools, and
    the next call returns it without any effect. *)
Lemma get_ad_agent_initialize_raises (r : registry) (e : exn) (rest : list (option exn)) :
  globals r !! "_ad_agent" = None ->
  outcomes r = None :: Some e :: rest ->
  let partial := Agent (constructed r) [] 0 [] in
  let r1 := Reg (<["_ad_agent" := partial]> (globals r)) (S (constructed r)) rest
              (discoveries r)
              (effects r ++ [Construct "ADAgentMCP"; Initialize "_ad_agent"]) in
  get_ad_agent r = (inl e, r1) /\
  get_ad_agent r1 = (inr (Some partial), r1).
Proof.
  intros Hg Ho. split; run_getter Hg Ho.
Qed.

(** When [initialize] raises in [get_okta_agent], the agent is stored as
    well, but the next call runs [initialize] again on it. *)
Lemma get_okta_agent_initialize_raises (r : registry) (e : exn) (rest : list (option exn)) :
  globals r !! "_okta_agent" = None ->
  outcomes r = None :: Some e :: None :: rest ->
  let partial := Agent (constructed r) [] 0 [] in
  let r1 := Reg (<["_okta_agent" := partial]> (globals r)) (S (constructed r))
              (None :: rest) (discoveries r)
              (effects r ++ [Construct "OktaAgentMCP"; Initialize "_okta_agent"]) in
  let ready := Agent (constructed r) (default [] (head (discoveries r))) 0 [] in
  get_okta_agent r = (inl e, r1) /\
  get_okta_agent r1 =
    (inr (Some ready),
     Reg (<["_okta_agent" := ready]> (globals r)) (S (constructed r)) rest
       (tl (discoveries r))
       (effects r ++ [Construct "OktaAgentMCP"; Initialize "_okta_agent";
                      Initialize "_okta_agent"])).
Proof.
  intros Hg Ho. split; run_getter Hg Ho.
Qed.

(** X28.  [get_ad_agent] assigns the global before it awaits
    [initialize]: when the constructor returns and [initialize] raises, the
    call raises, yet the global holds the agent, constructed and without
    tools; the next call finds the global set, constructs nothing,
    initializes nothing and returns that agent. *)
Theorem get_ad_agent_keeps_agent_whose_initialize_raised
    (r : registry) (e : exn) (rest : list (option exn)) :
  globals r !! "_ad_agent" = None ->
  outcomes r = None :: Some e :: rest ->
  exists (partial : agent) (r1 : registry),
    get_ad_agent r = (inl e, r1) /\
    globals r1 !! "_ad_agent" = Some partial /\
    available_tools partial = [] /\
    effects r1 = effects r ++ [Construct "ADAgentMCP"; Initialize "_ad_agent"] /\
    get_ad_agent r1 = (inr (Some partial), r1).
Proof.
  intros Hg Ho.
  destruct (get_ad_agent_initialize_raises r e rest Hg Ho) as [Hfirst Hnext].
  eexists _, _. split; [exact Hfirst|]. split; [apply lookup_insert_eq|].
  split; [done|]. split; [done|]. exact Hnext.
Qed.


Lemma get_ad_agent_keeps_agent_whose_initialize_raised_witness :
  (get_ad_agent (empty_registry [None; Some unreachable] [])).1 = inl unreachable /\
  globals (get_ad_agent (empty_registry [None; Some unreachable] [])).2 !! "_ad_agent" =
    Some (Agent 0 [] 0 []) /\
  (get_ad_agent (get_ad_agent (empty_registry [None; Some unreachable] [])).2).1 =
    inr (Some (Agent 0 [] 0 [])).
Proof.
  destruct (get_ad_agent_keeps_agent_whose_initialize_raised
              (empty_registry [None; Some unreachable] []) unreachable [])
    as (partial & r1 & Hfirst & Hg & Htools & _ & Hnext); [reflexivity | reflexivity |].
  rewrite Hfirst. simpl. rewrite Hnext. simpl.
  assert (partial = Agent 0 [] 0 []) as ->.
  { vm_compute in Hfirst. injection Hfirst as <-. vm_compute in Hg. by injection Hg as <-. }
  split; [reflexivity|]. split; [exact Hg | reflexivity].
Defined.

End RegistryFacts.

Module ThreadIdFacts.
Import ThreadIds.

Lemma hex_digit_inj (i j : nat) :
  i < 16 -> j < 16 -> hex_digit i = hex_digit j -> i = j.
Proof.
  intros Hi Hj H. unfold hex_digit in H.
  assert (List.NoDup hex_digits) as Hnodup.
  { apply NoDup_ListNoDup. compute_done. }
  assert (length hex_digits = 16) as Hlen by reflexivity.
  eapply (proj1 (List.NoDup_nth hex_digits "0"%char)); [done | lia | lia | done].
Qed.

Lemma hex_byte_inj (b1 b2 : byte) : hex_byte b1 = hex_byte b2 -> b1 = b2.
Proof.
  unfold hex_byte. intros H.
  assert (hex_digit (Byte.to_nat b1 / 16) = hex_digit (Byte.to_nat b2 / 16)) as Hhi
    by congruence.
  assert (hex_digit (Byte.to_nat b1 mod 16) = hex_digit (Byte.to_nat b2 mod 16)) as Hlo
    by congruence.
  clear H.
  pose proof (Byte.to_nat_bounded b1) as B1. pose proof (Byte.to_nat_bounded b2) as B2.
  apply hex_digit_inj in Hhi;
    [|apply Nat.Div0.div_lt_upper_bound; lia|apply Nat.Div0.div_lt_upper_bound; lia].
  apply hex_digit_inj in Hlo; [|apply Nat.mod_upper_bound; lia|apply Nat.mod_upper_bound; lia].
  assert (Byte.to_nat b1 = Byte.to_nat b2) as Heq.
  { rewrite (Nat.div_mod_eq (Byte.to_nat b1) 16), (Nat.div_mod_eq (Byte.to_nat b2) 16). lia. }
  pose proof (Byte.of_to_nat b1) as H1. rewrite Heq, Byte.of_to_nat in H1. congruence.
Qed.

Lemma hex_inj (bs1 bs2 : list byte) : hex bs1 = hex bs2 -> bs1 = bs2.
Proof.
  revert bs2. induction bs1 as [|b1 bs1 IH]; intros [|b2 bs2] H; try done.
  change (hex (b1 :: bs1)) with (hex_byte b1 +:+ hex bs1) in H.
  change (hex (b2 :: bs2)) with (hex_byte b2 +:+ hex bs2) in H.
  unfold hex_byte in H. rewrite !append_cons, !append_nil_l in H.
  f_equal; [|apply IH; congruence].
  apply hex_byte_inj. unfold hex_byte. congruence.
Qed.

Lemma append_inj_r (prefix s1 s2 : string) : prefix +:+ s1 = prefix +:+ s2 -> s1 = s2.
Proof.
  induction prefix as [|a prefix IH]; [done|]. rewrite !append_cons. intros H.
  injection H as H. by apply IH.
Qed.

Lemma create_threads_drawn (prefix : string) (n : nat) (e : entropy) :
  create_threads (client_side_id prefix) n e =
  map (fun i => prefix +:+ hex (drawn e i)) (seq 0 n).
Proof.
  revert e. induction n as [|n IH]; intros e; [done|].
  simpl create_threads. unfold client_side_id at 1, os_urandom.
  rewrite IH. cbn [seq map]. f_equal.
  rewrite <-seq_shift, map_map. apply map_ext. intros i.
  unfold drawn. do 2 f_equal.
  replace (4 * S i) with (4 + 4 * i) by lia.
  rewrite <-(fmap_add_seq 4). rewrite <-list_fmap_compose. done.
Qed.

Lemma create_threads_lookup (prefix : string) (n : nat) (e : entropy) (i : nat) (a : string) :
  create_threads (client_side_id prefix) n e !! i = Some a ->
  i < n /\ a = prefix +:+ hex (drawn e i).
Proof.
  rewrite create_threads_drawn. change map with (@fmap list _) at 1.
  rewrite list_lookup_fmap. intros H.
  destruct (seq 0 n !! i) as [k|] eqn:Hk; [|done].
  apply lookup_seq in Hk as [-> Hlt]. simpl in H. by simplify_eq.
Qed.

Lemma client_side_ids_equal_iff (prefix : string) (n : nat) (e : entropy) (i j : nat)
    (a b : string) :
  create_threads (client_side_id prefix) n e !! i = Some a ->
  create_threads (client_side_id prefix) n e !! j = Some b ->
  a = b <-> drawn e i = drawn e j.
Proof.
  intros [_ ->]%create_threads_lookup [_ ->]%create_threads_lookup. split.
  - intros H. by apply hex_inj, (append_inj_r prefix).
  - by intros ->.
Qed.

(** C8, as stated, fails: nothing keeps the operating system from handing
    out the same four bytes twice, and then two creations return the same
    identifier. *)
Lemma thread_ids_can_repeat :
  create_threads create_orchestrator_thread 2 stuck_entropy =
    ["orch-00000000"; "orch-00000000"] /\
  create_threads create_entra_agent_thread 2 stuck_entropy =
    ["entra-agent-00000000"; "entra-agent-00000000"] /\
  ~ (forall (e : entropy) (n : nat), NoDup (create_threads create_orchestrator_thread n e)).
Proof.
  split; [reflexivity|]. split; [reflexivity|].
  intros H. specialize (H stuck_entropy 2).
  apply NoDup_cons in H as [Hnotin _]. apply Hnotin. by left.
Qed.

(** C8, amended.  An identifier made by [create_orchestrator_thread] or by
    [create_entra_agent_thread] is the prefix of its endpoint followed by the
    eight hexadecimal digits of four random bytes; two creations of one
    endpoint return the same identifier exactly when they drew the same four
    bytes, and distinct identifiers exactly when the bytes differ. *)
Theorem thread_ids_differ_iff_random_bytes_differ (e : entropy) (n i j : nat) (a b : string) :
  (create_threads create_orchestrator_thread n e !! i = Some a ->
   create_threads create_orchestrator_thread n e !! j = Some b ->
   a = "orch-" +:+ hex (drawn e i) /\ b = "orch-" +:+ hex (drawn e j) /\
   (a <> b <-> drawn e i <> drawn e j)) /\
  (create_threads create_entra_agent_thread n e !! i = Some a ->
   create_threads create_entra_agent_thread n e !! j = Some b ->
   a = "entra-agent-" +:+ hex (drawn e i) /\ b = "entra-agent-" +:+ hex (drawn e j) /\
   (a <> b <-> drawn e i <> drawn e j)).
Proof.
  split; intros Ha Hb.
  - pose proof (client_side_ids_equal_iff _ _ _ _ _ _ _ Ha Hb) as Hiff.
    apply create_threads_lookup in Ha as [_ Ha], Hb as [_ Hb].
    split; [done|]. split; [done|]. by rewrite Hiff.
  - pose proof (client_side_ids_equal_iff _ _ _ _ _ _ _ Ha Hb) as Hiff.
    apply create_threads_lookup in Ha as [_ Ha], Hb as [_ Hb].
    split; [done|]. split; [done|]. by rewrite Hiff.
Qed.


Lemma thread_ids_differ_iff_random_bytes_differ_witness :
  create_threads create_orchestrator_thread 3 counting_entropy !! 0 = Some "orch-00010203" /\
  create_threads create_orchestrator_thread 3 counting_entropy !! 2 = Some "orch-08090a0b" /\
  ("orch-00010203" <> "orch-08090a0b" <->
   drawn counting_entropy 0 <> drawn counting_entropy 2).
Proof.
  assert (create_threads create_orchestrator_thread 3 counting_entropy !! 0 =
            Some "orch-00010203") as H0 by reflexivity.
  assert (create_threads create_orchestrator_thread 3 counting_entropy !! 2 =
            Some "orch-08090a0b") as H2 by reflexivity.
  destruct (thread_ids_differ_iff_random_bytes_differ counting_entropy 3 0 2
              "orch-00010203" "orch-08090a0b") as [Horch _].
  destruct (Horch H0 H2) as (_ & _ & Hiff).
  split; [exact H0|]. split; [exact H2 | exact Hiff].
Defined.

End ThreadIdFacts.

Module RaceFacts.
Import Race.

(** ** The invariant of the race *)

Lemma start_inv (n : nat) (outcomes : list (option exn)) (discoveries : list (list string)) :
  inv (start n outcomes discoveries).
Proof.
  unfold inv, start. simpl. split; [|split].
  - intros t p [-> _]%lookup_replicate. done.
  - by left.
  - intros t p [-> _]%lookup_replicate. done.
Qed.

Lemma inv_first_instance (c : config) (a : nat) :
  inv c -> slot c = Some a -> a = 0 /\ instances c = 1.
Proof.
  intros (_ & Hholder & _) Hslot.
  destruct (lock c) as [h|].
  - destruct Hholder as (p & _ & Hp).
    destruct p; try done; unfold agree in Hp; intuition congruence.
  - unfold agree in Hholder. intuition congruence.
Qed.

Lemma inv_instances (c : config) : inv c -> instances c <= 1.
Proof.
  intros (_ & Hholder & _).
  destruct (lock c) as [h|].
  - destruct Hholder as (p & _ & Hp).
    destruct p; try done; unfold agree in Hp; intuition lia.
  - unfold agree in Hholder. intuition lia.
Qed.

(** The holder of the lock is inside the [with] block. *)
Lemma inv_holder_in_with (c : config) (h : nat) :
  inv c -> lock c = Some h -> exists p, callers c !! h = Some p /\ in_with p = true.
Proof.
  intros (_ & Hholder & _) Hl. rewrite Hl in Hholder.
  destruct Hholder as (p & Hp & Hcase). exists p. split; [done|]. by destruct p.
Qed.

(** A step of a caller outside the [with] block that changes only where
    that caller stands. *)
Lemma goto_outside_inv (c : config) (t : nat) (p q : pc) :
  inv c -> callers c !! t = Some p -> in_with p = false -> in_with q = false ->
  match q with
  | CheckTools | Discover _ | Return => slot c = Some 0
  | Returned value => value = Some 0 /\ slot c = Some 0
  | _ => True
  end ->
  inv (goto t q c).
Proof.
  intros (Hlock & Hholder & Hret) Ht Hp Hq Hcase. unfold inv, goto. simpl.
  split; [|split].
  - intros t' p' [(<- & <- & _)|[Hne Hp']]%list_lookup_insert_Some Hw; [congruence | eauto].
  - destruct (lock c) as [h|]; [|done].
    destruct Hholder as (p0 & Hp0 & Hcase0). exists p0. split; [|done].
    rewrite list_lookup_insert_ne; [done|]. intros <-. simplify_eq. by destruct p0.
  - intros t' p' [(<- & <- & _)|[Hne Hp']]%list_lookup_insert_Some; [done|].
    by apply (Hret t').
Qed.

(** A step of the holder of the lock that stays inside the [with] block. *)
Lemma holder_step_inv (c c' : config) (t : nat) (q : pc) :
  inv c -> lock c = Some t -> lock c' = Some t ->
  callers c' = <[t := q]> (callers c) -> t < length (callers c) ->
  match q with
  | Recheck | Unwind _ => agree c'
  | Construct => slot c' = None /\ instances c' = 0
  | Store instance => instance = 0 /\ slot c' = None /\ instances c' = 1
  | InitializeLocked | Release => slot c' = Some 0 /\ instances c' = 1
  | _ => False
  end ->
  (slot c' = slot c \/ slot c = None) ->
  inv c'.
Proof.
  intros (Hlock & Hholder & Hret) Hl Hl' Hc' Hlt Hcase Hslot. unfold inv.
  rewrite Hl', Hc'. split; [|split].
  - intros t' p' [(<- & <- & _)|[Hne Hp']]%list_lookup_insert_Some Hw; [done|].
    specialize (Hlock _ _ Hp' Hw). congruence.
  - exists q. split; [by apply list_lookup_insert_eq | done].
  - intros t' p' [(<- & <- & _)|[Hne Hp']]%list_lookup_insert_Some.
    + by destruct q.
    + specialize (Hret _ _ Hp'). destruct Hslot as [->|Hnone]; [done|].
      rewrite Hnone in Hret. destruct p'; try done; intuition congruence.
Qed.

(** The holder of the lock leaves the [with] block. *)
Lemma release_inv (c c' : config) (t : nat) (q : pc) :
  inv c -> lock c = Some t -> lock c' = None ->
  callers c' = <[t := q]> (callers c) ->
  slot c' = slot c -> instances c' = instances c ->
  agree c -> in_with q = false ->
  match q with
  | CheckTools | Discover _ | Return => slot c = Some 0
  | Returned value => value = Some 0 /\ slot c = Some 0
  | _ => True
  end ->
  inv c'.
Proof.
  intros (Hlock & Hholder & Hret) Hl Hl' Hc' Hs Hi Hagree Hq Hcase. unfold inv.
  rewrite Hl', Hc'. split; [|split].
  - intros t' p' [(<- & <- & _)|[Hne Hp']]%list_lookup_insert_Some Hw; [congruence|].
    specialize (Hlock _ _ Hp' Hw). congruence.
  - unfold agree in *. by rewrite Hs, Hi.
  - rewrite Hs. intros t' p' [(<- & <- & _)|[Hne Hp']]%list_lookup_insert_Some; [done|].
    by apply (Hret t').
Qed.

Lemma step_inv (g : getter) (t : nat) (c c' : config) :
  inv c -> step g t c = Some c' -> inv c'.
Proof.
  intros Hinv Hstep. pose proof Hinv as (Hlock & Hholder & Hret).
  unfold step in Hstep.
  destruct (callers c !! t) as [p|] eqn:Ht; [|done].
  pose proof (lookup_lt_Some _ _ _ Ht) as Hlt.
  destruct p as [| | | |instance| | |e| |todo| |value|e]; try done.
  - (* Check *)
    simplify_eq. eapply goto_outside_inv; [done..| |].
    + by destruct (slot c), g.
    + destruct (slot c) as [a|] eqn:Hslot; [|done].
      destruct (inv_first_instance c a Hinv Hslot) as [-> _]. by destruct g.
  - (* Acquire *)
    destruct (lock c) as [h|] eqn:Hl; [done|]. simplify_eq.
    unfold inv. simpl. split; [|split].
    + intros t' p' [(<- & <- & _)|[Hne Hp']]%list_lookup_insert_Some Hw; [done|].
      specialize (Hlock _ _ Hp' Hw). congruence.
    + exists Recheck. split; [by apply list_lookup_insert_eq|done].
    + intros t' p' [(<- & <- & _)|[Hne Hp']]%list_lookup_insert_Some; [done|].
      by apply (Hret t').
  - (* Recheck *)
    simplify_eq. pose proof (Hlock _ _ Ht eq_refl) as Hl.
    rewrite Hl in Hholder. destruct Hholder as (p & Hp & Hcase). simplify_eq.
    eapply holder_step_inv; [done..| |by left].
    unfold agree in *. simpl in *. destruct (slot c); intuition congruence.
  - (* Construct *)
    pose proof (Hlock _ _ Ht eq_refl) as Hl.
    rewrite Hl in Hholder. destruct Hholder as (p & Hp & Hcase). simplify_eq.
    destruct Hcase as (Hslot & Hinst).
    destruct (outcomes c) as [|[e|] rest]; simplify_eq;
      (eapply holder_step_inv; [done..| |by left]); unfold agree; simpl;
      rewrite ?Hinst; auto.
  - (* Store *)
    simplify_eq. pose proof (Hlock _ _ Ht eq_refl) as Hl.
    rewrite Hl in Hholder. destruct Hholder as (p & Hp & Hcase). simplify_eq.
    destruct Hcase as (-> & Hslot & Hinst).
    eapply holder_step_inv; [done..| |by right]. by destruct g.
  - (* InitializeLocked *)
    pose proof (Hlock _ _ Ht eq_refl) as Hl.
    rewrite Hl in Hholder. destruct Hholder as (p & Hp & Hcase). simplify_eq.
    destruct (outcomes c) as [|[e|] rest]; simplify_eq;
      (eapply holder_step_inv; [done..| |by left]); unfold agree; simpl; auto.
  - (* Release *)
    simplify_eq. pose proof (Hlock _ _ Ht eq_refl) as Hl.
    rewrite Hl in Hholder. destruct Hholder as (p & Hp & Hcase). simplify_eq.
    eapply release_inv; [done..| | |]; [by right | by destruct g | by destruct g; intuition].
  - (* Unwind *)
    simplify_eq. pose proof (Hlock _ _ Ht eq_refl) as Hl.
    rewrite Hl in Hholder. destruct Hholder as (p & Hp & Hcase). simplify_eq.
    by eapply release_inv.
  - (* CheckTools *)
    pose proof (Hret _ _ Ht) as Hslot. simpl in Hslot.
    destruct (tools c), g; simplify_eq; by eapply goto_outside_inv.
  - (* Discover *)
    pose proof (Hret _ _ Ht) as Hslot. simpl in Hslot.
    assert (inv (called c)) as Hinv1 by done.
    assert (inv (discovered (called c))) as Hinv2 by done.
    destruct (outcomes c) as [|[e|] rest]; [|by simplify_eq; eapply goto_outside_inv|];
      destruct todo as [|[|todo']]; simplify_eq; by eapply goto_outside_inv.
  - (* Return *)
    simplify_eq. pose proof (Hret _ _ Ht) as Hslot. simpl in Hslot.
    by eapply goto_outside_inv.
Qed.

(** ** Steps, progress and the end of the race *)

Lemma tl_quiet (l : list (option exn)) : Forall (eq None) l -> Forall (eq None) (tl l).
Proof. intros H. destruct l; [done|]. by apply Forall_cons in H as [_ ?]. Qed.

Lemma step_callers (g : getter) (t : nat) (c c' : config) :
  step g t c = Some c' ->
  exists p q, callers c !! t = Some p /\ callers c' = <[t := q]> (callers c) /\
    weight g q < weight g p /\
    (Forall (eq None) (outcomes c) ->
     match p with Unwind _ | Raised _ => False | _ => True end ->
     Forall (eq None) (outcomes c') /\
     match q with Unwind _ | Raised _ => False | _ => True end).
Proof.
  unfold step. intros H.
  destruct (callers c !! t) as [p|] eqn:Ht; [|done].
  exists p.
  destruct p as [| | | |instance| | |e| |todo| |value|e]; try done.
  - simplify_eq. eexists. repeat split; try done; destruct (slot c), g; simpl; lia.
  - destruct (lock c); [done|]. simplify_eq. eexists. repeat split; try done. simpl. lia.
  - simplify_eq. eexists. repeat split; try done; destruct (slot c), g; simpl; lia.
  - destruct (outcomes c) as [|[e|] rest] eqn:Ho; simplify_eq; eexists;
      (split; [done|]); (split; [done|]); (split; [destruct g; simpl; lia|]); intros Hq _;
      try (by apply Forall_cons in Hq as [? _]);
      (split; [simpl; rewrite ?Ho; simpl;
                 first [by apply Forall_nil | by apply Forall_cons in Hq as [_ ?]] | done]).
  - simplify_eq. eexists. repeat split; try done; destruct g; simpl; lia.
  - destruct (outcomes c) as [|[e|] rest] eqn:Ho; simplify_eq; eexists;
      (split; [done|]); (split; [done|]); (split; [destruct g; simpl; lia|]); intros Hq _;
      try (by apply Forall_cons in Hq as [? _]);
      (split; [simpl; rewrite ?Ho; simpl;
                 first [by apply Forall_nil | by apply Forall_cons in Hq as [_ ?]] | done]).
  - simplify_eq. eexists. repeat split; try done; destruct g; simpl; lia.
  - simplify_eq. eexists. repeat split; try done; destruct g; simpl; lia.
  - destruct (tools c), g; simplify_eq; eexists; repeat split; try done; simpl; lia.
  - destruct (outcomes c) as [|[e|] rest] eqn:Ho;
      destruct todo as [|[|todo']]; simplify_eq; eexists;
      (split; [done|]); (split; [done|]); (split; [simpl; lia|]); intros Hq _;
      try (by apply Forall_cons in Hq as [? _]);
      (split; [simpl; rewrite ?Ho; simpl;
                 first [by apply Forall_nil | by apply Forall_cons in Hq as [_ ?]] | done]).
  - simplify_eq. eexists. repeat split; try done; destruct g; simpl; lia.
Qed.

Lemma step_length (g : getter) (t : nat) (c c' : config) :
  step g t c = Some c' -> length (callers c') = length (callers c).
Proof. intros (p & q & _ & -> & _)%step_callers. apply length_insert. Qed.

Lemma step_quiet (g : getter) (t : nat) (c c' : config) :
  quiet c -> step g t c = Some c' -> quiet c'.
Proof.
  intros [Hout Hcallers] (p & q & Ht & Hc' & _ & Hq)%step_callers.
  destruct (Hq Hout (Hcallers _ _ Ht)) as [Hout' Hq']. split; [done|]. rewrite Hc'.
  intros t' p' [(<- & <- & _)|[Hne Hp']]%list_lookup_insert_Some; [done|].
  by apply (Hcallers t').
Qed.

Lemma sum_list_weight_insert (g : getter) (l : list pc) (t : nat) (p q : pc) :
  l !! t = Some p ->
  sum_list (weight g <$> <[t := q]> l) + weight g p = sum_list (weight g <$> l) + weight g q.
Proof.
  revert t. induction l as [|x l IH]; intros [|t] H; simplify_eq; csimpl in *.
  - simplify_eq. lia.
  - specialize (IH _ H). lia.
Qed.

Lemma step_remaining (g : getter) (t : nat) (c c' : config) :
  step g t c = Some c' -> remaining g c' < remaining g c.
Proof.
  intros (p & q & Ht & Hc' & Hw & _)%step_callers. unfold remaining. rewrite Hc'.
  pose proof (sum_list_weight_insert g _ _ _ q Ht). lia.
Qed.

(** No deadlock: while a caller is still in the getter, some caller can
    step. *)
Lemma progress (g : getter) (c : config) (t : nat) (p : pc) :
  inv c -> callers c !! t = Some p -> finished p = false ->
  exists t' c', step g t' c = Some c'.
Proof.
  intros Hinv Ht Hp.
  assert (forall t' p', callers c !! t' = Some p' -> finished p' = false -> p' <> Acquire ->
            exists c', step g t' c = Some c') as Hfree.
  { intros t' p' Ht' Hp' Hacq. unfold step. rewrite Ht'.
    destruct p' as [| | | |instance| | |e| |todo| |value|e]; try done; try by eexists.
    - destruct (outcomes c) as [|[e|] rest]; by eexists.
    - destruct (outcomes c) as [|[e|] rest]; by eexists.
    - destruct (tools c), g; by eexists.
    - destruct (outcomes c) as [|[e|] rest]; destruct todo as [|[|todo']]; by eexists. }
  assert (p = Acquire \/ p <> Acquire) as [->|Hne]
    by (destruct p; (by left) || (by right)).
  2:{ exists t. by eapply Hfree. }
  destruct (lock c) as [h|] eqn:Hl.
  - destruct (inv_holder_in_with c h Hinv Hl) as (q & Hq & Hw).
    exists h. eapply Hfree; [done| |]; by destruct q.
  - exists t. unfold step. rewrite Ht, Hl. by eexists.
Qed.

Lemma run_inv (g : getter) (schedule : list nat) (c : config) :
  inv c -> inv (run g schedule c).
Proof.
  revert c. induction schedule as [|t schedule IH]; intros c Hinv; [done|].
  simpl. apply IH. destruct (step g t c) as [c'|] eqn:Hstep; [|done].
  by eapply step_inv.
Qed.

Lemma run_quiet (g : getter) (schedule : list nat) (c : config) :
  quiet c -> quiet (run g schedule c).
Proof.
  revert c. induction schedule as [|t schedule IH]; intros c Hq; [done|].
  simpl. apply IH. destruct (step g t c) as [c'|] eqn:Hstep; [|done].
  by eapply step_quiet.
Qed.

Lemma run_length (g : getter) (schedule : list nat) (c : config) :
  length (callers (run g schedule c)) = length (callers c).
Proof.
  revert c. induction schedule as [|t schedule IH]; intros c; [done|].
  simpl. rewrite IH. destruct (step g t c) as [c'|] eqn:Hstep; [|done].
  by eapply step_length.
Qed.

Lemma start_quiet (n : nat) (outcomes : list (option exn)) (discoveries : list (list string)) :
  Forall (eq None) outcomes -> quiet (start n outcomes discoveries).
Proof.
  intros H. split; [done|]. intros t p [-> _]%lookup_replicate. done.
Qed.

(** C3, amended.  Whatever the shape of the getter, the number [n] of
    callers that arrive while the global is [None] and the order in which
    their steps interleave: at most one constructor call has returned;
    every caller that has returned has returned the first instance, and
    then exactly one instance was made; while a caller is still in the
    getter some caller can step, and every step brings the callers closer
    to the end, so that the race ends; and when no call raises, no caller
    raises, so that at the end all [n] callers have returned the same
    instance, the only one made. *)
Theorem racing_callers_share_the_first_instance
    (g : getter) (n : nat) (outcomes : list (option exn)) (discoveries : list (list string))
    (schedule : list nat) :
  let c := run g schedule (start n outcomes discoveries) in
  length (callers c) = n /\
  instances c <= 1 /\
  (forall t value, callers c !! t = Some (Returned value) ->
     value = Some 0 /\ instances c = 1) /\
  (forall t p, callers c !! t = Some p -> finished p = false ->
     exists t' c', step g t' c = Some c' /\ remaining g c' < remaining g c) /\
  (Forall (eq None) outcomes ->
   (forall t e, callers c !! t <> Some (Raised e)) /\
   ((forall t, step g t c = None) ->
    callers c = replicate n (Returned (Some 0)) /\ (0 < n -> instances c = 1))).
Proof.
  intros c.
  assert (inv c) as Hinv by apply run_inv, start_inv.
  assert (length (callers c) = n) as Hlen.
  { unfold c. rewrite run_length. simpl. apply length_replicate. }
  split; [done|]. split; [by apply inv_instances|].
  assert (forall t value, callers c !! t = Some (Returned value) ->
            value = Some 0 /\ instances c = 1) as Hreturned.
  { intros t value Ht. destruct Hinv as (Hlock & Hholder & Hret).
    destruct (Hret _ _ Ht) as [-> Hslot]. split; [done|].
    by destruct (inv_first_instance c 0 (conj Hlock (conj Hholder Hret)) Hslot). }
  split; [done|]. split.
  { intros t p Ht Hp. destruct (progress g c t p Hinv Ht Hp) as (t' & c' & Hstep).
    exists t', c'. split; [done|]. by eapply step_remaining. }
  intros Hok.
  assert (quiet c) as [_ Hq] by apply run_quiet, start_quiet, Hok.
  split.
  { intros t e Ht. by apply (Hq t (Raised e)). }
  intros Hstuck.
  assert (forall t p, callers c !! t = Some p -> p = Returned (Some 0)) as Hall.
  { intros t p Ht. destruct (finished p) eqn:Hp.
    - destruct p; try done.
      + by destruct (Hreturned _ _ Ht) as [-> _].
      + pose proof (Hq _ _ Ht) as Hf. done.
    - destruct (progress g c t p Hinv Ht Hp) as (t' & c' & Hstep).
      by rewrite Hstuck in Hstep. }
  split.
  - apply list_eq. intros i. destruct (callers c !! i) as [p|] eqn:Hi.
    + rewrite (Hall _ _ Hi). symmetry. apply lookup_replicate. split; [done|].
      rewrite <-Hlen. by eapply lookup_lt_Some.
    + symmetry. apply lookup_replicate_None. rewrite <-Hlen. by apply lookup_ge_None.
  - intros Hn. destruct (callers c !! 0) as [p|] eqn:H0.
    + rewrite (Hall _ _ H0) in H0. by destruct (Hreturned _ _ H0).
    + apply lookup_ge_None in H0. lia.
Qed.

Lemma racing_callers_share_the_first_instance_witness :
  callers (run (DiscoverAfterwards 1) (round_robin 12) (start 3 [] [["list_users"]])) =
    [Returned (Some 0); Returned (Some 0); Returned (Some 0)] /\
  instances (run (DiscoverAfterwards 1) (round_robin 12) (start 3 [] [["list_users"]])) = 1.
Proof.
  destruct (racing_callers_share_the_first_instance (DiscoverAfterwards 1) 3 []
              [["list_users"]] (round_robin 12)) as (_ & _ & _ & _ & Hquiet).
  destruct (Hquiet (List.Forall_nil _)) as [_ Hend].
  assert (forall t,
            step (DiscoverAfterwards 1) t
              (run (DiscoverAfterwards 1) (round_robin 12) (start 3 [] [["list_users"]])) =
            None) as Hstuck
    by (intros [|[|[|t]]]; reflexivity).
  destruct (Hend Hstuck) as [Hcallers Hone].
  split; [exact Hcallers | apply Hone; lia].
Defined.

(** C3, as stated, fails when a constructor raises: of two callers of
    [get_assistant] the first raises and the second returns the only
    instance; the race is over, and not all callers have returned. *)
Lemma racing_caller_can_raise :
  let c := run ConstructorOnly first_then_second (start 2 [Some missing_connection] []) in
  callers c = [Raised missing_connection; Returned (Some 0)] /\
  instances c = 1 /\
  forall t, step ConstructorOnly t c = None.
Proof.
  split; [vm_compute; reflexivity|]. split; [vm_compute; reflexivity|].
  intros [|[|t]]; vm_compute; reflexivity.
Qed.

End RaceFacts.

(** * More on [chat_on_thread] *)

(** Whatever the outcome of the retry: its requests are a prefix of the five
    of the retry, it adds at most the new thread, and it leaves every thread
    it found, the original one apart, as it was. *)
Lemma retry_turn_trace self thread_id user_query w1 res w' (h1 : list message) :
  threads w1 !! thread_id = Some h1 ->
  retry_turn self thread_id user_query w1 = (res, w') ->
  exists (n : nat) (fallback_response : string),
    1 <= n /\
    calls w' = calls w1 ++
      take n (retry_calls self thread_id user_query (fresh (dom (threads w1)))
                fallback_response) /\
    (dom (threads w') = dom (threads w1) \/
     dom (threads w') = {[fresh (dom (threads w1))]} ∪ dom (threads w1)) /\
    (forall k, k <> thread_id -> k ∈ dom (threads w1) ->
       threads w' !! k = threads w1 !! k).
Proof.
  intros Hh1 H. unfold retry_turn, bind in H.
  destruct (create_thread w1) as [ra wa] eqn:Ha.
  apply create_thread_any in Ha as [Ca Ta].
  destruct ra as [e'|temp_thread].
  { simplify_eq. exists 1, "". rewrite Ta. split; [lia|]. split; [done|]. split; [by left|done]. }
  destruct Ta as [-> Ta].
  set (temp_thread := fresh (dom (threads w1))) in *.
  assert (temp_thread ∉ dom (threads w1)) as Hfresh by apply is_fresh.
  assert (temp_thread <> thread_id) as Hne.
  { intros Heq. apply Hfresh. rewrite Heq. by eapply elem_of_dom_2. }
  assert (dom (threads wa) = {[temp_thread]} ∪ dom (threads w1)) as Da
    by (rewrite Ta; apply dom_insert_L).
  assert (forall k, k ∈ dom (threads w1) -> threads wa !! k = threads w1 !! k) as Oa.
  { intros k Hk. rewrite Ta. apply lookup_insert_ne. intros <-. done. }
  destruct (create_message _ _ _ wa) as [rb wb] eqn:Hb.
  apply create_message_any in Hb as [Cb Ab].
  assert (dom (threads wb) = {[temp_thread]} ∪ dom (threads w1)) as Db
    by (by rewrite (appended_dom _ _ _ _ Ab)).
  assert (forall k, k ∈ dom (threads w1) -> threads wb !! k = threads w1 !! k) as Ob.
  { intros k Hk. rewrite (appended_other _ _ _ _ _ Ab); [by apply Oa|]. intros ->. done. }
  destruct rb as [e'|[]].
  { simplify_eq. exists 2, "". split; [lia|]. split; [by rewrite Cb, Ca, <-app_assoc|].
    split; [by right|]. intros k _ Hk. by apply Ob. }
  destruct (create_and_process_run _ _ wb) as [rc wc] eqn:Hc.
  apply create_and_process_run_any in Hc as [Cc Ac].
  assert (dom (threads wc) = {[temp_thread]} ∪ dom (threads w1)) as Dc
    by (by rewrite (appended_dom _ _ _ _ Ac)).
  assert (forall k, k ∈ dom (threads w1) -> threads wc !! k = threads w1 !! k) as Oc.
  { intros k Hk. rewrite (appended_other _ _ _ _ _ Ac); [by apply Ob|]. intros ->. done. }
  destruct rc as [e'|[]].
  { simplify_eq. exists 3, "". split; [lia|].
    split; [by rewrite Cc, Cb, Ca, <-!app_assoc|].
    split; [by right|]. intros k _ Hk. by apply Oc. }
  destruct (list_messages _ wc) as [rd wd] eqn:Hd.
  apply list_messages_any in Hd as [Cd Td].
  destruct rd as [e'|ms].
  { simplify_eq. exists 4, "". split; [lia|].
    split; [by rewrite Cd, Cc, Cb, Ca, <-!app_assoc|].
    rewrite Td. split; [by right|]. intros k _ Hk. by apply Oc. }
  destruct (create_message _ _ _ wd) as [re we] eqn:He.
  apply create_message_any in He as [Ce Ae].
  assert (w' = we) as -> by (destruct re as [?|[]]; unfold ret in H; by simplify_eq).
  exists 5, (default no_fallback_response (get_last_text_message_by_role Assistant ms)).
  split; [lia|]. split; [by rewrite Ce, Cd, Cc, Cb, Ca, <-!app_assoc|].
  split; [right; by rewrite (appended_dom _ _ _ _ Ae), Td|].
  intros k Hk Hin. rewrite (appended_other _ _ _ _ _ Ae) by done. rewrite Td. by apply Oc.
Qed.

(** The primary turn, whatever its outcome: one to three requests. *)
Lemma primary_turn_trace self thread_id user_query w res w1 :
  primary_turn self thread_id user_query w = (res, w1) ->
  exists (n : nat) (added : list message),
    1 <= n <= 3 /\
    (if res is inr _ then n = 3 else True) /\
    calls w1 = calls w ++ take n (primary_calls self thread_id user_query) /\
    appended thread_id w w1 added /\
    length added <= 2.
Proof.
  unfold primary_turn, bind. intros H.
  destruct (create_message _ _ _ w) as [ra wa] eqn:Ha.
  apply create_message_any in Ha as [Ca Aa].
  destruct ra as [e|[]].
  { simplify_eq. exists 1, []. simpl. repeat split; try done; lia. }
  destruct (create_and_process_run _ _ wa) as [rb wb] eqn:Hb.
  apply create_and_process_run_any in Hb as [Cb Ab].
  pose proof (answered_length wa) as Hlen.
  destruct rb as [e|[]].
  { simplify_eq. exists 2, ([Message User user_query] ++ []).
    split; [lia|]. split; [done|]. split; [by rewrite Cb, Ca, <-app_assoc|].
    split; [by eapply appended_trans | simpl; lia]. }
  destruct (list_messages _ wb) as [rc wc] eqn:Hc.
  apply list_messages_any in Hc as [Cc Tc].
  assert (w1 = wc) as -> by (destruct rc; unfold ret in H; by simplify_eq).
  exists 3, (([Message User user_query] ++ answered wa) ++ []).
  split; [lia|]. split; [by destruct res|].
  split; [by rewrite Cc, Cb, Ca, <-!app_assoc|].
  split.
  - eapply appended_trans; [by eapply appended_trans|]. by apply appended_nil.
  - rewrite app_nil_r. simpl. lia.
Qed.

(** X1.  Whatever the service answers and whichever request fails,
    [chat_on_thread] only appends: every thread that exists before the call
    holds afterwards its old messages followed by at most three new ones,
    and a thread other than the one the call was made on holds exactly its
    old messages. *)
Theorem chat_on_thread_only_appends_to_its_thread self thread_id user_query w k
    (h : list message) :
  threads w !! k = Some h ->
  exists added : list message,
    threads (chat_on_thread self thread_id user_query w).2 !! k = Some (h ++ added) /\
    length added <= 3 /\
    (k <> thread_id -> added = []).
Proof.
  intros Hk. rewrite chat_on_thread_world, chat_on_thread_try_split. unfold bind.
  destruct (primary_turn self thread_id user_query w) as [res w1] eqn:Hp.
  pose proof Hp as (n & added & _ & _ & _ & Ha & Hlen)%primary_turn_trace.
  assert (exists added1, threads w1 !! k = Some (h ++ added1) /\ length added1 <= 2 /\
            (k <> thread_id -> added1 = [])) as (added1 & Hk1 & Hlen1 & Hother1).
  { destruct (decide (k = thread_id)) as [->|Hne].
    - exists added. by rewrite (appended_lookup _ _ _ _ _ Ha Hk).
    - exists []. rewrite app_nil_r, (appended_other _ _ _ _ _ Ha) by done.
      split; [done|]. split; [simpl; lia | done]. }
  assert (exists added : list message,
            threads w1 !! k = Some (h ++ added) /\ length added <= 3 /\
            (k <> thread_id -> added = [])) as Hstay.
  { exists added1. split; [done|]. split; [lia | done]. }
  destruct res as [e|response_text]; [done|].
  destruct (is_refusal response_text); [|done].
  apply primary_turn_inr in Hp as (h0 & Hh0 & _).
  pose proof (appended_lookup _ _ _ _ _ Ha Hh0) as Hh1.
  destruct (retry_turn self thread_id user_query w1) as [res' w'] eqn:Hr. simpl.
  destruct (decide (k = thread_id)) as [->|Hne].
  - pose proof (retry_turn_any _ _ _ _ _ _ _ Hh1 Hr) as Hw'.
    rewrite Hk1 in Hh1. simplify_eq.
    eexists. rewrite Hw', <-app_assoc. split; [done|]. split; [|done].
    rewrite length_app. destruct res'; simpl; lia.
  - pose proof (retry_turn_trace _ _ _ _ _ _ _ Hh1 Hr) as (_ & _ & _ & _ & _ & Hothers).
    exists []. rewrite Hothers by (done || by eapply elem_of_dom_2).
    rewrite Hk1, (Hother1 Hne). split; [done|]. split; [simpl; lia | done].
Qed.

(** X2.  The requests of one call are a non-empty prefix of the three
    requests of the primary turn followed by the five of the retry, in that
    order, the retry running on the identifier that was fresh when the call
    began; the call creates at most that one thread and removes none. *)
Theorem chat_on_thread_sends_a_prefix_of_its_requests self thread_id user_query w :
  exists (n : nat) (fallback_response : string),
    1 <= n /\
    calls (chat_on_thread self thread_id user_query w).2 =
      calls w ++
      take n (primary_calls self thread_id user_query ++
              retry_calls self thread_id user_query (fresh (dom (threads w)))
                fallback_response) /\
    (dom (threads (chat_on_thread self thread_id user_query w).2) = dom (threads w) \/
     dom (threads (chat_on_thread self thread_id user_query w).2) =
       {[fresh (dom (threads w))]} ∪ dom (threads w)).
Proof.
  rewrite chat_on_thread_world, chat_on_thread_try_split. unfold bind.
  destruct (primary_turn self thread_id user_query w) as [res w1] eqn:Hp.
  pose proof Hp as (n & added & Hn & Hres & Hcalls & Ha & _)%primary_turn_trace.
  pose proof (appended_dom _ _ _ _ Ha) as Hdom.
  assert (exists (n : nat) (fallback_response : string),
            1 <= n /\
            calls w1 = calls w ++
              take n (primary_calls self thread_id user_query ++
                      retry_calls self thread_id user_query (fresh (dom (threads w)))
                        fallback_response) /\
            (dom (threads w1) = dom (threads w) \/
             dom (threads w1) = {[fresh (dom (threads w))]} ∪ dom (threads w))) as Hstop.
  { exists n, "". split; [lia|]. split; [|by left].
    rewrite take_app_le by (simpl; lia). done. }
  destruct res as [e|response_text]; [done|].
  destruct (is_refusal response_text); [|done].
  subst n. apply primary_turn_inr in Hp as (h0 & Hh0 & _).
  pose proof (appended_lookup _ _ _ _ _ Ha Hh0) as Hh1.
  destruct (retry_turn self thread_id user_query w1) as [res' w'] eqn:Hr. simpl.
  pose proof (retry_turn_trace _ _ _ _ _ _ _ Hh1 Hr) as (m & fb & Hm & Hcalls' & Hdom' & _).
  rewrite Hdom in Hcalls', Hdom'.
  exists (3 + m), fb. split; [lia|]. split; [|done].
  by rewrite Hcalls', Hcalls, <-app_assoc.
Qed.

Lemma chat_on_thread_raised self thread_id user_query w e w' :
  chat_on_thread_try self thread_id user_query w = (inl e, w') ->
  chat_on_thread self thread_id user_query w = (error_reply e, w').
Proof.
  intros H. unfold chat_on_thread. rewrite H.
  destruct e as [msg|msg]; simpl; [by destruct (contains _ msg) | done].
Qed.

(** ** Exceptions never leave [chat_on_thread] *)

Lemma fault_drop n w w1 k : faults w1 = drop n (faults w) -> fault k w1 = fault (n + k) w.
Proof. intros H. unfold fault. by rewrite H, lookup_drop. Qed.

Lemma traced_weaken {A} lo (m : M A) : traced lo m -> traced 0 m.
Proof. intros H w. destruct (H w) as (n & _ & Hn). exists n. split; [lia | done]. Qed.

Lemma traced_bind {A B} lo (m : M A) (k : A -> M B) :
  traced lo m -> (forall x, traced 0 (k x)) -> traced lo (bind m k).
Proof.
  intros Hm Hk w. destruct (Hm w) as (n1 & Hlo & Hc & Hf & Hq & Hres).
  unfold bind. destruct (m w) as [[e|x] w1]; simpl in *.
  - exists n1. by repeat split.
  - destruct (Hk x w1) as (n2 & _ & Hc2 & Hf2 & Hq2 & Hres2).
    assert (forall j, fault j w1 = fault (n1 + j) w) as Hshift
      by (intros j; by apply fault_drop).
    assert (forall j, S j < n1 + n2 -> fault j w = None) as Hquiet.
    { intros j Hj. destruct (decide (j < n1)) as [Hlt|Hge]; [by apply Hres|].
      replace j with (n1 + (j - n1)) by lia. rewrite <-Hshift. apply Hq2. lia. }
    exists (n1 + n2). split; [lia|]. split; [lia|].
    split; [by rewrite Hf2, Hf, drop_drop|]. split; [done|].
    destruct (k x w1) as [[e|y] w2]; simpl in *.
    + destruct Hres2 as [[Hpos Hlast]|[Hnone Ht]].
      * left. split; [lia|]. rewrite Hshift in Hlast.
        by replace (n1 + n2 - 1) with (n1 + (n2 - 1)) by lia.
      * right. split; [|done]. intros j Hj.
        destruct (decide (j < n1)) as [Hlt|Hge]; [by apply Hres|].
        replace j with (n1 + (j - n1)) by lia. rewrite <-Hshift. apply Hnone. lia.
    + intros j Hj. destruct (decide (j < n1)) as [Hlt|Hge]; [by apply Hres|].
      replace j with (n1 + (j - n1)) by lia. rewrite <-Hshift. apply Hres2. lia.
Qed.

Lemma traced_ret {A} (x : A) : traced 0 (ret x).
Proof.
  intros w. exists 0. split; [done|]. split; [simpl; lia|]. split; [by rewrite drop_0|].
  split; intros; simpl in *; lia.
Qed.

Lemma traced_request c : traced 1 (request c).
Proof.
  intros w. exists 1. split; [done|]. unfold request, sent, fault.
  destruct (faults w) as [|[e|] rest] eqn:Hf; simpl; rewrite ?length_app, ?Hf; simpl;
    (split; [lia|]); (split; [by rewrite ?drop_0|]); (split; [intros; lia|]).
  - by intros [|k] Hk.
  - left. split; [lia | done].
  - intros [|k] Hk; [done | lia].
Qed.

Lemma traced_get_thread thread_id : traced 0 (get_thread thread_id).
Proof.
  intros w. exists 0. split; [done|]. unfold get_thread, sent.
  destruct (threads w !! thread_id) eqn:Hthread; simpl;
    (split; [lia|]); (split; [by rewrite drop_0|]); (split; [intros; lia|]).
  - intros; lia.
  - right. split; [intros; lia | by exists thread_id].
Qed.

Lemma traced_set_thread thread_id h : traced 0 (set_thread thread_id h).
Proof.
  intros w. exists 0. split; [done|]. split; [simpl; lia|]. split; [by rewrite drop_0|].
  split; intros; simpl in *; lia.
Qed.

Lemma traced_next_reply : traced 0 next_reply.
Proof.
  intros w. exists 0. split; [done|]. unfold next_reply, sent.
  destruct (replies w); simpl; (split; [lia|]); (split; [by rewrite drop_0|]);
    split; intros; lia.
Qed.

Lemma traced_create_thread : traced 1 create_thread.
Proof.
  unfold create_thread. apply traced_bind; [apply traced_request|]. intros _ w.
  exists 0. split; [done|]. split; [simpl; lia|]. split; [by rewrite drop_0|].
  split; intros; simpl in *; lia.
Qed.

Lemma traced_create_message thread_id r text : traced 1 (create_message thread_id r text).
Proof.
  unfold create_message. apply traced_bind; [apply traced_request|]. intros _.
  apply traced_bind; [apply traced_get_thread|]. intros h. apply traced_set_thread.
Qed.

Lemma traced_create_and_process_run thread_id assistant_id :
  traced 1 (create_and_process_run thread_id assistant_id).
Proof.
  unfold create_and_process_run. apply traced_bind; [apply traced_request|]. intros _.
  apply traced_bind; [apply traced_get_thread|]. intros h.
  apply traced_bind; [apply traced_next_reply|]. intros [text|];
    [apply traced_set_thread | apply traced_ret].
Qed.

Lemma traced_list_messages thread_id : traced 1 (list_messages thread_id).
Proof.
  unfold list_messages. apply traced_bind; [apply traced_request|]. intros _.
  apply traced_bind; [apply traced_get_thread|]. intros h. apply traced_ret.
Qed.

Lemma traced_chat_on_thread_try self thread_id user_query :
  traced 1 (chat_on_thread_try self thread_id user_query).
Proof.
  unfold chat_on_thread_try.
  apply traced_bind; [apply traced_create_message|]. intros _.
  apply traced_bind; [eapply traced_weaken, traced_create_and_process_run|]. intros _.
  apply traced_bind; [eapply traced_weaken, traced_list_messages|]. intros messages.
  simpl. destruct (is_refusal _); [|apply traced_ret].
  apply traced_bind; [eapply traced_weaken, traced_create_thread|]. intros temp_thread.
  apply traced_bind; [eapply traced_weaken, traced_create_message|]. intros _.
  apply traced_bind; [eapply traced_weaken, traced_create_and_process_run|]. intros _.
  apply traced_bind; [eapply traced_weaken, traced_list_messages|]. intros temp_messages.
  simpl. apply traced_bind; [eapply traced_weaken, traced_create_message|]. intros _.
  apply traced_ret.
Qed.

(** C10. Whatever the service holds and whichever requests it fails, with
    whatever exception, [chat_on_thread] returns a string.  It sends at
    least one request and stops at the first that raises.  When that
    request raises a [ServiceResponseError], the string is the
    connection-lost message if the text of the error contains "Remote end
    closed connection without response" and "❌ Service error: " followed by
    the text otherwise; when it raises any other exception, the string is
    "❌ Unexpected error occurred: " followed by the text of the exception.
    When no request raises, the string is the reply of the [try] block,
    unless the service does not hold a thread it is asked about, whose
    error is answered like any other exception. *)
Theorem chat_on_thread_answers_every_exception self thread_id user_query w :
  exists (reply : string) (w' : world) (n : nat),
    chat_on_thread self thread_id user_query w = (reply, w') /\
    1 <= n /\
    length (calls w') = length (calls w) + n /\
    faults w' = drop n (faults w) /\
    (forall k, S k < n -> fault k w = None) /\
    match fault (n - 1) w with
    | Some (ServiceResponseError msg) =>
        (contains "Remote end closed connection without response" msg = true /\
         reply = "❌ Connection to Azure AI service lost. Please try again.") \/
        (contains "Remote end closed connection without response" msg = false /\
         reply = "❌ Service error: " +:+ msg)
    | Some (OtherException msg) =>
        reply = "❌ Unexpected error occurred: " +:+ msg /\
        String.prefix "❌ Unexpected error occurred:" reply = true /\
        contains msg reply = true
    | None =>
        chat_on_thread_try self thread_id user_query w = (inr reply, w') \/
        exists t : string,
          chat_on_thread_try self thread_id user_query w = (inl (no_such_thread t), w') /\
          threads w' !! t = None /\
          reply = "❌ Unexpected error occurred: (None) No thread found with id '" +:+ t +:+ "'."
    end.
Proof.
  destruct (traced_chat_on_thread_try self thread_id user_query w)
    as (n & Hn & Hcalls & Hfaults & Hquiet & Hres).
  destruct (chat_on_thread_try self thread_id user_query w) as [[e|reply] w'] eqn:Htry;
    cbn [fst snd] in *.
  - exists (error_reply e), w', n. split; [by apply chat_on_thread_raised|].
    split; [done|]. split; [done|]. split; [done|]. split; [done|].
    destruct Hres as [[_ ->]|[Hnone (t & -> & Hunknown)]].
    + destruct e as [msg|msg]; unfold error_reply.
      * destruct (contains _ msg) eqn:Hc; [by left | by right].
      * split; [done|]. split.
        -- apply prefix_spec. by exists (" " +:+ msg).
        -- apply contains_spec. exists "❌ Unexpected error occurred: ", "".
           by rewrite append_nil_r.
    + rewrite Hnone by lia. right. by exists t.
  - exists reply, w', n. split; [by unfold chat_on_thread; rewrite Htry|].
    split; [done|]. split; [done|]. split; [done|]. split; [done|].
    rewrite Hres by lia. by left.
Qed.

(** X3.  When the run of the primary turn ends without an assistant
    message, the response is the latest assistant message the thread
    already held, or the no-response text when it held none; the thread has
    grown by the query alone.  So a thread that ends with an answer gives
    that answer again, and when it has no refusal marker the call returns
    it. *)
Theorem silent_run_answers_with_the_previous_answer
    self thread_id user_query w (h : list message) response_text w1 :
  threads w !! thread_id = Some h ->
  answered w = [] ->
  primary_turn self thread_id user_query w = (inr response_text, w1) ->
  response_text = default no_response (get_last_text_message_by_role Assistant (rev h)) /\
  threads w1 !! thread_id = Some (h ++ [Message User user_query]) /\
  (forall (h0 : list message) (old : string),
     h = h0 ++ [Message Assistant old] ->
     response_text = old /\
     (is_refusal old = false ->
      chat_on_thread self thread_id user_query w = (old, w1))).
Proof.
  intros Hh Hsilent Hp.
  pose proof Hp as (h' & Hh' & Ht & Hr & _)%primary_turn_inr.
  rewrite Hh in Hh'. injection Hh' as <-.
  rewrite Hsilent in Ht, Hr.
  rewrite last_text_snoc in Hr. simpl in Hr.
  split; [done|]. split; [rewrite Ht; apply lookup_insert_eq|].
  intros h0 old Hh0. rewrite Hh0, last_text_snoc in Hr. simpl in Hr.
  split; [done|]. intros Hplain. rewrite <-Hr in Hplain.
  destruct (plain_response _ _ _ _ _ _ Hp Hplain) as [_ Hchat]. by rewrite Hchat, Hr.
Qed.

Ltac run_chat Hh Hf :=
  unfold chat_on_thread_try, create_message, create_and_process_run, list_messages,
    request, get_thread, set_thread, next_reply, received, with_threads, bind, ret;
  repeat first
    [ rewrite Hh | rewrite Hf | rewrite lookup_insert_eq | rewrite insert_insert_eq
    | progress simpl ].

(** X4.  When request number [k + 1] of the primary turn is the first
    to fail, with [k < 3], the call returns the error text of that
    exception, has sent exactly [k + 1] requests, and leaves on the thread
    what the [k] requests before had appended: nothing, the query, or the
    query and the answer of the run. *)
Theorem failed_primary_request_keeps_what_was_posted
    self thread_id user_query w (h : list message) (k : nat) (e : exn)
    (rest : list (option exn)) :
  threads w !! thread_id = Some h ->
  faults w = replicate k None ++ Some e :: rest ->
  k < 3 ->
  exists w',
    chat_on_thread self thread_id user_query w = (error_reply e, w') /\
    threads w' = <[thread_id := h ++ take k (Message User user_query :: answered w)]> (threads w) /\
    calls w' = calls w ++ take (S k) (primary_calls self thread_id user_query) /\
    faults w' = rest.
Proof.
  intros Hh Hf Hk.
  assert (exists w',
            chat_on_thread_try self thread_id user_query w = (inl e, w') /\
            threads w' =
              <[thread_id := h ++ take k (Message User user_query :: answered w)]> (threads w) /\
            calls w' = calls w ++ take (S k) (primary_calls self thread_id user_query) /\
            faults w' = rest) as (w' & Htry & Hrest).
  { destruct k as [|[|[|k]]]; [| | |lia]; simpl in Hf.
    - eexists. split; [run_chat Hh Hf; reflexivity|]. simpl.
      rewrite ?Hf, app_nil_r, insert_id by done. done.
    - eexists. split; [run_chat Hh Hf; reflexivity|]. simpl.
      by rewrite ?Hf, ?take_0, <-?app_assoc.
    - unfold answered.
      destruct (replies w) as [|[text|] replies'] eqn:Hr;
        (eexists; split; [run_chat Hh Hf; rewrite ?Hr; run_chat Hh Hf; reflexivity|]);
        simpl; rewrite ?Hf, ?insert_insert_eq, <-?app_assoc; done. }
  exists w'. split; [by apply chat_on_thread_raised | done].
Qed.

Lemma chat_on_thread_only_appends_to_its_thread_witness :
  exists added : list message,
    threads (chat_on_thread demo_assistant "thread_1" "list users" demo_world).2
      !! "thread_1" = Some added /\
    length added <= 3.
Proof.
  destruct (chat_on_thread_only_appends_to_its_thread demo_assistant "thread_1"
              "list users" demo_world "thread_1" [] eq_refl) as (added & Hadded & Hlen & _).
  exists added. split; [exact Hadded | exact Hlen].
Defined.

Lemma silent_run_answers_with_the_previous_answer_witness :
  exists w1,
    chat_on_thread demo_assistant "thread_1" "and groups?" silent_world
    = ("User A, User B", w1) /\
    threads w1 !! "thread_1" =
      Some [Message User "list users"; Message Assistant "User A, User B";
            Message User "and groups?"].
Proof.
  eexists.
  destruct (silent_run_answers_with_the_previous_answer demo_assistant "thread_1"
              "and groups?" silent_world _ _ _ eq_refl eq_refl eq_refl)
    as (_ & Hthread & Hold).
  destruct (Hold [Message User "list users"] "User A, User B" eq_refl) as [_ Hchat].
  split; [apply Hchat; reflexivity | exact Hthread].
Defined.

Lemma failed_primary_request_keeps_what_was_posted_witness :
  exists w',
    chat_on_thread demo_assistant "thread_1" "list users" reset_world
    = (connection_lost, w') /\
    threads w' !! "thread_1" = Some [Message User "list users"] /\
    calls w' = [CreateMessage "thread_1" User "list users";
                CreateAndProcessRun "thread_1" "asst_iam"].
Proof.
  destruct (failed_primary_request_keeps_what_was_posted demo_assistant "thread_1"
              "list users" reset_world [] 1
              (ServiceResponseError "Remote end closed connection without response") []
              eq_refl eq_refl) as (w' & Hchat & Hthreads & Hcalls & _); [lia|].
  exists w'. split; [exact Hchat|]. split; [|exact Hcalls].
  rewrite Hthreads. apply lookup_insert_eq.
Defined.

(** X5.  When the primary response is a refusal and a request of the
    retry fails, the call returns the error text of that exception, and the
    original thread is as the primary turn left it: the query and the
    refusal, without a recovered answer, also when the retry had obtained
    one and only the request that stores it failed. *)
Theorem failed_retry_leaves_the_refusal
    self thread_id user_query w response_text w1 (e : exn) w' :
  primary_turn self thread_id user_query w = (inr response_text, w1) ->
  is_refusal response_text = true ->
  retry_turn self thread_id user_query w1 = (inl e, w') ->
  chat_on_thread self thread_id user_query w = (error_reply e, w') /\
  threads w' !! thread_id = threads w1 !! thread_id /\
  exists h, threads w !! thread_id = Some h /\
    threads w' !! thread_id = Some (h ++ Message User user_query :: answered w).
Proof.
  intros Hp Hrefusal Hr.
  pose proof Hp as (h & Hh & Ht & _)%primary_turn_inr.
  assert (threads w1 !! thread_id = Some (h ++ Message User user_query :: answered w)) as Hh1
    by (rewrite Ht; apply lookup_insert_eq).
  pose proof (retry_turn_any _ _ _ _ _ _ _ Hh1 Hr) as Hw'. rewrite app_nil_r in Hw'.
  split; [|split; [congruence | by exists h]].
  apply chat_on_thread_raised. rewrite chat_on_thread_try_split. unfold bind.
  by rewrite Hp, Hrefusal.
Qed.

Lemma failed_retry_leaves_the_refusal_witness :
  exists w',
    chat_on_thread demo_assistant "thread_1" "list users" lost_answer_world
    = ("❌ Service error: Read timed out.", w') /\
    threads w' !! "thread_1" =
      Some [Message User "list users"; Message Assistant demo_refusal].
Proof.
  destruct (failed_retry_leaves_the_refusal demo_assistant "thread_1" "list users"
              lost_answer_world demo_refusal
              (primary_turn demo_assistant "thread_1" "list users" lost_answer_world).2
              (ServiceResponseError "Read timed out.")
              (retry_turn demo_assistant "thread_1" "list users"
                 (primary_turn demo_assistant "thread_1" "list users" lost_answer_world).2).2)
    as (Hchat & _ & h & Hh & Hthread).
  - vm_compute. reflexivity.
  - vm_compute. reflexivity.
  - vm_compute. reflexivity.
  - eexists. split; [exact Hchat|].
    vm_compute in Hh. injection Hh as <-. exact Hthread.
Defined.


(** * More on the getters *)

Module GetterFacts.
Import Registry Getters.


(** Every getter is made of these blocks. *)
Lemma get_assistant_shape :
  get_assistant =
    (under_lock "_assistant" (build "_assistant" "IAMAssistant") ;;; read "_assistant").
Proof. reflexivity. Qed.

Lemma get_orchestrator_agent_shape :
  get_orchestrator_agent =
    (under_lock "_orchestrator_agent" (build "_orchestrator_agent" "OrchestratorAgentWrapper") ;;;
    read "_orchestrator_agent").
Proof. reflexivity. Qed.

Lemma get_provisioning_agent_shape :
  get_provisioning_agent =
    (under_lock "_provisioning_agent" (build "_provisioning_agent" "ProvisioningAgent") ;;;
    read "_provisioning_agent").
Proof. reflexivity. Qed.

Lemma get_ad_agent_shape :
  get_ad_agent =
    (under_lock "_ad_agent"
      (let* a := construct "ADAgentMCP" in
       assign "_ad_agent" a ;;; initialize "_ad_agent") ;;;
    read "_ad_agent").
Proof. reflexivity. Qed.

Lemma get_entra_agent_shape :
  get_entra_agent =
    (under_lock "_entra_agent"
      (attempt (Construct "MCPClient") ;;; attempt (Construct "Kernel") ;;;
       build "_entra_agent" "EntraIDMCPAgent") ;;;
    unless_discovered "_entra_agent"
      (connect "_entra_agent" ;;; attempt (Construct "AzureChatCompletion") ;;;
       add_service "_entra_agent" "entra_provisioning" ;;; initialize "_entra_agent")).
Proof. reflexivity. Qed.

Lemma get_okta_agent_shape :
  get_okta_agent =
    (under_lock "_okta_agent" (build "_okta_agent" "OktaAgentMCP") ;;;
    unless_discovered "_okta_agent" (initialize "_okta_agent")).
Proof. reflexivity. Qed.

Lemma get_saviynt_agent_shape :
  get_saviynt_agent =
    (under_lock "_saviynt_agent" (build "_saviynt_agent" "SaviyntAgentMCP") ;;;
    unless_discovered "_saviynt_agent" (initialize "_saviynt_agent")).
Proof. reflexivity. Qed.


Lemma frame_refl name r : frame name r r.
Proof. by intros other _. Qed.

Lemma frame_trans name r1 r2 r3 : frame name r1 r2 -> frame name r2 r3 -> frame name r1 r3.
Proof. intros H12 H23 other Hother. by rewrite H23, H12. Qed.

Lemma keeps_refl name r : keeps name r r.
Proof. intros a Ha. eauto. Qed.

Lemma keeps_trans name r1 r2 r3 : keeps name r1 r2 -> keeps name r2 r3 -> keeps name r1 r3.
Proof.
  intros H12 H23 a Ha.
  destruct (H12 a Ha) as (Hc & a' & Ha' & Hno).
  destruct (H23 a' Ha') as (Hc' & a'' & Ha'' & Hno').
  split; [congruence|]. exists a''. split; [done | congruence].
Qed.

Lemma bind_snd {A B} (m : G A) (k : A -> G B) r :
  (bind m k r).2 = (m r).2 \/ exists x, (m r).1 = inr x /\ (bind m k r).2 = (k x (m r).2).2.
Proof.
  unfold bind. destruct (m r) as [[e|x] r1]; simpl; [by left | right; by exists x].
Qed.

Lemma framed_ret {A} name (x : A) : framed name (ret x).
Proof. intros r. apply frame_refl. Qed.

Lemma framed_raise {A} name e : framed name (raise (A := A) e).
Proof. intros r. apply frame_refl. Qed.

Lemma framed_bind {A B} name (m : G A) (k : A -> G B) :
  framed name m -> (forall x, framed name (k x)) -> framed name (bind m k).
Proof.
  intros Hm Hk r. destruct (bind_snd m k r) as [->|(x & _ & ->)]; [apply Hm|].
  eapply frame_trans; [apply Hm | apply Hk].
Qed.

Lemma keeping_ret {A} name (x : A) : keeping name (ret x).
Proof. intros r. apply keeps_refl. Qed.

Lemma keeping_bind {A B} name (m : G A) (k : A -> G B) :
  keeping name m -> (forall x, keeping name (k x)) -> keeping name (bind m k).
Proof.
  intros Hm Hk r. destruct (bind_snd m k r) as [->|(x & _ & ->)]; [apply Hm|].
  eapply keeps_trans; [apply Hm | apply Hk].
Qed.

Lemma framed_read name global : framed name (read global).
Proof. intros r. apply frame_refl. Qed.

Lemma keeping_read name global : keeping name (read global).
Proof. intros r. apply keeps_refl. Qed.

Lemma attempt_snd eff r :
  globals (attempt eff r).2 = globals r /\ constructed (attempt eff r).2 = constructed r /\
  discoveries (attempt eff r).2 = discoveries r /\
  effects (attempt eff r).2 = effects r ++ [eff] /\
  outcomes (attempt eff r).2 = tl (outcomes r).
Proof. unfold attempt. destruct (outcomes r) as [|[e|] rest] eqn:Ho; simpl; by rewrite ?Ho. Qed.

Lemma framed_attempt name eff : framed name (attempt eff).
Proof. intros r other _. by destruct (attempt_snd eff r) as [-> _]. Qed.

Lemma keeping_attempt name eff : keeping name (attempt eff).
Proof.
  intros r a Ha. destruct (attempt_snd eff r) as (-> & -> & _). eauto.
Qed.

Lemma framed_construct name class : framed name (construct class).
Proof.
  intros r other _. unfold construct, bind.
  pose proof (attempt_snd (Construct class) r) as [Hg _].
  destruct (attempt (Construct class) r) as [[e|[]] r1]; simpl in *; by rewrite Hg.
Qed.

Lemma framed_assign name a : framed name (assign name a).
Proof. intros r other Hother. simpl. by rewrite lookup_insert_ne. Qed.

(** The methods change the object a global refers to, not the global. *)
Lemma method_snd global eff f r a :
  globals r !! global = Some a ->
  (forall r a, globals (f r a).2 = globals r /\ constructed (f r a).2 = constructed r /\
               agent_no (f r a).1 = agent_no a) ->
  exists a', globals (method global eff f r).2 = <[global := a']> (globals r) /\
             agent_no a' = agent_no a /\
             constructed (method global eff f r).2 = constructed r.
Proof.
  intros Ha Hf. unfold method, bind, read. rewrite Ha.
  pose proof (attempt_snd eff r) as (Hg & Hc & _).
  destruct (attempt eff r) as [[e|[]] r1]; simpl in *.
  - exists a. rewrite Hg, insert_id by done. done.
  - destruct (Hf r1 a) as (Hfg & Hfc & Hfa).
    destruct (f r1 a) as [a' r2]; simpl in *. exists a'.
    by rewrite Hfg, Hfc, Hg, Hc.
Qed.

Lemma method_none global eff f r :
  globals r !! global = None -> (method global eff f r).2 = r.
Proof. intros Ha. unfold method, bind, read. by rewrite Ha. Qed.

Lemma framed_method name eff f : gentle f -> framed name (method name eff f).
Proof.
  intros Hf r other Hother. destruct (globals r !! name) as [a|] eqn:Ha.
  - destruct (method_snd name eff f r a Ha Hf) as (a' & -> & _). by rewrite lookup_insert_ne.
  - by rewrite method_none.
Qed.

Lemma keeping_method name eff f : gentle f -> keeping name (method name eff f).
Proof.
  intros Hf r a Ha.
  destruct (method_snd name eff f r a Ha Hf) as (a' & -> & Hno & ->).
  split; [done|]. exists a'. by rewrite lookup_insert_eq.
Qed.

Lemma gentle_initialize :
  gentle (fun r a =>
       (Agent (agent_no a) (default [] (head (discoveries r))) (connects a) (services a),
        Reg (globals r) (constructed r) (outcomes r) (tl (discoveries r)) (effects r))).
Proof. by intros r a. Qed.

Lemma framed_initialize name : framed name (initialize name).
Proof. apply framed_method, gentle_initialize. Qed.
Lemma keeping_initialize name : keeping name (initialize name).
Proof. apply keeping_method, gentle_initialize. Qed.
Lemma framed_connect name : framed name (connect name).
Proof. by apply framed_method. Qed.
Lemma keeping_connect name : keeping name (connect name).
Proof. by apply keeping_method. Qed.
Lemma framed_add_service name service_id : framed name (add_service name service_id).
Proof. by apply framed_method. Qed.
Lemma keeping_add_service name service_id : keeping name (add_service name service_id).
Proof. by apply keeping_method. Qed.

Lemma framed_build name class : framed name (build name class).
Proof. apply framed_bind; [apply framed_construct | intros a; apply framed_assign]. Qed.

Lemma framed_under_lock name b : framed name b -> framed name (under_lock name b).
Proof.
  intros Hb r. unfold under_lock, bind, read. simpl.
  destruct (globals r !! name) eqn:Hg; simpl; rewrite ?Hg; [apply frame_refl | apply Hb].
Qed.

(** Whatever the block under the lock does, it does it where the global is
    [None] only. *)
Lemma keeping_under_lock name b : keeping name (under_lock name b).
Proof.
  intros r a Ha. unfold under_lock, bind, read. rewrite Ha. simpl. eauto.
Qed.

Lemma framed_unless_discovered name work :
  framed name work -> framed name (unless_discovered name work).
Proof.
  intros Hw. unfold unless_discovered.
  apply framed_bind; [apply framed_read|]. intros found.
  apply framed_bind; [|intros _; apply framed_read].
  destruct (negb _); [done | apply framed_ret].
Qed.

Lemma keeping_unless_discovered name work :
  keeping name work -> keeping name (unless_discovered name work).
Proof.
  intros Hw. unfold unless_discovered.
  apply keeping_bind; [apply keeping_read|]. intros found.
  apply keeping_bind; [|intros _; apply keeping_read].
  destruct (negb _); [done | apply keeping_ret].
Qed.

Create HintDb getters.
#[local] Hint Resolve framed_ret framed_read framed_attempt framed_construct framed_assign
  framed_initialize framed_connect framed_add_service framed_build framed_under_lock
  framed_unless_discovered keeping_ret keeping_read keeping_attempt keeping_initialize
  keeping_connect keeping_add_service keeping_under_lock keeping_unless_discovered : getters.
#[local] Hint Extern 2 (framed _ (bind _ _)) => apply framed_bind; [|intros ?] : getters.
#[local] Hint Extern 2 (keeping _ (bind _ _)) => apply keeping_bind; [|intros ?] : getters.

Lemma getters_elem name get :
  (name, get) ∈ getters ->
  (name, get) = ("_assistant", get_assistant) \/
  (name, get) = ("_orchestrator_agent", get_orchestrator_agent) \/
  (name, get) = ("_provisioning_agent", get_provisioning_agent) \/
  (name, get) = ("_ad_agent", get_ad_agent) \/
  (name, get) = ("_entra_agent", get_entra_agent) \/
  (name, get) = ("_okta_agent", get_okta_agent) \/
  (name, get) = ("_saviynt_agent", get_saviynt_agent).
Proof.
  unfold getters. rewrite !elem_of_cons, elem_of_nil. tauto.
Qed.

Ltac each_getter H :=
  apply getters_elem in H;
  destruct H as [H|[H|[H|[H|[H|[H|H]]]]]]; injection H as -> ->;
  [ rewrite get_assistant_shape
  | rewrite get_orchestrator_agent_shape
  | rewrite get_provisioning_agent_shape
  | rewrite get_ad_agent_shape
  | rewrite get_entra_agent_shape
  | rewrite get_okta_agent_shape
  | rewrite get_saviynt_agent_shape ].

Lemma getters_framed name get : (name, get) ∈ getters -> framed name get.
Proof. intros Hin. each_getter Hin; auto 10 with getters. Qed.

Lemma getters_keeping name get : (name, get) ∈ getters -> keeping name get.
Proof. intros Hin. each_getter Hin; auto 10 with getters. Qed.

(** X8.  Whether it returns or raises, a getter leaves every other
    global as it was, and when its own global holds an agent before the
    call it holds the same object afterwards and no agent has been
    constructed. *)
Theorem getters_keep_the_agents
    (name : string) (get : G (option agent)) (r : registry) :
  (name, get) ∈ getters ->
  (forall other, other <> name -> globals (get r).2 !! other = globals r !! other) /\
  (forall a, globals r !! name = Some a ->
     constructed (get r).2 = constructed r /\
     exists a', globals (get r).2 !! name = Some a' /\ agent_no a' = agent_no a).
Proof.
  intros Hin. split; [by apply getters_framed | by apply getters_keeping].
Qed.

Lemma keeps_is_Some name r r' :
  keeps name r r' -> is_Some (globals r !! name) -> is_Some (globals r' !! name).
Proof. intros Hk [a Ha]. destruct (Hk a Ha) as (_ & a' & Ha' & _). by exists a'. Qed.

Lemma storing_assign name a : storing name (assign name a).
Proof.
  intros r x r' H. injection H as _ <-. simpl. rewrite lookup_insert_eq. by eexists.
Qed.

Lemma storing_after {A B} name (m : G A) (k : A -> G B) :
  (forall x, storing name (k x)) -> storing name (bind m k).
Proof. intros Hk r y r' (x & r1 & _ & Hkx)%bind_inr. by eapply Hk. Qed.

Lemma storing_then_keeping {A B} name (m : G A) (k : A -> G B) :
  storing name m -> (forall x, keeping name (k x)) -> storing name (bind m k).
Proof.
  intros Hm Hk r y r' (x & r1 & Hmx & Hkx)%bind_inr.
  apply (keeps_is_Some name r1); [|by eapply Hm].
  replace r' with (k x r1).2 by by rewrite Hkx. apply Hk.
Qed.

Lemma storing_build name class : storing name (build name class).
Proof. apply storing_after. intros a. apply storing_assign. Qed.

Lemma storing_under_lock name b : storing name b -> storing name (under_lock name b).
Proof.
  intros Hb r x r'. unfold under_lock, bind, read. simpl.
  destruct (globals r !! name) as [a|] eqn:Hg; simpl; rewrite ?Hg.
  - intros H. injection H as _ <-. by rewrite Hg.
  - apply Hb.
Qed.

(** Where the global holds an agent, the block under the lock is skipped. *)
Lemma under_lock_found name b r a :
  globals r !! name = Some a -> under_lock name b r = (inr tt, r).
Proof. intros Hg. unfold under_lock, bind, read. simpl. by rewrite Hg. Qed.

Lemma read_inr name r res r' :
  read name r = (inr res, r') -> r' = r /\ res = globals r !! name.
Proof. intros H. by injection H as <- <-. Qed.

Lemma unless_discovered_inr name work r res r' :
  keeping name work ->
  is_Some (globals r !! name) ->
  unless_discovered name work r = (inr res, r') ->
  res = globals r' !! name /\ is_Some (globals r' !! name).
Proof.
  intros Hw Hsome H. unfold unless_discovered in H.
  apply bind_inr in H as (found & r1 & [Hr1 Hfound]%read_inr & H). subst r1 found.
  apply bind_inr in H as ([] & r2 & Hwork & [Hr' Hres]%read_inr). subst r' res.
  split; [done|]. apply (keeps_is_Some name r); [|done].
  destruct (negb _) in Hwork.
  - replace r2 with (work r).2 by by rewrite Hwork. apply Hw.
  - injection Hwork as <-. apply keeps_refl.
Qed.

#[local] Hint Resolve storing_assign storing_build storing_under_lock : getters.
#[local] Hint Extern 3 (storing _ (bind _ _)) =>
  first [ apply storing_then_keeping; [solve [auto with getters] | intros ?]
        | apply storing_after; intros ? ] : getters.

Lemma getter_inr name b (tail : G (option agent)) r res r' :
  storing name (under_lock name b) ->
  (forall r1, is_Some (globals r1 !! name) -> tail r1 = (inr res, r') ->
     res = globals r' !! name /\ is_Some (globals r' !! name)) ->
  (under_lock name b ;;; tail) r = (inr res, r') ->
  exists a, res = Some a /\ globals r' !! name = Some a.
Proof.
  intros Hu Htail ([] & r1 & Hlock & Hrest)%bind_inr.
  destruct (Htail r1 (Hu _ _ _ Hlock) Hrest) as [-> [a Ha]]. by exists a.
Qed.

Lemma read_tail name r1 res r' :
  is_Some (globals r1 !! name) -> read name r1 = (inr res, r') ->
  res = globals r' !! name /\ is_Some (globals r' !! name).
Proof. intros Hsome [Hr Hres]%read_inr. by subst. Qed.

Lemma getters_inr name get r res r' :
  (name, get) ∈ getters ->
  get r = (inr res, r') ->
  exists a, res = Some a /\ globals r' !! name = Some a.
Proof.
  intros Hin. each_getter Hin; apply getter_inr; auto 10 with getters;
    intros r1; first [ apply read_tail | apply unless_discovered_inr; auto 10 with getters ].
Qed.

(** X7.  When one of the seven getters returns, it returns an agent,
    and that agent is what its global holds afterwards. *)
Theorem getter_returns_the_stored_agent
    (name : string) (get : G (option agent)) (r r' : registry) (res : option agent) :
  (name, get) ∈ getters ->
  get r = (inr res, r') ->
  exists a, res = Some a /\ globals r' !! name = Some a.
Proof. apply getters_inr. Qed.

Lemma locked_getters_elem name get :
  (name, get) ∈ locked_getters ->
  (name, get) ∈ getters /\
  exists b, get = (under_lock name b ;;; read name).
Proof.
  unfold locked_getters, getters. simpl. rewrite !elem_of_cons, elem_of_nil.
  intros [H|[H|[H|[H|[]]]]]; injection H as -> ->; (split; [tauto|]); by eexists.
Qed.

(** X9.  Once [get_assistant], [get_orchestrator_agent],
    [get_provisioning_agent] or [get_ad_agent] has returned, calling it
    again returns the same agent and changes nothing: no constructor and no
    [initialize] is called. *)
Theorem locked_getter_returns_the_same_agent_again
    (name : string) (get : G (option agent)) (r r' : registry) (res : option agent) :
  (name, get) ∈ locked_getters ->
  get r = (inr res, r') ->
  get r' = (inr res, r').
Proof.
  intros [Hin [b Hshape]]%locked_getters_elem Hget.
  destruct (getters_inr name get r res r' Hin Hget) as (a & -> & Ha).
  rewrite Hshape. unfold bind. rewrite (under_lock_found name b r' a Ha). simpl.
  unfold read. by rewrite Ha.
Qed.

Lemma plain_getters_elem name get :
  (name, get) ∈ plain_getters ->
  exists class, get = (under_lock name (build name class) ;;; read name).
Proof.
  unfold plain_getters, getters. simpl. rewrite !elem_of_cons, elem_of_nil.
  intros [H|[H|[H|[]]]]; injection H as -> ->; by eexists.
Qed.

(** X10.  [get_assistant], [get_orchestrator_agent] and
    [get_provisioning_agent] raise only what their constructor raised, on a
    call that found the global empty, and then the globals are as before and
    no agent counts as constructed: nothing of the failed construction is
    kept. *)
Theorem plain_getter_raises_only_from_its_constructor
    (name : string) (get : G (option agent)) (r r' : registry) (e : exn) :
  (name, get) ∈ plain_getters ->
  get r = (inl e, r') ->
  globals r !! name = None /\
  globals r' = globals r /\
  constructed r' = constructed r /\
  outcomes r = Some e :: outcomes r'.
Proof.
  intros [class ->]%plain_getters_elem.
  unfold under_lock, build, construct, assign, attempt, read, bind, ret. simpl.
  destruct (globals r !! name) as [a|] eqn:Hg; simpl; rewrite ?Hg; [done|].
  destruct (outcomes r) as [|[e'|] rest]; simpl; [done| |done].
  intros H. by injection H as <- <-.
Qed.

Lemma discovering_getters_elem name get :
  (name, get) ∈ discovering_getters ->
  exists b, get = (under_lock name b ;;; unless_discovered name (initialize name)).
Proof.
  unfold discovering_getters, getters. simpl. rewrite !elem_of_cons, elem_of_nil.
  intros [H|[H|[]]]; injection H as -> ->; by eexists.
Qed.

Lemma tl_Forall {A} (P : A -> Prop) (l : list A) : Forall P l -> Forall P (tl l).
Proof. intros H. destruct H; [constructor | done]. Qed.

Lemma head_nothing (l : list (list string)) : Forall (eq []) l -> default [] (head l) = [].
Proof. intros H. by destruct H as [|? ? <- _]. Qed.

Lemma rediscover_once name b r a :
  globals r !! name = Some a ->
  available_tools a = [] ->
  Forall (eq []) (discoveries r) ->
  let r' := ((under_lock name b ;;; unless_discovered name (initialize name)) r).2 in
  globals r' = globals r /\
  Forall (eq []) (discoveries r') /\
  effects r' = effects r ++ [Initialize name].
Proof.
  intros Hg Htools Hd. unfold bind at 1. rewrite (under_lock_found name b r a Hg).
  unfold unless_discovered, initialize, method, attempt, read, bind, ret,
    getattr_available_tools, with_globals. simpl.
  rewrite Hg, Htools. simpl. rewrite Hg.
  destruct (outcomes r) as [|[e|] rest]; simpl; rewrite ?lookup_insert_eq; simpl;
    rewrite ?head_nothing by done; (split; [|split; [by try apply tl_Forall | done]]);
    try done; apply insert_id; rewrite Hg; f_equal; destruct a; simpl in *; by subst.
Qed.

(** X11.  For [get_okta_agent] and [get_saviynt_agent]: while the
    stored agent has no tools and discovery finds none, each of [n] calls in
    a row calls [initialize] once more, whether or not it raises, and the
    globals stay as they are. *)
Theorem discovery_that_finds_nothing_is_repeated
    (name : string) (get : G (option agent)) (r : registry) (a : agent) (n : nat) :
  (name, get) ∈ discovering_getters ->
  globals r !! name = Some a ->
  available_tools a = [] ->
  Forall (eq []) (discoveries r) ->
  globals (again n get r) = globals r /\
  effects (again n get r) = effects r ++ replicate n (Initialize name).
Proof.
  intros [b ->]%discovering_getters_elem Hg Htools. revert r Hg.
  induction n as [|n IH]; intros r Hg Hd; simpl; [by rewrite app_nil_r|].
  destruct (rediscover_once name b r a Hg Htools Hd) as (Hglobals & Hd' & Heffects).
  destruct (IH _ ltac:(by rewrite Hglobals) Hd') as [IHg IHe].
  split; [congruence|]. rewrite IHe, Heffects, <-app_assoc. done.
Qed.

Lemma entra_rediscover_once r a :
  globals r !! "_entra_agent" = Some a ->
  available_tools a = [] ->
  Forall (eq None) (outcomes r) ->
  Forall (eq []) (discoveries r) ->
  let r' := (get_entra_agent r).2 in
  (exists a', globals r' !! "_entra_agent" = Some a' /\ available_tools a' = []) /\
  Forall (eq None) (outcomes r') /\
  Forall (eq []) (discoveries r') /\
  effects r' = effects r ++ entra_discovery.
Proof.
  intros Hg Htools Ho Hd.
  assert (forall l : list (option exn), Forall (eq None) l ->
            match l with Some e :: _ => False | _ => True end /\ Forall (eq None) (tl l))
    as Hnext.
  { intros l Hl. split; [by destruct Hl as [|? ? <- _] | by apply tl_Forall]. }
  destruct (Hnext _ Ho) as [H1 Ho1]. destruct (Hnext _ Ho1) as [H2 Ho2].
  destruct (Hnext _ Ho2) as [H3 Ho3]. destruct (Hnext _ Ho3) as [H4 Ho4].
  rewrite get_entra_agent_shape. unfold bind at 1.
  rewrite (under_lock_found _ _ r a Hg).
  unfold unless_discovered, connect, add_service, initialize, method, attempt, read, bind,
    ret, getattr_available_tools, with_globals. simpl.
  rewrite Hg, Htools. simpl. rewrite Hg.
  destruct (outcomes r) as [|[e1|] [|[e2|] [|[e3|] [|[e4|] rest]]]]; simpl in *; try done;
    rewrite ?lookup_insert_eq; simpl; rewrite ?lookup_insert_eq; simpl;
    rewrite ?lookup_insert_eq; simpl; rewrite ?lookup_insert_eq, ?head_nothing by done;
    (split; [eexists; split; [reflexivity | done] |]);
    (split; [done || constructor |]); (split; [by apply tl_Forall |]);
    by rewrite <-!app_assoc.
Qed.

(** X12.  For [get_entra_agent]: while the stored agent has no tools,
    discovery finds none and no call raises, each of [n] calls in a row
    connects the MCP client, constructs the chat completion service,
    registers it on the kernel and calls [initialize], again. *)
Theorem entra_discovery_that_finds_nothing_is_repeated
    (r : registry) (a : agent) (n : nat) :
  globals r !! "_entra_agent" = Some a ->
  available_tools a = [] ->
  Forall (eq None) (outcomes r) ->
  Forall (eq []) (discoveries r) ->
  effects (again n get_entra_agent r) = effects r ++ mjoin (replicate n entra_discovery).
Proof.
  revert r a. induction n as [|n IH]; intros r a Hg Htools Ho Hd; [by rewrite app_nil_r|].
  destruct (entra_rediscover_once r a Hg Htools Ho Hd) as ((a' & Hg' & Htools') & Ho' & Hd' & He).
  change (again (S n) get_entra_agent r) with (again n get_entra_agent (get_entra_agent r).2).
  rewrite (IH _ a' Hg' Htools' Ho' Hd'), He, <-app_assoc. done.
Qed.

(** ** The theorems at work *)


Lemma getters_keep_the_agents_witness :
  globals (get_okta_agent discovered_registry).2 !! "_entra_agent" = Some discovered_agent.
Proof.
  destruct (getters_keep_the_agents "_okta_agent" get_okta_agent
              discovered_registry) as [Hframe _].
  - apply (list_elem_of_lookup_2 _ 5). reflexivity.
  - rewrite Hframe by done. reflexivity.
Defined.

Lemma getter_returns_the_stored_agent_witness :
  exists a, globals (get_okta_agent (empty_registry [] [["list_users"]])).2 !! "_okta_agent"
            = Some a.
Proof.
  destruct (getter_returns_the_stored_agent "_okta_agent" get_okta_agent
              (empty_registry [] [["list_users"]])
              (get_okta_agent (empty_registry [] [["list_users"]])).2
              (Some (Agent 0 ["list_users"] 0 [])))
    as (a & _ & Ha).
  - apply (list_elem_of_lookup_2 _ 5). reflexivity.
  - vm_compute. reflexivity.
  - by exists a.
Defined.

Lemma locked_getter_returns_the_same_agent_again_witness :
  get_ad_agent (get_ad_agent (empty_registry [] [["reset_password"]])).2 =
    (inr (Some (Agent 0 ["reset_password"] 0 [])),
     (get_ad_agent (empty_registry [] [["reset_password"]])).2).
Proof.
  apply (locked_getter_returns_the_same_agent_again "_ad_agent" get_ad_agent
           (empty_registry [] [["reset_password"]])).
  - apply (list_elem_of_lookup_2 _ 3). reflexivity.
  - reflexivity.
Defined.

Lemma plain_getter_raises_only_from_its_constructor_witness :
  globals (get_assistant (empty_registry [Some unreachable] [])).2 = ∅.
Proof.
  destruct (plain_getter_raises_only_from_its_constructor "_assistant"
              get_assistant (empty_registry [Some unreachable] [])
              (get_assistant (empty_registry [Some unreachable] [])).2 unreachable)
    as (_ & Hglobals & _).
  - apply (list_elem_of_lookup_2 _ 0). reflexivity.
  - reflexivity.
  - exact Hglobals.
Defined.

Lemma discovery_that_finds_nothing_is_repeated_witness :
  effects (again 3 get_okta_agent undiscovered_registry) =
    [Initialize "_okta_agent"; Initialize "_okta_agent"; Initialize "_okta_agent"].
Proof.
  destruct (discovery_that_finds_nothing_is_repeated "_okta_agent" get_okta_agent
              undiscovered_registry (Agent 0 [] 0 []) 3) as [_ Heffects].
  - apply (list_elem_of_lookup_2 _ 0). reflexivity.
  - reflexivity.
  - reflexivity.
  - constructor.
  - exact Heffects.
Defined.

Lemma entra_discovery_that_finds_nothing_is_repeated_witness :
  effects (again 2 get_entra_agent undiscovered_registry) = entra_discovery ++ entra_discovery.
Proof.
  apply (entra_discovery_that_finds_nothing_is_repeated undiscovered_registry
           (Agent 1 [] 0 []) 2).
  - reflexivity.
  - reflexivity.
  - constructor.
  - constructor.
Defined.

(** ** A constructor that raises *)

Lemma grows_refl r : grows r r.
Proof. exists []. by rewrite app_nil_r. Qed.

Lemma grows_trans r1 r2 r3 : grows r1 r2 -> grows r2 r3 -> grows r1 r3.
Proof. intros [m1 H1] [m2 H2]. exists (m1 ++ m2). by rewrite H2, H1, app_assoc. Qed.

Lemma growing_ret {A} (x : A) : growing (ret x).
Proof. intros r. apply grows_refl. Qed.

Lemma growing_bind {A B} (m : G A) (k : A -> G B) :
  growing m -> (forall x, growing (k x)) -> growing (bind m k).
Proof.
  intros Hm Hk r. destruct (bind_snd m k r) as [->|(x & _ & ->)]; [apply Hm|].
  eapply grows_trans; [apply Hm | apply Hk].
Qed.

Lemma growing_read global : growing (read global).
Proof. intros r. apply grows_refl. Qed.

Lemma growing_attempt eff : growing (attempt eff).
Proof. intros r. exists [eff]. by destruct (attempt_snd eff r) as (_ & _ & _ & -> & _). Qed.

Lemma growing_assign global a : growing (assign global a).
Proof. intros r. exists []. simpl. by rewrite app_nil_r. Qed.

Lemma starts_construct class : starts (Construct class) (construct class).
Proof.
  intros r. exists []. unfold construct, bind.
  pose proof (attempt_snd (Construct class) r) as (_ & _ & _ & He & _).
  destruct (attempt (Construct class) r) as [[e|[]] r1]; simpl in *; by rewrite He.
Qed.

Lemma starts_growing {A} eff (m : G A) : starts eff m -> growing m.
Proof. intros H r. destruct (H r) as [more Hmore]. by exists (eff :: more). Qed.

Lemma growing_method global eff f :
  (forall r a, effects (f r a).2 = effects r) -> growing (method global eff f).
Proof.
  intros Hf r. unfold method, bind, read. simpl.
  destruct (globals r !! global) as [a|]; simpl; [|apply grows_refl].
  pose proof (attempt_snd eff r) as (_ & _ & _ & He & _).
  destruct (attempt eff r) as [[e|[]] r1]; simpl in *; [by exists [eff]|].
  specialize (Hf r1 a). destruct (f r1 a) as [a' r2]; simpl in *.
  exists [eff]. simpl. by rewrite Hf, He.
Qed.

Lemma growing_initialize global : growing (initialize global).
Proof. by apply growing_method. Qed.
Lemma growing_connect global : growing (connect global).
Proof. by apply growing_method. Qed.
Lemma growing_add_service global service_id : growing (add_service global service_id).
Proof. by apply growing_method. Qed.

Lemma growing_unless_discovered name work :
  growing work -> growing (unless_discovered name work).
Proof.
  intros Hw. unfold unless_discovered.
  apply growing_bind; [apply growing_read|]. intros found.
  apply growing_bind; [|intros _; apply growing_read].
  destruct (negb _); [done | apply growing_ret].
Qed.

Lemma starts_bind {A B} eff (m : G A) (k : A -> G B) :
  starts eff m -> (forall x, growing (k x)) -> starts eff (bind m k).
Proof.
  intros Hm Hk r. destruct (Hm r) as [more Hmore].
  destruct (bind_snd m k r) as [->|(x & _ & ->)]; [by exists more|].
  destruct (Hk x (m r).2) as [more' Hmore'].
  exists (more ++ more'). by rewrite Hmore', Hmore, <-app_assoc.
Qed.

Lemma starts_attempt eff : starts eff (attempt eff).
Proof. intros r. exists []. by destruct (attempt_snd eff r) as (_ & _ & _ & -> & _). Qed.

Lemma starts_build name class : starts (Construct class) (build name class).
Proof.
  unfold build. apply starts_bind; [apply starts_construct|].
  intros a. apply growing_assign.
Qed.

Lemma growing_build name class : growing (build name class).
Proof. eapply starts_growing, starts_build. Qed.

Create HintDb restart.
#[local] Hint Resolve starts_build growing_build : restart.
#[local] Hint Resolve growing_ret growing_read growing_attempt growing_assign
  growing_initialize growing_connect growing_add_service growing_unless_discovered
  starts_construct starts_attempt : restart.
#[local] Hint Extern 2 (growing (bind _ _)) => apply growing_bind; [|intros ?] : restart.
#[local] Hint Extern 2 (starts _ (bind _ _)) => apply starts_bind; [|intros ?] : restart.
#[local] Hint Extern 4 (growing (construct _)) =>
  eapply starts_growing; apply starts_construct : restart.

(** Where the global is [None], the block under the lock runs. *)
Lemma under_lock_empty name b r :
  globals r !! name = None -> under_lock name b r = b r.
Proof. intros Hg. unfold under_lock, bind, read. simpl. rewrite Hg. simpl. by rewrite Hg. Qed.

Lemma restart name (b : G unit) {A} (tail : G A) r eff :
  globals r !! name = None -> starts eff b -> growing tail ->
  exists more, effects ((under_lock name b ;;; tail) r).2 = effects r ++ eff :: more.
Proof.
  intros Hg Hb Htail. destruct (Hb r) as [more Hmore].
  destruct (bind_snd (under_lock name b) (fun _ => tail) r) as [->|(x & _ & ->)];
    rewrite (under_lock_empty name b r Hg).
  - by exists more.
  - destruct (Htail (b r).2) as [more' Hmore'].
    exists (more ++ more'). by rewrite Hmore', Hmore, <-app_assoc.
Qed.

Lemma restart_head name (b : G unit) {A} (tail : G A) r class classes :
  globals r !! name = None -> head classes = Some class ->
  starts (Construct class) b -> growing tail ->
  exists class more,
    head classes = Some class /\
    effects ((under_lock name b ;;; tail) r).2 = effects r ++ Construct class :: more.
Proof.
  intros Hg Hc Hb Htail. destruct (restart name b tail r _ Hg Hb Htail) as [more Hmore].
  by exists class, more.
Qed.

Lemma constructors_elem name get classes :
  (name, get, classes) ∈ constructors ->
  (name, get, classes) = ("_assistant", get_assistant, ["IAMAssistant"]) \/
  (name, get, classes) =
    ("_orchestrator_agent", get_orchestrator_agent, ["OrchestratorAgentWrapper"]) \/
  (name, get, classes) = ("_provisioning_agent", get_provisioning_agent, ["ProvisioningAgent"]) \/
  (name, get, classes) = ("_ad_agent", get_ad_agent, ["ADAgentMCP"]) \/
  (name, get, classes) =
    ("_entra_agent", get_entra_agent, ["MCPClient"; "Kernel"; "EntraIDMCPAgent"]) \/
  (name, get, classes) = ("_okta_agent", get_okta_agent, ["OktaAgentMCP"]) \/
  (name, get, classes) = ("_saviynt_agent", get_saviynt_agent, ["SaviyntAgentMCP"]).
Proof. unfold constructors. rewrite !elem_of_cons, elem_of_nil. tauto. Qed.

Ltac rewrite_shape :=
  first
  [ rewrite get_assistant_shape
  | rewrite get_orchestrator_agent_shape
  | rewrite get_provisioning_agent_shape
  | rewrite get_ad_agent_shape
  | rewrite get_entra_agent_shape
  | rewrite get_okta_agent_shape
  | rewrite get_saviynt_agent_shape ].

(** The next call of a getter whose global is [None] calls the first
    constructor. *)
Lemma getters_restart name get classes r :
  (name, get, classes) ∈ constructors ->
  globals r !! name = None ->
  exists class more,
    head classes = Some class /\
    effects (get r).2 = effects r ++ Construct class :: more.
Proof.
  intros Hin Hg. apply constructors_elem in Hin.
  destruct Hin as [H|[H|[H|[H|[H|[H|H]]]]]]; injection H as -> -> ->;
    rewrite_shape; (eapply restart_head; [exact Hg | reflexivity | ..]);
    auto 10 with restart.
Qed.

Ltac run_construction Hg Ho :=
  unfold get_assistant, get_orchestrator_agent, get_provisioning_agent, get_ad_agent,
    get_entra_agent, get_okta_agent, get_saviynt_agent, construct, attempt, read, bind;
  repeat first [ rewrite Hg | rewrite Ho | progress simpl ].

(** The call in which a constructor raises. *)
Lemma getters_construction_raises name get classes r k e rest :
  (name, get, classes) ∈ constructors ->
  globals r !! name = None ->
  outcomes r = replicate k None ++ Some e :: rest ->
  k < length classes ->
  get r = (inl e, Reg (globals r) (constructed r) rest (discoveries r)
                    (effects r ++ (Construct <$> take (S k) classes))).
Proof.
  intros Hin Hg Ho Hk. apply constructors_elem in Hin.
  destruct Hin as [H|[H|[H|[H|[H|[H|H]]]]]]; injection H as -> -> ->; simpl in Hk;
    (destruct k as [|[|[|k]]]; [| | |lia]; try lia); simpl in Ho;
    run_construction Hg Ho; by rewrite <-?app_assoc.
Qed.

(** C6. For each of the seven getters: when its global is [None] and one
    of the constructors it calls raises, the earlier ones having returned,
    the call raises that exception and the global is still [None]: no agent
    has been stored and none counted as constructed, and nothing but the
    constructors up to the failing one was called.  The next call of the
    getter starts again with the first constructor. *)
Theorem failed_construction_is_not_cached
    (name : string) (get : G (option agent)) (classes : list string)
    (r : registry) (k : nat) (e : exn) (rest : list (option exn)) :
  (name, get, classes) ∈ constructors ->
  globals r !! name = None ->
  outcomes r = replicate k None ++ Some e :: rest ->
  k < length classes ->
  exists r',
    get r = (inl e, r') /\
    globals r' = globals r /\
    constructed r' = constructed r /\
    effects r' = effects r ++ (Construct <$> take (S k) classes) /\
    exists class more,
      head classes = Some class /\
      effects (get r').2 = effects r' ++ Construct class :: more.
Proof.
  intros Hin Hg Ho Hk. eexists.
  split; [exact (getters_construction_raises name get classes r k e rest Hin Hg Ho Hk)|].
  split; [done|]. split; [done|]. split; [done|].
  apply (getters_restart name); [exact Hin | exact Hg].
Qed.

Lemma failed_construction_is_not_cached_witness :
  exists r',
    get_entra_agent (empty_registry [None; Some unreachable; None] []) = (inl unreachable, r') /\
    globals r' = ∅ /\
    exists more,
      effects (get_entra_agent r').2 =
        [Construct "MCPClient"; Construct "Kernel"; Construct "MCPClient"] ++ more.
Proof.
  destruct (failed_construction_is_not_cached "_entra_agent" get_entra_agent
              ["MCPClient"; "Kernel"; "EntraIDMCPAgent"]
              (empty_registry [None; Some unreachable; None] []) 1 unreachable [None])
    as (r' & Hget & Hglobals & _ & Heffects & class & more & Hclass & Hnext).
  - apply (list_elem_of_lookup_2 _ 4). reflexivity.
  - reflexivity.
  - reflexivity.
  - simpl. lia.
  - exists r'. split; [exact Hget|]. split; [exact Hglobals|].
    exists more. rewrite Hnext, Heffects. injection Hclass as <-. reflexivity.
Defined.

End GetterFacts.

(** * The on-premises endpoint from its first line *)

Module ADEndpointFacts.
Import Registry Getters GetterFacts.

Section Handler.
Variable get_thread_history_raises : string -> gmap string (list message) -> option exn.
Variable _process_user_request :
  string -> list message -> (exn + string) * list message.

(** Once the agent and the history are at hand, the handler is the turn
    [ad_provisioning_chat] of the first part. *)
Lemma ad_provisioning_chat_turn thread_id req_message s (a : agent) r :
  get_ad_agent (ADEndpoint.registry_of s) = (inr (Some a), r) ->
  get_thread_history_raises thread_id (ADEndpoint.histories_of s) = None ->
  ADEndpoint.ad_provisioning_chat get_thread_history_raises _process_user_request
    thread_id req_message s =
  match ad_provisioning_chat _process_user_request thread_id req_message
          (ADEndpoint.histories_of s) with
  | (inr response, histories) => (inr response, ADEndpoint.Server r histories)
  | (inl e, histories) =>
      (inl {| ADEndpoint.status_code := 500; ADEndpoint.detail := str e |},
       ADEndpoint.Server r histories)
  end.
Proof.
  intros Hget Hhist.
  unfold ADEndpoint.ad_provisioning_chat, ADEndpoint.get_thread_history, ad_provisioning_chat.
  rewrite Hget, Hhist.
  destruct (_process_user_request req_message _) as [[e|response] chat_history];
    by rewrite insert_insert_eq.
Qed.

(** X6.  Every failure of [ad_provisioning_chat] is the 500 error whose
    detail is "AD provisioning chat failed: " followed by the text of the
    exception that caused it, and the cause is one of three.  [get_ad_agent]
    raised: no history has changed, so the question is not recorded.
    [get_thread_history] raised: again no history has changed.
    [_process_user_request] raised: when it leaves the history alone, the
    thread holds its old history followed by the user message without an
    answer, and the other threads are untouched. *)
Theorem failed_ad_chat_is_a_500_error
    thread_id req_message s (err : ADEndpoint.HTTPException) s' :
  (forall m h, (_process_user_request m h).2 = h) ->
  ADEndpoint.ad_provisioning_chat get_thread_history_raises _process_user_request
    thread_id req_message s = (inl err, s') ->
  exists cause : exn,
    err = {| ADEndpoint.status_code := 500;
             ADEndpoint.detail := "AD provisioning chat failed: " +:+ str cause |} /\
    let histories := ADEndpoint.histories_of s in
    let histories' := ADEndpoint.histories_of s' in
    ((get_ad_agent (ADEndpoint.registry_of s) = (inl cause, ADEndpoint.registry_of s') /\
      histories' = histories) \/
     (exists a : agent,
        get_ad_agent (ADEndpoint.registry_of s) = (inr (Some a), ADEndpoint.registry_of s') /\
        get_thread_history_raises thread_id histories = Some cause /\
        histories' = histories) \/
     (exists a : agent,
        get_ad_agent (ADEndpoint.registry_of s) = (inr (Some a), ADEndpoint.registry_of s') /\
        get_thread_history_raises thread_id histories = None /\
        (_process_user_request req_message
           (default [] (histories !! thread_id) ++ [Message User req_message])).1 = inl cause /\
        histories' !! thread_id =
          Some (default [] (histories !! thread_id) ++ [Message User req_message]) /\
        forall other, other <> thread_id -> histories' !! other = histories !! other)).
Proof.
  intros Hpure H. unfold ADEndpoint.ad_provisioning_chat, ADEndpoint.get_thread_history in H.
  destruct (get_ad_agent (ADEndpoint.registry_of s)) as [[e|[a|]] r] eqn:Hget.
  - injection H as <- <-. exists e. split; [done|]. by left.
  - destruct (get_thread_history_raises thread_id _) as [e|] eqn:Hhist.
    + injection H as <- <-. exists e. split; [done|]. right; left. by exists a.
    + unfold add_message in H.
      pose proof (Hpure req_message
        (default [] (ADEndpoint.histories_of s !! thread_id) ++ [Message User req_message]))
        as Hh.
      destruct (_process_user_request req_message _) as [[e|response] chat_history]
        eqn:Hproc; [|done].
      injection H as <- <-. simpl in Hh. subst chat_history.
      exists e. split; [done|]. right; right. exists a. simpl.
      split; [done|]. split; [done|]. split; [by rewrite Hproc|].
      split; [apply lookup_insert_eq|].
      intros other Hother. by rewrite !lookup_insert_ne.
  - apply (getters_inr "_ad_agent") in Hget as (a & Ha & _); [done|].
    apply (list_elem_of_lookup_2 _ 3). reflexivity.
Qed.

End Handler.

Lemma failed_ad_chat_is_a_500_error_witness :
  exists cause : exn,
    (ADEndpoint.ad_provisioning_chat (fun _ _ => None) failing_process
       "ad-00000000" "unlock jdoe" ADEndpoint.cold_server).1 =
    inl {| ADEndpoint.status_code := 500;
           ADEndpoint.detail := "AD provisioning chat failed: " +:+ str cause |} /\
    ADEndpoint.histories_of
      (ADEndpoint.ad_provisioning_chat (fun _ _ => None) failing_process
         "ad-00000000" "unlock jdoe" ADEndpoint.cold_server).2 !! "ad-00000000" =
    Some [Message User "hello"; Message Assistant "hi"].
Proof.
  destruct (failed_ad_chat_is_a_500_error (fun _ _ => None) failing_process
              "ad-00000000" "unlock jdoe" ADEndpoint.cold_server
              (ADEndpoint.chat_failed unreachable)
              (ADEndpoint.ad_provisioning_chat (fun _ _ => None) failing_process
                 "ad-00000000" "unlock jdoe" ADEndpoint.cold_server).2)
    as (cause & Herr & _).
  - done.
  - vm_compute. reflexivity.
  - exists cause. rewrite <-Herr. split; vm_compute; reflexivity.
Defined.

End ADEndpointFacts.

Module ThreadIdShape.
Import ThreadIds.

Lemma hex_length (bs : list byte) : String.length (hex bs) = 2 * length bs.
Proof.
  induction bs as [|b bs IH]; [done|].
  change (hex (b :: bs)) with (hex_byte b +:+ hex bs).
  rewrite append_length, IH. simpl. lia.
Qed.

Lemma client_side_id_length (prefix : string) (e : entropy) :
  String.length (client_side_id prefix e).1 = String.length prefix + 8.
Proof.
  change (client_side_id prefix e).1 with (prefix +:+ hex (map e (seq 0 4))).
  by rewrite append_length, hex_length.
Qed.

(** X13.  Identifiers made with two different prefixes of the five
    thread endpoints differ, whatever bytes the operating system hands
    out: an identifier tells the endpoint that made it. *)
Theorem thread_ids_of_different_endpoints_differ (p q : string) (e e' : entropy) :
  p ∈ prefixes -> q ∈ prefixes -> p <> q ->
  (client_side_id p e).1 <> (client_side_id q e').1.
Proof.
  intros Hp Hq Hpq Heq.
  apply (f_equal String.length) in Heq. rewrite !client_side_id_length in Heq.
  unfold prefixes in Hp, Hq. rewrite !elem_of_cons, elem_of_nil in Hp, Hq.
  destruct Hp as [->|[->|[->|[->|[->|[]]]]]], Hq as [->|[->|[->|[->|[->|[]]]]]];
    simpl in Heq; first [ done | lia ].
Qed.

Lemma thread_ids_of_different_endpoints_differ_witness :
  (create_ad_thread stuck_entropy).1 <> (create_okta_agent_thread stuck_entropy).1.
Proof.
  apply (thread_ids_of_different_endpoints_differ "ad-" "okta-agent-").
  - apply (list_elem_of_lookup_2 _ 2). reflexivity.
  - apply (list_elem_of_lookup_2 _ 3). reflexivity.
  - discriminate.
Defined.
End ThreadIdShape.

Module RaceMore.
Import Race RaceFacts.

(** X14.  In every run of [n] callers of a getter, under every
    schedule, once every caller has returned or raised the lock is free,
    also when a constructor or [initialize] raised inside the [with]
    block. *)
Theorem lock_is_free_when_all_callers_have_left
    (g : getter) (n : nat) (outcomes : list (option exn)) (discoveries : list (list string))
    (schedule : list nat) :
  let c := run g schedule (start n outcomes discoveries) in
  (forall t p, callers c !! t = Some p -> finished p = true) ->
  lock c = None.
Proof.
  intros c Hdone.
  assert (inv c) as Hinv by apply run_inv, start_inv.
  destruct (lock c) as [h|] eqn:Hlock; [|done].
  destruct (inv_holder_in_with c h Hinv Hlock) as (p & Hp & Hin).
  specialize (Hdone h p Hp). by destruct p.
Qed.

Lemma lock_is_free_when_all_callers_have_left_witness :
  lock (run InitializeUnderLock (round_robin 12)
          (start 3 [None; Some (OtherException "unreachable")] [])) = None.
Proof.
  apply lock_is_free_when_all_callers_have_left.
  intros t p Hp. vm_compute in Hp.
  destruct t as [|[|[|t]]]; simplify_eq; reflexivity.
Defined.

(** X15.  In [get_ad_agent] the global is assigned before
    [initialize] is awaited.  When a caller stands at the first test while
    another holds the lock at [initialize], the first takes two steps,
    takes no lock and returns the stored agent, with the tools as they are
    at that moment, while the other is still at [initialize]. *)
Theorem agent_is_handed_out_while_it_initializes
    (c : config) (h t : nat) (a : nat) :
  callers c !! h = Some InitializeLocked ->
  callers c !! t = Some Check ->
  slot c = Some a ->
  let c' := run InitializeUnderLock [t; t] c in
  callers c' !! t = Some (Returned (Some a)) /\
  callers c' !! h = Some InitializeLocked /\
  tools c' = tools c /\
  lock c' = lock c.
Proof.
  intros Hh Ht Hslot.
  assert (h <> t) as Hne by (intros ->; congruence).
  assert (t < length (callers c)) as Hlen by by eapply lookup_lt_Some.
  assert (step InitializeUnderLock t c = Some (goto t Return c)) as Hfirst.
  { unfold step. by rewrite Ht, Hslot. }
  assert (step InitializeUnderLock t (goto t Return c) =
            Some (goto t (Returned (Some a)) (goto t Return c))) as Hsecond.
  { unfold step, goto. simpl. rewrite list_lookup_insert_eq by done. by rewrite Hslot. }
  unfold run. simpl. rewrite Hfirst. simpl. rewrite Hsecond. simpl.
  rewrite list_insert_insert_eq, list_lookup_insert_eq, list_lookup_insert_ne by done.
  done.
Qed.

Lemma agent_is_handed_out_while_it_initializes_witness :
  let c := run InitializeUnderLock [0; 0; 0; 0; 0; 1; 1] (start 2 [] [["reset_password"]]) in
  callers c = [InitializeLocked; Returned (Some 0)] /\ tools c = [].
Proof.
  destruct (agent_is_handed_out_while_it_initializes
              (run InitializeUnderLock [0; 0; 0; 0; 0] (start 2 [] [["reset_password"]]))
              0 1 0 eq_refl eq_refl eq_refl) as (Ht & Hh & Htools & _).
  split; [reflexivity | exact Htools].
Defined.
End RaceMore.

(** * Token verification, construction, dashboard and client *)

Module AuthFacts.
Import Auth.

Section Verification.
Variable Payload : Type.
Variable str : error -> string.
Variable get_openid_config : error + response (gmap string string).
Variable get_jwks : string -> error + response (gmap string (list (gmap string string))).
Variable get_unverified_header : string -> error + option (gmap string string).
Variable decode : string -> gmap string string -> error + Payload.


(** X16.  [get_jwk] never raises a [RequestException]: one raised by
    the first request becomes an [HTTPException] with status 500 whose
    detail starts with the fixed text; and when [get_jwk] returns, both
    documents were fetched, the first passed [raise_for_status], and the
    result is the [keys] entry of the second, fetched from the [jwks_uri]
    of the first. *)
Theorem get_jwk_turns_request_errors_into_500 :
  (forall msg, Auth.get_jwk str get_openid_config get_jwks <> inl (RequestException msg)) /\
  (forall msg, get_openid_config = inl (RequestException msg) ->
     Auth.get_jwk str get_openid_config get_jwks =
       inl (HTTPException 500
              ("Error fetching public keys: " +:+ str (RequestException msg)))) /\
  (forall keys, Auth.get_jwk str get_openid_config get_jwks = inr keys ->
     exists response openid_config jwks_uri response2 jwks,
       get_openid_config = inr response /\ raise_for_status response = None /\
       json response = inr openid_config /\ openid_config !! "jwks_uri" = Some jwks_uri /\
       get_jwks jwks_uri = inr response2 /\ json response2 = inr jwks /\
       jwks !! "keys" = Some keys).
Proof.
  unfold Auth.get_jwk, getitem. split; [|split].
  - intros msg.
    repeat (case_match; simplify_eq; try done).
  - intros msg ->. done.
  - intros keys H.
    repeat (case_match; simplify_eq; try done).
    by eexists _, _, _, _, _.
Qed.

Lemma rsa_key_of_inr (key rsa_key : gmap string string) :
  rsa_key_of key = inr rsa_key ->
  rsa_key <> ∅ /\
  forall field, field ∈ ["kty"; "kid"; "use"; "n"; "e"] ->
    is_Some (key !! field) /\ rsa_key !! field = key !! field.
Proof.
  unfold rsa_key_of, getitem. intros H.
  repeat (case_match; simplify_eq; try done).
  split; [apply insert_non_empty|].
  intros field Hf. repeat (apply elem_of_cons in Hf as [->|Hf]); [..|by apply elem_of_nil in Hf];
    split; try (by eexists); by simplify_map_eq.
Qed.

Lemma find_rsa_key_inr (kid : string) (keys : list (gmap string string))
    (rsa_key : gmap string string) :
  find_rsa_key kid keys = inr rsa_key ->
  rsa_key <> ∅ ->
  exists pre key post,
    keys = pre ++ key :: post /\
    Forall (fun other => exists k, other !! "kid" = Some k /\ k <> kid) pre /\
    key !! "kid" = Some kid /\
    rsa_key_of key = inr rsa_key.
Proof.
  induction keys as [|key keys IH]; simpl; intros H Hne; [by simplify_eq|].
  unfold getitem in H at 1. destruct (key !! "kid") as [k|] eqn:Hk; [|done].
  destruct (decide (k = kid)) as [->|Hkid].
  - by exists [], key, keys.
  - destruct (IH H Hne) as (pre & key' & post & -> & Hpre & Hkey' & Hrsa).
    exists (key :: pre), key', post. split; [done|]. split; [|done].
    apply Forall_cons. split; [by exists k | done].
Qed.

(** X17.  Every exception that leaves [verify_token] is an
    [HTTPException] with status 401, and its detail is the expiry text or
    starts with one of the two other fixed texts: also a failure to fetch
    the keys, which [get_jwk] raised with status 500, reaches the caller as
    a 401. *)
Theorem verify_token_rejects_with_401 (token : string) (e : error) :
  Auth.verify_token Payload str get_openid_config get_jwks get_unverified_header decode
    token = inl e ->
  exists detail,
    e = HTTPException 401 detail /\
    (detail = "Token has expired" \/
     String.prefix "Invalid token: " detail = true \/
     String.prefix "Token verification failed: " detail = true).
Proof.
  unfold Auth.verify_token. intros H.
  destruct (Auth.verify_token_try _ _ _ _ _ _ _)
    as [[status_code detail|msg|msg|msg|key|msg]|payload];
    simplify_eq; eexists; (split; [done|]); auto;
    right; [right|right|left|right|right]; apply prefix_spec; by eexists.
Qed.

(** X18.  When [verify_token] returns a payload, the token is not
    empty, its header names a key identifier, the first key of the key set
    with that identifier has the five fields the code reads, and the
    payload is what [jwt.decode] returned for the token and the dictionary
    of those five fields. *)
Theorem verify_token_accepts_only_known_keys (token : string) (payload : Payload) :
  Auth.verify_token Payload str get_openid_config get_jwks get_unverified_header decode
    token = inr payload ->
  token <> "" /\
  exists unverified_header kid keys pre key post rsa_key,
    get_unverified_header token = inr (Some unverified_header) /\
    unverified_header !! "kid" = Some kid /\
    Auth.get_jwk str get_openid_config get_jwks = inr keys /\
    keys = pre ++ key :: post /\
    Forall (fun other => exists k, other !! "kid" = Some k /\ k <> kid) pre /\
    key !! "kid" = Some kid /\
    (forall field, field ∈ ["kty"; "kid"; "use"; "n"; "e"] ->
       is_Some (key !! field) /\ rsa_key !! field = key !! field) /\
    decode token rsa_key = inr payload.
Proof.
  unfold Auth.verify_token. intros H.
  destruct (Auth.verify_token_try _ _ _ _ _ _ _) as [[]|payload'] eqn:Htry; simplify_eq.
  unfold Auth.verify_token_try in Htry.
  destruct (decide (token = "")) as [|Htoken]; [done|]. split; [done|].
  destruct (get_unverified_header token) as [|[unverified_header|]]; [done| |done].
  unfold getitem in Htry at 1.
  destruct (unverified_header !! "kid") as [kid|] eqn:Hkid; [|done].
  destruct (Auth.get_jwk str get_openid_config get_jwks) as [|keys] eqn:Hkeys; [done|].
  destruct (find_rsa_key kid keys) as [|rsa_key] eqn:Hfind; [done|].
  destruct (decide (rsa_key = ∅)) as [|Hne]; [done|].
  destruct (find_rsa_key_inr _ _ _ Hfind Hne) as (pre & key & post & -> & Hpre & Hkey & Hrsa).
  destruct (rsa_key_of_inr _ _ Hrsa) as [_ Hfields].
  by eexists _, _, _, _, _, _, _.
Qed.

(** X19.  When every key of the key set has an identifier and none is
    the one the header names, [verify_token] raises a 401 whose detail is
    the verification-failed text followed by the print of the 401 raised
    inside the [try] block; [jwt.decode] has no say. *)
Theorem verify_token_rejects_unknown_kid (token : string)
    (unverified_header : gmap string string) (kid : string)
    (keys : list (gmap string string)) :
  token <> "" ->
  get_unverified_header token = inr (Some unverified_header) ->
  unverified_header !! "kid" = Some kid ->
  Auth.get_jwk str get_openid_config get_jwks = inr keys ->
  Forall (fun other => exists k, other !! "kid" = Some k /\ k <> kid) keys ->
  Auth.verify_token Payload str get_openid_config get_jwks get_unverified_header decode
    token =
    inl (HTTPException 401
           ("Token verification failed: " +:+
            str (HTTPException 401 "Unable to find appropriate key"))).
Proof.
  intros Htoken Hheader Hkid Hkeys Hnone.
  assert (find_rsa_key kid keys = inr ∅) as Hfind.
  { clear Hkeys. induction keys as [|key keys IH]; [done|].
    apply Forall_cons in Hnone as [(k & Hk & Hne) Hrest]. simpl.
    unfold getitem. rewrite Hk. destruct (decide (k = kid)); [done|]. by apply IH. }
  unfold Auth.verify_token, Auth.verify_token_try.
  destruct (decide (token = "")); [done|].
  rewrite Hheader. unfold getitem at 1. rewrite Hkid, Hkeys, Hfind.
  destruct (decide (∅ = ∅)); done.
Qed.

End Verification.


Lemma get_jwk_turns_request_errors_into_500_witness :
  exists jwks_uri response2,
    demo_jwks jwks_uri = inr response2 /\
    json response2 = inr (<["keys" := demo_keys]> ∅).
Proof.
  destruct (get_jwk_turns_request_errors_into_500 demo_str demo_openid_config demo_jwks)
    as (_ & _ & Hkeys).
  destruct (Hkeys demo_keys eq_refl)
    as (response & openid_config & jwks_uri & response2 & jwks
        & Hconfig & _ & Hjson & Huri & Hjwks & Hjson2 & _).
  exists jwks_uri, response2. split; [exact Hjwks|].
  injection Hconfig as <-. injection Hjson as <-.
  assert (jwks_uri = "https://keys") as -> by (vm_compute in Huri; congruence).
  injection Hjwks as <-. reflexivity.
Defined.

Lemma verify_token_rejects_with_401_witness :
  exists detail,
    verify_token string demo_str demo_openid_config demo_jwks demo_header demo_decode
      "garbage" = inl (HTTPException 401 detail) /\
    String.prefix "Invalid token: " detail = true.
Proof.
  destruct (verify_token_rejects_with_401 string demo_str demo_openid_config demo_jwks
              demo_header demo_decode "garbage"
              (HTTPException 401 "Invalid token: Not enough segments") eq_refl)
    as (detail & Hdetail & _).
  exists detail. split; [|by injection Hdetail as <-].
  by rewrite <-Hdetail.
Defined.

Lemma verify_token_accepts_only_known_keys_witness :
  exists (unverified_header : gmap string string) (kid : string)
         (key : gmap string string),
    demo_header "good" = inr (Some unverified_header) /\
    unverified_header !! "kid" = Some kid /\
    key !! "kid" = Some kid /\
    is_Some (key !! "n").
Proof.
  destruct (verify_token_accepts_only_known_keys string demo_str demo_openid_config
              demo_jwks demo_header demo_decode "good" "good/n2" eq_refl)
    as (_ & header & kid & keys & pre & key & post & rsa_key & Hheader & Hkid & _ & _ & _
        & Hkey & Hfields & _).
  exists header, kid, key. split; [exact Hheader|]. split; [exact Hkid|].
  split; [exact Hkey|]. apply Hfields. apply (list_elem_of_lookup_2 _ 3). reflexivity.
Defined.

Lemma verify_token_rejects_unknown_kid_witness :
  verify_token string demo_str demo_openid_config demo_jwks demo_header demo_decode "stale"
  = inl (HTTPException 401 "Token verification failed: Unable to find appropriate key").
Proof.
  apply (verify_token_rejects_unknown_kid string demo_str demo_openid_config demo_jwks
           demo_header demo_decode "stale" (<["kid" := "k9"]> ∅) "k9" demo_keys).
  - done.
  - reflexivity.
  - reflexivity.
  - reflexivity.
  - repeat constructor; eexists; (split; [reflexivity|done]).
Defined.

End AuthFacts.

Module ConstructionFacts.
Import Construction.

Lemma next_conn_id_Some (conn_list : list connection) (conn_id : string) :
  next_conn_id conn_list = Some conn_id ->
  exists conn, first_search_connection conn_list conn /\ id conn = conn_id.
Proof.
  induction conn_list as [|conn rest IH]; simpl; [done|].
  destruct (decide (connection_type conn = "CognitiveSearch")) as [Htype|Htype].
  - intros H. injection H as <-. exists conn. split; [|done]. by exists [], rest.
  - intros (found & (pre & post & -> & Hpre & Hfound) & Hid)%IH.
    exists found. split; [|done]. exists (conn :: pre), post.
    split; [done|]. split; [by constructor | done].
Qed.

Lemma next_conn_id_first (conn_list : list connection) (conn : connection) :
  first_search_connection conn_list conn -> next_conn_id conn_list = Some (id conn).
Proof.
  intros (pre & post & -> & Hpre & Htype).
  induction Hpre as [|other pre Hother _ IH]; simpl.
  - by rewrite decide_True.
  - by rewrite decide_False.
Qed.

Lemma next_conn_id_None (conn_list : list connection) :
  Forall (fun other => connection_type other <> "CognitiveSearch") conn_list ->
  next_conn_id conn_list = None.
Proof.
  induction 1 as [|other rest Hother _ IH]; simpl; [done|]. by rewrite decide_False.
Qed.

(** X20.  When [__init__] returns, the agent was created with the
    search tool on the identifier of the first connection of type
    [CognitiveSearch], that identifier is not empty, the index is
    [end-user-rag] and the instructions are the fixed ones; the assistant
    keeps the identifier the service gave the agent. *)
Theorem assistant_uses_the_first_search_connection
    (conn_list : list connection) (create_agent : agent_definition -> exn + string)
    (self : IAMAssistant) :
  __init__ (inr conn_list) create_agent = inr self ->
  exists (conn : connection) (definition : agent_definition),
    first_search_connection conn_list conn /\
    id conn <> "" /\
    index_connection_id (tools definition) = id conn /\
    index_name (tools definition) = "end-user-rag" /\
    agent_instructions definition = instructions /\
    create_agent definition = inr (iam_agent_id self).
Proof.
  unfold __init__. intros H.
  destruct (next_conn_id conn_list) as [conn_id|] eqn:Hnext; [|done].
  destruct (decide (conn_id = "")) as [|Hid]; [done|].
  apply next_conn_id_Some in Hnext as (conn & Hfirst & <-).
  destruct (create_agent _) as [e|agent_id] eqn:Hcreate; [done|].
  injection H as <-.
  exists conn, {| model := "gpt-4.1-nano"; name := "IAM Assistant";
                  agent_instructions := instructions;
                  tools := {| index_connection_id := id conn; index_name := "end-user-rag" |} |}.
  done.
Qed.

(** X21.  When no connection has type [CognitiveSearch], or the first
    that has it has an empty identifier, [__init__] raises the
    no-connection error whatever [create_agent] would do, also when a later
    search connection has an identifier. *)
Theorem unusable_search_connection_is_a_runtime_error
    (conn_list : list connection) (create_agent : agent_definition -> exn + string) :
  Forall (fun other => connection_type other <> "CognitiveSearch") conn_list \/
  (exists conn, first_search_connection conn_list conn /\ id conn = "") ->
  __init__ (inr conn_list) create_agent = inl no_connection.
Proof.
  unfold __init__. intros [Hnone|(conn & Hfirst & Hid)].
  - by rewrite next_conn_id_None.
  - rewrite (next_conn_id_first _ _ Hfirst), Hid. by rewrite decide_True.
Qed.


Lemma assistant_uses_the_first_search_connection_witness :
  exists definition,
    index_connection_id (tools definition) = "conn-search" /\
    demo_create_agent definition = inr "asst_conn-search".
Proof.
  destruct (assistant_uses_the_first_search_connection
              (Connection "conn-openai" "AzureOpenAI" :: drop 2 demo_connections)
              demo_create_agent {| iam_agent_id := "asst_conn-search" |} eq_refl)
    as (conn & definition & (pre & post & Hlist & Hpre & Htype) & _ & Hindex & _ & _ & Hcreate).
  exists definition. split; [|exact Hcreate].
  rewrite Hindex. destruct pre as [|other [|other' pre]].
  - injection Hlist as <- _. discriminate Htype.
  - injection Hlist as _ <- _. reflexivity.
  - injection Hlist as _ _ Hnil. by destruct pre.
Defined.

Lemma unusable_search_connection_is_a_runtime_error_witness :
  __init__ (inr demo_connections) demo_create_agent = inl no_connection.
Proof.
  apply unusable_search_connection_is_a_runtime_error.
  right. exists (Connection "" "CognitiveSearch"). split; [|reflexivity].
  exists [Connection "conn-openai" "AzureOpenAI"], [Connection "conn-search" "CognitiveSearch"].
  split; [reflexivity|]. split; [|reflexivity]. by repeat constructor.
Defined.

End ConstructionFacts.

Module DashboardFacts.
Import Dashboard.

Section Cache.
Context {Data Time : Type}.
Variable within_ttl : Time -> Time -> bool.

Lemma serve_cons (req : request Data Time) (rest : list (request Data Time)) (c : cache Data Time) :
  serve within_ttl (req :: rest) c =
    ((get_iam_dashboard_summary within_ttl req c).1 ::
       (serve within_ttl rest (get_iam_dashboard_summary within_ttl req c).2).1,
     (serve within_ttl rest (get_iam_dashboard_summary within_ttl req c).2).2).
Proof.
  change (serve within_ttl (req :: rest) c) with
    (let (answer, c') := get_iam_dashboard_summary within_ttl req c in
     let (answers, c'') := serve within_ttl rest c' in (answer :: answers, c'')).
  destruct (get_iam_dashboard_summary within_ttl req c) as [answer c']. cbn [fst snd].
  by destruct (serve within_ttl rest c') as [answers c''].
Qed.

(** One request: what is served was cached or has just been built. *)
Lemma summary_sources (req : request Data Time) (c : cache Data Time) :
  let (answer, c') := get_iam_dashboard_summary within_ttl req c in
  (forall data, answer = inr data ->
     _dashboard_cache c = Some data \/ built req = inr data) /\
  (forall data, _dashboard_cache c' = Some data ->
     _dashboard_cache c = Some data \/ built req = inr data) /\
  builds c <= builds c'.
Proof.
  unfold get_iam_dashboard_summary.
  destruct (negb (truth (refresh req))), (_dashboard_cache c) as [cached|] eqn:Hc,
    (built req) as [e|data'] eqn:Hb; simpl;
    try destruct (within_ttl _ _); simpl;
    repeat split; intros; simplify_eq; auto; lia.
Qed.

(** X22.  Starting with an empty cache, every dashboard the endpoint
    serves, from the cache or not, is what the build of that request or of
    an earlier one returned. *)
Theorem served_dashboards_were_built
    (reqs : list (request Data Time)) (c : cache Data Time) (i : nat) (data : Data) :
  _dashboard_cache c = None ->
  (serve within_ttl reqs c).1 !! i = Some (inr data) ->
  exists j req, j <= i /\ reqs !! j = Some req /\ built req = inr data.
Proof.
  intros Hempty.
  assert (forall (reqs : list (request Data Time)) (c : cache Data Time) i data,
            (serve within_ttl reqs c).1 !! i = Some (inr data) ->
            _dashboard_cache c = Some data \/
            exists j req, j <= i /\ reqs !! j = Some req /\ built req = inr data) as Hgen.
  { clear. intros reqs. induction reqs as [|req rest IH]; intros c i data; [done|].
    rewrite serve_cons. simpl.
    pose proof (summary_sources req c) as Hone.
    destruct (get_iam_dashboard_summary within_ttl req c) as [answer c'].
    destruct Hone as (Hanswer & Hcache & _). simpl.
    destruct i as [|i]; simpl.
    - intros H. injection H as ->. destruct (Hanswer data eq_refl) as [?|?]; [by left|].
      right. exists 0, req. by split; [lia|].
    - intros H. destruct (IH c' i data H) as [Hc'|(j & req' & Hj & Hreq' & Hbuilt)].
      + destruct (Hcache data Hc') as [?|?]; [by left|].
        right. exists 0, req. by split; [lia|].
      + right. exists (S j), req'. by split; [lia|]. }
  intros H. destruct (Hgen reqs c i data H) as [Hc|?]; [congruence | done].
Qed.

(** X23.  A refresh whose build fails answers with the 500 error and
    leaves the cached dashboard and its time in place: a request without
    refresh that follows within the time to live is served the old
    dashboard, and the dashboard has been built once, not twice. *)
Theorem failed_refresh_keeps_the_cached_dashboard
    (first second : request Data Time) (c : cache Data Time) (data : Data) (e : exn) :
  _dashboard_cache c = Some data ->
  truth (refresh first) = true ->
  built first = inl e ->
  truth (refresh second) = false ->
  within_ttl (now_tested second) (_dashboard_cache_ts c) = true ->
  (serve within_ttl [first; second] c).1 =
    [inl (OtherException ("Failed to build IAM dashboard: " +:+ str e)); inr data] /\
  builds (serve within_ttl [first; second] c).2 = S (builds c).
Proof.
  intros Hc Hrefresh Hbuilt Hplain Hfresh.
  set (c' := Cache (_dashboard_cache c) (_dashboard_cache_ts c) (S (builds c))).
  assert (get_iam_dashboard_summary within_ttl first c =
            (inl (OtherException ("Failed to build IAM dashboard: " +:+ str e)), c')) as Hfirst.
  { unfold get_iam_dashboard_summary. by rewrite Hrefresh, Hbuilt. }
  assert (get_iam_dashboard_summary within_ttl second c' = (inr data, c')) as Hsecond.
  { unfold get_iam_dashboard_summary. simpl. by rewrite Hplain, Hc, Hfresh. }
  rewrite !serve_cons, Hfirst. cbn [fst snd]. by rewrite Hsecond.
Qed.

End Cache.


Lemma served_dashboards_were_built_witness :
  exists j req,
    j <= 1 /\
    [Request (Some 1%Z) 0 5 (inr "snapshot");
     Request None 100 105 (inl (OtherException "Graph unreachable"))] !! j = Some req /\
    built req = inr "snapshot".
Proof.
  apply (served_dashboards_were_built demo_within_ttl
           [Request (Some 1%Z) 0 5 (inr "snapshot");
            Request None 100 105 (inl (OtherException "Graph unreachable"))]
           (Cache None 0 0) 1 "snapshot"); reflexivity.
Defined.

Lemma failed_refresh_keeps_the_cached_dashboard_witness :
  (serve demo_within_ttl
     [Request (Some 1%Z) 100 105 (inl (OtherException "Graph unreachable"));
      Request None 200 205 (inr "newer")]
     (Cache (Some "snapshot") 5 1)).1 =
  [inl (OtherException "Failed to build IAM dashboard: Graph unreachable"); inr "snapshot"].
Proof.
  destruct (failed_refresh_keeps_the_cached_dashboard demo_within_ttl
              (Request (Some 1%Z) 100 105 (inl (OtherException "Graph unreachable")))
              (Request None 200 205 (inr "newer"))
              (Cache (Some "snapshot") 5 1) "snapshot" (OtherException "Graph unreachable"))
    as [Hanswers _]; [reflexivity | reflexivity | reflexivity | reflexivity | reflexivity |].
  exact Hanswers.
Defined.

End DashboardFacts.

Module StatelessFacts.
Import Stateless.

Lemma mapM_as_dict_snoc (items : list value) (h : list (gmap string string))
    (d : gmap string string) :
  mapM as_dict items = Some h -> mapM as_dict (items ++ [Dict d]) = Some (h ++ [d]).
Proof.
  intros H. apply mapM_Some in H. apply mapM_Some.
  apply Forall2_app; [done|]. by repeat constructor.
Qed.

Lemma to_sk_history_app (h1 h2 : list (gmap string string)) :
  to_sk_history (h1 ++ h2) = to_sk_history h1 ++ to_sk_history h2.
Proof. apply map_app. Qed.

Lemma to_sk_history_entry (r : Role) (text : string) :
  to_sk_history [<["role" := if r is User then "user" else "assistant"]>
                   (<["content" := text]> ∅)] = [Message r text].
Proof. by destruct r. Qed.

(** Appending an entry to the stored history appends a message to what the
    endpoint reads. *)
Lemma append_to_history (key : string) (b : browser) (r : Role) (text : string)
    (h : list (gmap string string)) :
  as_chat_history (default (List []) (session b !! key)) = Some h ->
  exists s',
    append_to key (entry (if r is User then "user" else "assistant") text) b =
      (inr tt, Browser s' (posted b)) /\
    as_chat_history (default (List []) (s' !! key)) =
      Some (h ++ [<["role" := if r is User then "user" else "assistant"]>
                    (<["content" := text]> ∅)]) /\
    (forall other, other <> key -> s' !! other = session b !! other).
Proof.
  unfold append_to, entry, with_session. intros Hh.
  destruct (session b !! key) as [[| | | |items]|] eqn:Hs; simpl in Hh; try done.
  - eexists. split; [reflexivity|]. rewrite lookup_insert_eq. simpl.
    split; [by apply mapM_as_dict_snoc|]. intros other Hother. by apply lookup_insert_ne.
  - injection Hh as <-. eexists. split; [reflexivity|]. rewrite lookup_insert_eq.
    split; [done|]. intros other Hother. by apply lookup_insert_ne.
Qed.

Lemma append_to_listable (key : string) (item : value) (b : browser) :
  listable key (session b) ->
  exists s', append_to key item b = (inr tt, Browser s' (posted b)) /\
    forall other, other <> key -> s' !! other = session b !! other.
Proof.
  unfold append_to, with_session. intros [H|[items H]]; rewrite H; eexists;
    (split; [reflexivity|]); intros other Hother; by apply lookup_insert_ne.
Qed.

Lemma stateless_turn_unfolded
    (post : string -> payload -> reply) (page : agent_page) (user_input : string)
    (b : browser) (token : value) (h : list message) :
  page ∈ agent_pages ->
  session b !! "access_token" = Some token ->
  listable (transcript_key page) (session b) ->
  recorded page (session b) = Some h ->
  exists (b' : browser) (request : payload),
    execute_query post page user_input b = (inr tt, b') /\
    posted b' = posted b ++ [(path page, request)] /\
    req_message request = user_input /\
    req_thread_id request = session b !! thread_key page /\
    req_chat_history request = default (List []) (session b !! history_key page) /\
    to_sk_history <$> as_chat_history (req_chat_history request) = Some h /\
    recorded page (session b') =
      Some (h ++ [Message User user_input;
                  Message Assistant (outcome page (post (path page) request)).2]) /\
    session b' !! thread_key page = session b !! thread_key page.
Proof.
  intros Hpage Htoken Htranscript Hrecorded.
  unfold recorded in *.
  destruct (as_chat_history (default (List []) (session b !! history_key page)))
    as [h0|] eqn:Hh0; simpl in Hrecorded; [|done].
  injection Hrecorded as <-.
  set (request := Payload (session b !! thread_key page) user_input
                    (default (List []) (session b !! history_key page))).
  assert (transcript_key page <> history_key page /\
          thread_key page <> history_key page /\
          thread_key page <> transcript_key page) as (Hne1 & Hne2 & Hne3).
  { unfold agent_pages in Hpage. rewrite !elem_of_cons, elem_of_nil in Hpage.
    destruct Hpage as [->|[->|[->|[]]]]; by repeat split. }
  set (b1 := Browser (session b) (posted b ++ [(path page, request)])).
  destruct (outcome page (post (path page) request)) as [action result] eqn:Hout.
  destruct (append_to_listable (transcript_key page) (Tuple [user_input; result; action]) b1
              Htranscript) as (s1 & Hrun1 & Hother1).
  assert (as_chat_history (default (List []) (s1 !! history_key page)) = Some h0) as Hh1.
  { by rewrite Hother1. }
  destruct (append_to_history (history_key page) (Browser s1 (posted b1)) User user_input
              h0 Hh1) as (s2 & Hrun2 & Hh2 & Hother2).
  destruct (append_to_history (history_key page) (Browser s2 (posted b1)) Assistant result
              _ Hh2) as (s3 & Hrun3 & Hh3 & Hother3).
  exists (Browser s3 (posted b1)), request.
  split.
  { cbn [posted] in Hrun2, Hrun3.
    unfold execute_query, bind, get, getitem, requests_post. simpl. rewrite Htoken.
    fold request. rewrite Hout. fold b1. by rewrite Hrun1, Hrun2, Hrun3. }
  split; [done|]. split; [done|]. split; [done|]. split; [done|].
  split; [simpl; by rewrite Hh0|]. simpl. split.
  - rewrite Hh3. simpl. rewrite <-app_assoc, to_sk_history_app, ?Hout. reflexivity.
  - simpl in Hother2, Hother3. rewrite Hother3, Hother2 by done. by apply Hother1.
Qed.

Lemma clear_lookup_None (keys : list string) (s : gmap string value) (k : string) :
  s !! k = None -> clear keys s !! k = None.
Proof.
  unfold clear. revert s. induction keys as [|key keys IH]; intros s Hs; [done|].
  simpl. apply IH. destruct (decide (key = k)) as [->|Hne].
  - apply lookup_delete_eq.
  - by rewrite lookup_delete_ne.
Qed.

Lemma clear_lookup (keys : list string) (s : gmap string value) (k : string) :
  clear keys s !! k = if decide (k ∈ keys) then None else s !! k.
Proof.
  unfold clear. revert s. induction keys as [|key keys IH]; intros s; simpl.
  { destruct (decide (k ∈ [])) as [Hin|]; [by apply elem_of_nil in Hin | done]. }
  rewrite IH. destruct (decide (k ∈ keys)) as [Hin|Hnotin].
  - rewrite decide_True by (by right). done.
  - destruct (decide (key = k)) as [->|Hne].
    + rewrite decide_True by (by left). apply lookup_delete_eq.
    + rewrite decide_False, lookup_delete_ne by (rewrite ?elem_of_cons; intuition congruence). done.
Qed.

Lemma handle_page_entry_cases (active_page : string) (s : gmap string value) :
  exists keys,
    handle_page_entry active_page s = clear keys s /\
    Forall (fun k => k ∉ keys) identity_keys /\
    (is_text (s !! "last_active_page") active_page = false ->
     forall page, page ∈ agent_pages -> name page = active_page ->
       history_key page ∈ keys /\ transcript_key page ∈ keys).
Proof.
  unfold handle_page_entry.
  destruct (is_text _ active_page) eqn:Hlast.
  { exists []. split; [done|]. split; [|done].
    apply Forall_forall. intros k _. apply not_elem_of_nil. }
  unfold agent_pages.
  repeat (destruct (decide (active_page = _)) as [->|?];
          [eexists; split; [reflexivity|]; split; [compute_done|];
           intros _ page Hpage Hname; rewrite !elem_of_cons, elem_of_nil in Hpage;
           destruct Hpage as [->|[->|[->|[]]]]; simplify_eq; split; compute_done |]).
  exists []. split; [done|]. split.
  - apply Forall_forall. intros k _. apply not_elem_of_nil.
  - intros _ page Hpage Hname. rewrite !elem_of_cons, elem_of_nil in Hpage.
    destruct Hpage as [->|[->|[->|[]]]]; simpl in Hname; by subst.
Qed.

(** X24.  One question on the Entra, Okta or Saviynt page: the request
    carries the question, the stored thread identifier and the stored
    history, which the endpoint reads as the messages recorded so far; and
    afterwards the stored history reads as those messages followed by the
    question as a user message and the result as an assistant message,
    where the result of a failed request is the client's failure text. *)
Theorem stateless_turn_records_question_and_result
    (post : string -> payload -> reply) (page : agent_page) (user_input : string)
    (b : browser) (token : value) (h : list message) :
  page ∈ agent_pages ->
  session b !! "access_token" = Some token ->
  listable (transcript_key page) (session b) ->
  recorded page (session b) = Some h ->
  exists (b' : browser) (request : payload),
    execute_query post page user_input b = (inr tt, b') /\
    posted b' = posted b ++ [(path page, request)] /\
    req_message request = user_input /\
    req_thread_id request = session b !! thread_key page /\
    to_sk_history <$> as_chat_history (req_chat_history request) = Some h /\
    recorded page (session b') =
      Some (h ++ [Message User user_input;
                  Message Assistant (outcome page (post (path page) request)).2]) /\
    session b' !! thread_key page = session b !! thread_key page.
Proof.
  intros Hpage Htoken Htranscript Hrecorded.
  destruct (stateless_turn_unfolded post page user_input b token h Hpage Htoken Htranscript
              Hrecorded)
    as (b' & request & Hrun & Hposted & Hmessage & Hthread & _ & Hsent & Hafter & Hkept).
  by exists b', request.
Qed.

(** X25.  [handle_page_entry] never removes what identifies the user
    or a thread: the token, the sign-in state, the page names and the six
    thread identifiers are as before, whatever page is entered. *)
Theorem page_entry_keeps_identity_and_threads
    (active_page : string) (s : gmap string value) (k : string) :
  k ∈ identity_keys ->
  handle_page_entry active_page s !! k = s !! k.
Proof.
  intros Hk. destruct (handle_page_entry_cases active_page s) as (keys & -> & Hkeys & _).
  rewrite clear_lookup, decide_False; [done|].
  by eapply Forall_forall in Hkeys.
Qed.

Lemma setdefault_list_lookup (key : string) (s : gmap string value) (k : string) :
  setdefault_list key s !! k =
    if decide (k = key) then Some (default (List []) (s !! key)) else s !! k.
Proof.
  unfold setdefault_list. destruct (decide (k = key)) as [->|Hne].
  - destruct (s !! key) as [v|] eqn:Hs; [by rewrite Hs | by rewrite lookup_insert_eq].
  - destruct (s !! key); [done | by rewrite lookup_insert_ne].
Qed.

(** X26.  When the user comes to the Entra, Okta or Saviynt page from
    another page and asks a question, the request carries an empty history
    and the thread identifier the page had before: the conversation is
    forgotten, the thread is not; afterwards the stored history reads as
    that one question and its result. *)
Theorem returning_to_a_page_sends_no_history_on_the_old_thread
    (post : string -> payload -> reply) (page : agent_page) (user_input : string)
    (b : browser) (token : value) :
  page ∈ agent_pages ->
  session b !! "access_token" = Some token ->
  is_Some (session b !! thread_key page) ->
  is_text (session b !! "last_active_page") (name page) = false ->
  exists (b' : browser) (request : payload),
    execute_query post page user_input
      (Browser (prepare_page page (enter_page (name page) (session b))) (posted b))
    = (inr tt, b') /\
    posted b' = posted b ++ [(path page, request)] /\
    req_chat_history request = List [] /\
    req_thread_id request = session b !! thread_key page /\
    recorded page (session b') =
      Some [Message User user_input;
            Message Assistant (outcome page (post (path page) request)).2].
Proof.
  intros Hpage Htoken _ Hlast.
  destruct (handle_page_entry_cases (name page) (session b)) as (keys & Hentry & Hkeys & Hcleared).
  destruct (Hcleared Hlast page Hpage eq_refl) as [Hhistory Htranscript].
  set (s1 := enter_page (name page) (session b)).
  assert (forall k, k ∈ keys -> s1 !! k = None) as Hgone.
  { intros k Hk. unfold s1, enter_page. rewrite Hentry, lookup_insert_ne.
    - by rewrite clear_lookup, decide_True.
    - intros <-. rewrite Forall_forall in Hkeys. apply (Hkeys "last_active_page"); [|done].
      compute_done. }
  assert (forall k, k ∈ identity_keys -> k <> "last_active_page" ->
            s1 !! k = session b !! k) as Hkept.
  { intros k Hk Hne. unfold s1, enter_page. rewrite lookup_insert_ne by done.
    rewrite Hentry, clear_lookup, decide_False; [done|]. by eapply Forall_forall in Hkeys. }
  assert (thread_key page ∈ identity_keys /\ thread_key page <> "last_active_page" /\
          thread_key page <> history_key page /\ thread_key page <> transcript_key page /\
          history_key page <> transcript_key page /\
          "access_token" <> history_key page /\ "access_token" <> transcript_key page)
    as (Hthread & Hthread' & Hne1 & Hne2 & Hne3 & Hne4 & Hne5).
  { unfold agent_pages in Hpage. rewrite !elem_of_cons, elem_of_nil in Hpage.
    destruct Hpage as [->|[->|[->|[]]]]; repeat split; compute_done. }
  set (s2 := prepare_page page s1).
  assert (s2 !! history_key page = Some (List [])) as Hh2.
  { unfold s2, prepare_page. rewrite setdefault_list_lookup, decide_True by done.
    rewrite setdefault_list_lookup, decide_False by done. by rewrite Hgone. }
  assert (s2 !! transcript_key page = Some (List [])) as Ht2.
  { unfold s2, prepare_page. rewrite setdefault_list_lookup, decide_False by done.
    rewrite setdefault_list_lookup, decide_True by done. by rewrite Hgone. }
  assert (forall k, k <> history_key page -> k <> transcript_key page -> s2 !! k = s1 !! k)
    as Hrest.
  { intros k H1 H2. unfold s2, prepare_page.
    by rewrite !setdefault_list_lookup, !decide_False by done. }
  destruct (stateless_turn_unfolded post page user_input (Browser s2 (posted b)) token [])
    as (b' & request & Hrun & Hposted & _ & Hid & Hprior & Hsent & Hrecorded & _); simpl.
  - done.
  - rewrite Hrest, Hkept; [done | compute_done | done | done | done].
  - right. by exists [].
  - unfold recorded. by rewrite Hh2.
  - exists b', request. split; [done|]. split; [done|].
    split; [simpl in Hprior; by rewrite Hprior, Hh2|]. split; [|done].
    simpl in Hid. by rewrite Hid, Hrest, Hkept.
Qed.

(** X27.  The sign-out keeps the thread identifiers, transcripts and
    histories of the Okta and Saviynt pages and the name of the last page:
    their keys are not among those it removes. *)
Theorem logout_leaves_okta_and_saviynt_state (s : gmap string value) (k : string) :
  k ∈ "last_active_page" :: okta_saviynt_keys ->
  logout s !! k = s !! k.
Proof.
  intros Hk. unfold logout. rewrite clear_lookup, decide_False; [done|].
  revert k Hk. apply Forall_forall. compute_done.
Qed.


Lemma stateless_turn_records_question_and_result_witness :
  exists b',
    execute_entra_query demo_post "delete everything" (Browser demo_session [])
    = (inr tt, b') /\
    recorded entra_page (session b') =
      Some [Message User "delete everything";
            Message Assistant "Failed to execute command: 500 Server Error"].
Proof.
  destruct (stateless_turn_records_question_and_result demo_post entra_page
              "delete everything" (Browser demo_session []) (Text "token") [])
    as (b' & request & Hrun & Hposted & Hmessage & _ & _ & Hrecorded & _).
  - apply (list_elem_of_lookup_2 _ 0). reflexivity.
  - reflexivity.
  - left. reflexivity.
  - reflexivity.
  - exists b'. split; [exact Hrun|]. rewrite Hrecorded.
    assert (request = Payload (Some (Text "entra-agent-00000000")) "delete everything" (List []))
      as ->.
    { vm_compute in Hrun. injection Hrun as <-. simpl in Hposted. by injection Hposted as <-. }
    reflexivity.
Defined.

Lemma page_entry_keeps_identity_and_threads_witness :
  handle_page_entry "entra_id_assistant" returning_session !! "entra_agent_thread_id" =
    Some (Text "entra-agent-00000000").
Proof.
  rewrite (page_entry_keeps_identity_and_threads "entra_id_assistant"
             returning_session "entra_agent_thread_id").
  - reflexivity.
  - apply (list_elem_of_lookup_2 _ 7). reflexivity.
Defined.

Lemma returning_to_a_page_sends_no_history_on_the_old_thread_witness :
  exists b' request,
    execute_entra_query demo_post "list users"
      (Browser (prepare_page entra_page (enter_page "entra_id_assistant" returning_session)) [])
    = (inr tt, b') /\
    posted b' = [("/entra/agent/chat", request)] /\
    req_chat_history request = List [] /\
    req_thread_id request = Some (Text "entra-agent-00000000").
Proof.
  destruct (returning_to_a_page_sends_no_history_on_the_old_thread demo_post
              entra_page "list users" (Browser returning_session []) (Text "token"))
    as (b' & request & Hrun & Hposted & Hempty & Hthread & _).
  - apply (list_elem_of_lookup_2 _ 0). reflexivity.
  - reflexivity.
  - by eexists.
  - reflexivity.
  - exists b', request. split; [exact Hrun|]. split; [exact Hposted|].
    split; [exact Hempty | exact Hthread].
Defined.

Lemma logout_leaves_okta_and_saviynt_state_witness :
  logout returning_session !! "okta_agent_history" = Some (List [entry "user" "list apps"]) /\
  logout returning_session !! "access_token" = None.
Proof.
  split; [|reflexivity].
  rewrite (logout_leaves_okta_and_saviynt_state returning_session
             "okta_agent_history").
  - reflexivity.
  - apply (list_elem_of_lookup_2 _ 3). reflexivity.
Defined.

End StatelessFacts.
